(** * cdnjs-add-cli: a shallow embedding of [index.js]

    The program is an interactive command-line assistant: it asks the
    maintainer questions, queries the npm registry or GitHub, lets the
    maintainer browse the downloaded release, builds the auto-update file
    map and finally opens a pull request (or prints the record).

    Conventions of the embedding.
    - A JavaScript string is a [string]: a sequence of code units below
      256.  Within that range the line terminators are LF and CR only,
      and the white space is TAB to CR, the space and the no-break space.
    - A JavaScript value is a [jsval].  Numbers are the integers that a
      double holds exactly and prints in full.  An object is the ordered
      list of its own properties, each name once; inherited (prototype)
      members are not part of the model.
    - Node's library functions and the remote services (path, fs, glob,
      fetch, the tarball download, git-url-parse, Octokit, JSON, Number)
      and the configuration are the fields of a record [Host]; the
      program is a function of the host.
    - The console, the questions asked and the calls that change the
      outside world are recorded, in order, in a trace.  The answers the
      maintainer will type are a list of lines; a program that asks when
      the list is exhausted is [Waiting].  chalk's colours only wrap the
      text in escape codes and are left out. *)

From Stdlib Require Import String Ascii List ZArith Bool Lia Decimal DecimalString.
Import ListNotations.
Local Open Scope list_scope.
Local Open Scope string_scope.
Set Warnings "-register-all".

(** ** JavaScript values *)

Module JS.

Inductive jsval : Type :=
| JUndef
| JNull
| JBool (b : bool)
| JNum (n : Z)
| JStr (s : string)
| JArr (elements : list jsval)
| JObj (fields : list (string * jsval)).

(** Errors: a [TypeError] raised by the language itself, or an error
    raised by a collaborator, with its message. *)
Inductive exn : Type :=
| TypeError
| Raised (message : string).

Inductive result (A : Type) : Type :=
| Ok (a : A)
| Throw (e : exn).
Arguments Ok {A} a.
Arguments Throw {A} e.

Definition rbind {A B} (r : result A) (f : A -> result B) : result B :=
  match r with
  | Ok a => f a
  | Throw e => Throw e
  end.

(** [!!v] *)
Definition truthy (v : jsval) : bool :=
  match v with
  | JUndef | JNull => false
  | JBool b => b
  | JNum n => negb (n =? 0)%Z
  | JStr s => negb (s =? "")
  | JArr _ | JObj _ => true
  end.

(** [v === s] for a string [s] *)
Definition is_string (v : jsval) (s : string) : bool :=
  match v with
  | JStr s' => s' =? s
  | _ => false
  end.

(** [a || b] for two values already computed. *)
Definition js_or (a b : jsval) : jsval := if truthy a then a else b.

Definition string_of_Z (n : Z) : string :=
  NilZero.string_of_int (Z.to_int n).

Definition string_of_nat (n : nat) : string :=
  NilZero.string_of_uint (Nat.to_uint n).

(** [String(v)], as a template literal applies it. *)
Fixpoint ToString (v : jsval) : string :=
  match v with
  | JUndef => "undefined"
  | JNull => "null"
  | JBool true => "true"
  | JBool false => "false"
  | JNum n => string_of_Z n
  | JStr s => s
  | JArr l =>
      (fix join (l : list jsval) : string :=
         match l with
         | [] => ""
         | x :: l' =>
             let element :=
               match x with
               | JUndef | JNull => ""
               | _ => ToString x
               end in
             match l' with
             | [] => element
             | _ :: _ => element ++ "," ++ join l'
             end
         end) l
  | JObj _ => "[object Object]"
  end.

(** *** Objects as ordered property lists *)

Definition fields := list (string * jsval).

Fixpoint obj_has (o : fields) (k : string) : bool :=
  match o with
  | [] => false
  | (k', _) :: o' => if k' =? k then true else obj_has o' k
  end.

Fixpoint obj_get (o : fields) (k : string) : jsval :=
  match o with
  | [] => JUndef
  | (k', v) :: o' => if k' =? k then v else obj_get o' k
  end.

(** [o[k] = v]: an existing property keeps its place, a new one is
    added last. *)
Fixpoint obj_set (o : fields) (k : string) (v : jsval) : fields :=
  match o with
  | [] => [(k, v)]
  | (k', v') :: o' =>
      if k' =? k then (k', v) :: o' else (k', v') :: obj_set o' k v
  end.

(** [delete o[k]] *)
Fixpoint obj_delete (o : fields) (k : string) : fields :=
  match o with
  | [] => []
  | (k', v') :: o' =>
      if k' =? k then obj_delete o' k else (k', v') :: obj_delete o' k
  end.

Fixpoint indexed_from (i : nat) (l : list jsval) : fields :=
  match l with
  | [] => []
  | x :: l' => (string_of_nat i, x) :: indexed_from (S i) l'
  end.

Fixpoint chars (s : string) : list jsval :=
  match s with
  | EmptyString => []
  | String c s' => JStr (String c EmptyString) :: chars s'
  end.

(** The own enumerable properties of a value, as [{...v}] copies them. *)
Definition own_properties (v : jsval) : fields :=
  match v with
  | JObj o => o
  | JArr l => indexed_from 0 l
  | JStr s => indexed_from 0 (chars s)
  | _ => []
  end.

(** [v[k]] and [v.k]: reading a property of [undefined] or [null]
    throws. *)
Definition prop (v : jsval) (k : string) : result jsval :=
  match v with
  | JUndef | JNull => Throw TypeError
  | JObj o => Ok (obj_get o k)
  | JArr l =>
      Ok (if k =? "length" then JNum (Z.of_nat (List.length l))
          else obj_get (indexed_from 0 l) k)
  | JStr s =>
      Ok (if k =? "length" then JNum (Z.of_nat (String.length s))
          else obj_get (indexed_from 0 (chars s)) k)
  | JBool _ | JNum _ => Ok JUndef
  end.

(** [{...a, ...b}] *)
Definition spread2 (a b : jsval) : fields :=
  fold_left (fun o kv => obj_set o (fst kv) (snd kv)) (own_properties b)
    (fold_left (fun o kv => obj_set o (fst kv) (snd kv)) (own_properties a) []).

(** *** Strings *)

(** [s.slice(start, end)]; [None] is an omitted [end]. *)
Definition slice (s : string) (start : Z) (stop : option Z) : string :=
  let len := Z.of_nat (String.length s) in
  let clamp i := if (i <? 0)%Z then Z.max (len + i) 0 else Z.min i len in
  let from := clamp start in
  let to := match stop with
            | None => len
            | Some e => clamp e
            end in
  substring (Z.to_nat from) (Z.to_nat (to - from)) s.

(** [s.split(sep)] for a separator of one character. *)
Fixpoint split_char (sep : ascii) (s : string) : list string :=
  match s with
  | EmptyString => [""]
  | String c s' =>
      if Ascii.eqb c sep then "" :: split_char sep s'
      else match split_char sep s' with
           | [] => [String c ""]
           | piece :: pieces => String c piece :: pieces
           end
  end.

(** [s.split(sep, limit)] *)
Definition split (s : string) (sep : ascii) (limit : nat) : list string :=
  firstn limit (split_char sep s).

(** White space and line terminators, as [trim] strips them. *)
Definition is_space (c : ascii) : bool :=
  let n := nat_of_ascii c in
  (((9 <=? n) && (n <=? 13)) || (n =? 32) || (n =? 160))%nat.

Fixpoint trimStart (s : string) : string :=
  match s with
  | EmptyString => ""
  | String c s' => if is_space c then trimStart s' else s
  end.

Fixpoint trimEnd (s : string) : string :=
  match s with
  | EmptyString => ""
  | String c s' =>
      match trimEnd s' with
      | EmptyString => if is_space c then "" else String c ""
      | t => String c t
      end
  end.

Definition trim (s : string) : string := trimEnd (trimStart s).

Definition lower_char (c : ascii) : ascii :=
  let n := nat_of_ascii c in
  if (((65 <=? n) && (n <=? 90))
      || ((192 <=? n) && (n <=? 222) && negb (n =? 215)))%nat
  then ascii_of_nat (n + 32) else c.

Fixpoint toLowerCase (s : string) : string :=
  match s with
  | EmptyString => ""
  | String c s' => String (lower_char c) (toLowerCase s')
  end.

Fixpoint count_char (c : ascii) (s : string) : nat :=
  match s with
  | EmptyString => 0
  | String c' s' => (if Ascii.eqb c' c then 1 else 0) + count_char c s'
  end.

Definition nl : string := String (ascii_of_nat 10) "".
Definition tab : string := String (ascii_of_nat 9) "".

Fixpoint join_with (sep : string) (l : list string) : string :=
  match l with
  | [] => ""
  | [x] => x
  | x :: l' => x ++ sep ++ join_with sep l'
  end.

End JS.
Import JS.

(** ** Regular expressions

    The fragment of ECMAScript regular expressions the program uses,
    with the backtracking semantics of the language: a matcher takes a
    continuation and tries its alternatives in priority order. *)

Module RegExp.

Inductive atom : Type :=
| Chr (c : ascii)
| Dot.

Inductive regex : Type :=
| Atom (a : atom)
| Bol
| Eol
| Seq (r1 r2 : regex)
| Alt (r1 r2 : regex)
| Cap (n : nat) (r : regex)
| Star (greedy : bool) (a : atom)
| Upto (n : nat) (r : regex).

Definition captures := list (nat * string).

Fixpoint get_cap (n : nat) (c : captures) : jsval :=
  match c with
  | [] => JUndef
  | (m, s) :: c' => if Nat.eqb m n then JStr s else get_cap n c'
  end.

Definition is_line_terminator (c : ascii) : bool :=
  let n := nat_of_ascii c in ((n =? 10) || (n =? 13))%nat.

Definition atom_ok (a : atom) (c : ascii) : bool :=
  match a with
  | Chr c' => Ascii.eqb c c'
  | Dot => negb (is_line_terminator c)
  end.

Definition cont := nat -> string -> captures -> option captures.

Definition orelse (x : option captures) (y : unit -> option captures) :=
  match x with
  | Some c => Some c
  | None => y tt
  end.

(** [a*]: as many as possible first. *)
Fixpoint star_greedy (a : atom) (k : cont) (pos : nat) (s : string)
    (caps : captures) : option captures :=
  match s with
  | String c s' =>
      if atom_ok a c
      then orelse (star_greedy a k (S pos) s' caps) (fun _ => k pos s caps)
      else k pos s caps
  | EmptyString => k pos s caps
  end.

(** [a*?]: as few as possible first. *)
Fixpoint star_lazy (a : atom) (k : cont) (pos : nat) (s : string)
    (caps : captures) : option captures :=
  orelse (k pos s caps)
    (fun _ =>
       match s with
       | String c s' =>
           if atom_ok a c then star_lazy a k (S pos) s' caps else None
       | EmptyString => None
       end).

Fixpoint matcher (input : string) (r : regex) (k : cont) (pos : nat)
    (s : string) (caps : captures) : option captures :=
  match r with
  | Atom a =>
      match s with
      | String c s' => if atom_ok a c then k (S pos) s' caps else None
      | EmptyString => None
      end
  | Bol => if Nat.eqb pos 0 then k pos s caps else None
  | Eol =>
      match s with
      | EmptyString => k pos s caps
      | String _ _ => None
      end
  | Seq r1 r2 => matcher input r1 (matcher input r2 k) pos s caps
  | Alt r1 r2 =>
      orelse (matcher input r1 k pos s caps)
        (fun _ => matcher input r2 k pos s caps)
  | Cap n r =>
      matcher input r
        (fun pos' s' caps' =>
           k pos' s' ((n, substring pos (pos' - pos) input) :: caps'))
        pos s caps
  | Star true a => star_greedy a k pos s caps
  | Star false a => star_lazy a k pos s caps
  | Upto n r =>
      (fix upto (n : nat) (pos : nat) (s : string) (caps : captures) :=
         match n with
         | O => k pos s caps
         | S n' =>
             orelse
               (matcher input r
                  (fun pos' s' caps' =>
                     if Nat.eqb pos' pos then None else upto n' pos' s' caps')
                  pos s caps)
               (fun _ => k pos s caps)
         end) n pos s caps
  end.

(** [RegExp.prototype.exec] without flags: the leftmost start position
    at which the pattern matches. *)
Fixpoint exec_from (input : string) (r : regex) (pos : nat) (s : string)
    : option captures :=
  orelse
    (matcher input r
       (fun pos' _ caps => Some ((0, substring pos (pos' - pos) input) :: caps))
       pos s [])
    (fun _ =>
       match s with
       | String _ s' => exec_from input r (S pos) s'
       | EmptyString => None
       end).

Definition exec (r : regex) (input : string) : option captures :=
  exec_from input r 0 input.

Fixpoint lit (s : string) : regex -> regex :=
  match s with
  | EmptyString => fun r => r
  | String c s' => fun r => Seq (Atom (Chr c)) (lit s' r)
  end.

(** [.+] *)
Definition dot_plus : regex := Seq (Atom Dot) (Star true Dot).

(** [(?: <.+>)] and [(?: \(.+\))] *)
Definition angle : regex := lit " <" (Seq dot_plus (Atom (Chr ">"))).
Definition paren : regex := lit " (" (Seq dot_plus (Atom (Chr ")"))).

(** [/^.*?((?: <.+>)?)(?: \(.+\))?$/] *)
Definition re_email : regex :=
  Seq Bol (Seq (Star false Dot)
    (Seq (Cap 1 (Upto 1 angle)) (Seq (Upto 1 paren) Eol))).

(** [/^.*?((?: \(.+\))?)(?: <.+>)?$/] *)
Definition re_url : regex :=
  Seq Bol (Seq (Star false Dot)
    (Seq (Cap 1 (Upto 1 paren)) (Seq (Upto 1 angle) Eol))).

(** [/^(.*?)(?:(?: \(.+\))|(?: <.+>)){0,2}$/] *)
Definition re_name : regex :=
  Seq Bol (Seq (Cap 1 (Star false Dot))
    (Seq (Upto 2 (Alt paren angle)) Eol)).

End RegExp.
Import RegExp.

(** ** Author normalisation ([transformAuthors]) *)

(** [name.match(re)[1]]: calling [match] on anything but a string
    throws, and so does indexing a failed match ([null]). *)
Definition match_group1 (name : jsval) (re : regex) : result jsval :=
  match name with
  | JStr s =>
      match exec re s with
      | Some caps => Ok (get_cap 1 caps)
      | None => Throw TypeError
      end
  | _ => Throw TypeError
  end.

(** [g.slice(2).slice(0, -1)] *)
Definition strip_brackets (g : jsval) : result jsval :=
  match g with
  | JStr s => Ok (JStr (slice (slice s 2 None) 0 (Some (-1)%Z)))
  | _ => Throw TypeError
  end.

(** The [for (let key in data)] loop that deletes the falsy fields. *)
Definition clean (data : fields) : fields :=
  fold_left
    (fun d key => if truthy (obj_get d key) then d else obj_delete d key)
    (map fst data) data.

(** The callback of [map] in [transformAuthors]; the author is truthy. *)
Definition transformAuthor (author : jsval) : result jsval :=
  rbind (match author with
         | JStr _ => Ok author
         | _ => prop author "name"
         end) (fun name =>
  rbind (prop author "email") (fun own_email =>
  rbind (if truthy own_email then Ok own_email
         else rbind (match_group1 name re_email) strip_brackets) (fun email =>
  rbind (prop author "url") (fun own_url =>
  rbind (if truthy own_url then Ok own_url
         else rbind (prop author "homepage") (fun homepage =>
              if truthy homepage then Ok homepage
              else rbind (match_group1 name re_url) strip_brackets)) (fun url =>
  rbind (match_group1 name re_name) (fun name' =>
  Ok (JObj (clean [("name", name'); ("email", email); ("url", url)])))))))).

Fixpoint map_result {A B} (f : A -> result B) (l : list A) : result (list B) :=
  match l with
  | [] => Ok []
  | x :: l' =>
      rbind (f x) (fun y => rbind (map_result f l') (fun ys => Ok (y :: ys)))
  end.

Definition is_undefined (v : jsval) : bool :=
  match v with
  | JUndef => true
  | _ => false
  end.

Definition transformAuthors (authors : list jsval) : result (list jsval) :=
  map_result transformAuthor (filter truthy authors).

(** ** The host: Node's libraries, the remote services, the configuration *)

(** What [octokit.createPullRequest] receives. *)
Record pull_request : Type := {
  pr_owner : string;
  pr_repo : string;
  pr_title : string;
  pr_body : string;
  pr_head : string;
  pr_files : list (string * string);
  pr_commit : string
}.

Record Host : Type := {
  (** [__dirname] *)
  dirname : string;
  (** [path.join] and [path.resolve] on strings *)
  join : list string -> string;
  resolve : string -> string;
  (** [fs.lstat(p).then(stat => stat.isFile())], [fs.readFile(p, 'utf8')],
      [fs.readdir(p)], [fs.readdir(p, { withFileTypes: true })] (each
      entry with its [isDirectory()]), [fs.rmdir(p, { recursive: true })] *)
  lstat_isFile : string -> result bool;
  readFile : string -> result string;
  readdir : string -> result (list string);
  readdir_types : string -> result (list (string * bool));
  rmdir : string -> result unit;
  (** [glob.sync(pattern, { cwd, nodir: true })]; [None] is an
      [undefined] pattern *)
  glob : option string -> string -> result (list string);
  (** [fetch(url)] followed by [.json()] *)
  fetch_json : string -> result jsval;
  (** [download({ url, dir })] *)
  download : jsval -> string -> result unit;
  (** [JSON.stringify(v, null, 2)], [JSON.parse], [Number] on a string *)
  JSON_stringify : jsval -> string;
  JSON_parse : string -> result jsval;
  Number : string -> jsval;
  (** [gitUrlParse] and the Octokit calls, by owner and repository *)
  gitUrlParse : string -> result jsval;
  listTags : jsval -> jsval -> result jsval;
  repos_get : jsval -> jsval -> result jsval;
  getAllTopics : jsval -> jsval -> result jsval;
  createPullRequest : pull_request -> result jsval;
  (** [config.js] *)
  targetRepoOwner : string;
  targetRepoName : string;
  branchBase : string
}.

(** ** Effects *)

Inductive event : Type :=
| Question (text : string)
| Log (text : string)
| Error (text : string)
| ErrorCaught (e : exn) (members : list string)
| Download (url : jsval) (dir : string)
| Rmdir (dir : string)
| PullRequest (request : pull_request).

Definition trace := list event.

(** Code that does not read the maintainer's answers. *)
Definition eff (A : Type) : Type := trace -> result A * trace.

(** Code that does: the answers still to come and the trace so far. *)
Inductive outcome (A : Type) : Type :=
| Done (a : A) (ins : list string) (tr : trace)
| Failed (e : exn) (tr : trace)
| Waiting (tr : trace).
Arguments Done {A} a ins tr.
Arguments Failed {A} e tr.
Arguments Waiting {A} tr.

Definition prog (A : Type) : Type := list string -> trace -> outcome A.

Module Eff.

Definition ret {A} (a : A) : eff A := fun tr => (Ok a, tr).

Definition bind {A B} (m : eff A) (f : A -> eff B) : eff B :=
  fun tr =>
    match m tr with
    | (Ok a, tr') => f a tr'
    | (Throw e, tr') => (Throw e, tr')
    end.

Definition pure {A} (r : result A) : eff A := fun tr => (r, tr).

Definition emit (e : event) : eff unit := fun tr => (Ok tt, (tr ++ [e])%list).

(** [try { body } catch (e) { handler }] *)
Definition try_catch {A} (body : eff A) (handler : exn -> eff A) : eff A :=
  fun tr =>
    match body tr with
    | (Ok a, tr') => (Ok a, tr')
    | (Throw e, tr') => handler e tr'
    end.

End Eff.

Module Prog.

Definition ret {A} (a : A) : prog A := fun ins tr => Done a ins tr.

Definition bind {A B} (m : prog A) (f : A -> prog B) : prog B :=
  fun ins tr =>
    match m ins tr with
    | Done a ins' tr' => f a ins' tr'
    | Failed e tr' => Failed e tr'
    | Waiting tr' => Waiting tr'
    end.

Definition run {A} (m : eff A) : prog A :=
  fun ins tr =>
    match m tr with
    | (Ok a, tr') => Done a ins tr'
    | (Throw e, tr') => Failed e tr'
    end.

Definition pure {A} (r : result A) : prog A := run (Eff.pure r).

End Prog.

Declare Scope eff_scope.
Delimit Scope eff_scope with eff.
Notation "x <- m ;; k" := (Eff.bind m (fun x => k))
  (at level 61, m at next level, right associativity) : eff_scope.
Notation "m ;; k" := (Eff.bind m (fun _ => k))
  (at level 61, right associativity) : eff_scope.

Declare Scope prog_scope.
Delimit Scope prog_scope with prog.
Notation "x <- m ;; k" := (Prog.bind m (fun x => k))
  (at level 61, m at next level, right associativity) : prog_scope.
Notation "m ;; k" := (Prog.bind m (fun _ => k))
  (at level 61, right associativity) : prog_scope.

Definition log (text : string) : eff unit := Eff.emit (Log text).
Definition error (text : string) : eff unit := Eff.emit (Error text).

(** [console.error] of the named members of a caught error. *)
Definition error_caught (e : exn) (members : list string) : eff unit :=
  Eff.emit (ErrorCaught e members).

(** [input]: ask the question and wait for the answer. *)
Definition input (question : string) : prog string :=
  fun ins tr =>
    match ins with
    | [] => Waiting (tr ++ [Question question])%list
    | answer :: ins' => Done answer ins' (tr ++ [Question question])%list
    end.

(** [fileMapItem] *)
Record fileMapItem : Type := {
  basePath : string;
  files : list string
}.

Definition fileMapItem_to_js (m : fileMapItem) : jsval :=
  JObj [("basePath", JStr (basePath m));
        ("files", JArr (map JStr (files m)))].

Definition fileMap_to_js (fileMap : list fileMapItem) : jsval :=
  JArr (map fileMapItem_to_js fileMap).

(** A method of [String.prototype] called on a value: anything but a
    string has no such method. *)
Definition as_string (v : jsval) : result string :=
  match v with
  | JStr s => Ok s
  | _ => Throw TypeError
  end.

Fixpoint all_strings (l : list jsval) : result (list string) :=
  match l with
  | [] => Ok []
  | v :: l' =>
      rbind (as_string v) (fun s =>
      rbind (all_strings l') (fun ss => Ok (s :: ss)))
  end.

Section Program.

Variable host : Host.

(** [join] applied to values: [path.join] throws on an argument that is
    not a string. *)
Definition path_join (args : list jsval) : result string :=
  rbind (all_strings args) (fun ss => Ok (join host ss)).

(** *** [explore] *)

Definition explore_question : string :=
  "Path to explore in package (blank to end): ".

(** The [try] block of [explore] and its handler. *)
Definition explore_list (path pathInput : string) : eff unit :=
  Eff.try_catch
    (isFile <- Eff.pure (lstat_isFile host (join host [path; pathInput])) ;;
     if (isFile : bool)
     then (content <- Eff.pure (readFile host (join host [path; pathInput])) ;;
           log content)
     else (names <- Eff.pure (readdir host (join host [path; pathInput])) ;;
           log (join_with tab names)))%eff
    (fun e => error_caught e ["message"]).

Fixpoint explore (path : string) (ins : list string) (tr : trace)
    : outcome unit :=
  match ins with
  | [] => Waiting (tr ++ [Question explore_question])%list
  | pathInput :: ins' =>
      if pathInput =? ""
      then Done tt ins' (tr ++ [Question explore_question])%list
      else explore path ins'
             (snd (explore_list path pathInput
                     (tr ++ [Question explore_question])%list))
  end.

(** *** [globExplore] *)

Definition globExplore_question : string :=
  "Glob to test in package [<basePath> <globPattern>] (blank to end): ".

(** The [try] block of [globExplore] and its handler. *)
Definition globExplore_test (path globInput : string) : eff unit :=
  Eff.try_catch
    (let parts := split globInput " " 2 in
     let basePath := nth_error parts 0 in
     let globPattern := nth_error parts 1 in
     cwd <- Eff.pure (match basePath with
                      | Some b => Ok (join host [path; b])
                      | None => Throw TypeError
                      end) ;;
     found <- Eff.pure (glob host globPattern cwd) ;;
     log (join_with tab found))%eff
    (fun e => error_caught e ["message"]).

Fixpoint globExplore (path : string) (ins : list string) (tr : trace)
    : outcome unit :=
  match ins with
  | [] => Waiting (tr ++ [Question globExplore_question])%list
  | globInput :: ins' =>
      if globInput =? ""
      then Done tt ins' (tr ++ [Question globExplore_question])%list
      else globExplore path ins'
             (snd (globExplore_test path globInput
                     (tr ++ [Question globExplore_question])%list))
  end.

(** *** [allFileMapFiles] *)

(** One turn of the inner loop: [files.push(...glob(...))] inside
    [try], with the empty [catch]. *)
Definition push_matches (path : string) (map : fileMapItem)
    (acc : list string) (file : string) : list string :=
  match glob host (Some file) (join host [path; basePath map]) with
  | Ok found => (acc ++ found)%list
  | Throw _ => acc
  end.

Definition allFileMapFiles (path : string) (fileMap : list fileMapItem)
    : list string :=
  fold_left
    (fun acc map => fold_left (push_matches path map) (files map) acc)
    fileMap [].

(** *** [createPR] *)

(** [packages/${name.slice(0, 1).toLowerCase()}/${name}.json] *)
Definition package_file (name : string) : string :=
  "packages/" ++ toLowerCase (slice name 0 (Some 1%Z)) ++ "/" ++ name ++ ".json".

Definition createPR (data : fields) (body : string) : eff jsval :=
  (source <- Eff.pure (prop (obj_get data "autoupdate") "source") ;;
   let name := "Add " ++ ToString (obj_get data "name") ++ " w/ "
               ++ ToString source ++ " auto-update" in
   first <- Eff.pure (as_string (obj_get data "name")) ;;
   let files :=
     [(package_file first, JSON_stringify host (JObj data) ++ nl)] in
   target <- Eff.pure (prop (obj_get data "autoupdate") "target") ;;
   let request :=
     {| pr_owner := targetRepoOwner host;
        pr_repo := targetRepoName host;
        pr_title := name;
        pr_body := "Adding " ++ ToString (obj_get data "name") ++ " using "
                   ++ ToString source ++ " auto-update from "
                   ++ ToString target ++ "."
                   ++ (if String.length body =? 0 then "" else nl ++ nl)%nat
                   ++ body;
        pr_head := branchBase host ++ ToString (obj_get data "name");
        pr_files := files;
        pr_commit := name |} in
   Eff.emit (PullRequest request) ;;
   Eff.pure (createPullRequest host request))%eff.

(** *** [updateChoice] *)

Definition updateChoice_question : string :=
  "1) Auto-update via NPM package" ++ nl
  ++ "2) Auto-update via tagged GitHub repo" ++ nl
  ++ "Auto-update method to use (1 or 2): ".

(** [[1, 2].includes(cleaned)] *)
Definition is_1_or_2 (cleaned : jsval) : bool :=
  match cleaned with
  | JNum n => (n =? 1)%Z || (n =? 2)%Z
  | _ => false
  end.

Fixpoint updateChoice (ins : list string) (tr : trace) : outcome jsval :=
  match ins with
  | [] => Waiting (tr ++ [Question updateChoice_question])%list
  | choice :: ins' =>
      let cleaned := Number host (trim choice) in
      if is_1_or_2 cleaned
      then Done cleaned ins' (tr ++ [Question updateChoice_question])%list
      else updateChoice ins'
             (tr ++ [Question updateChoice_question;
                     Error "Please select either '1' or '2' for auto-update."])%list
  end.

(** *** [exploreAndGlob] *)

Definition basePath_question : string :=
  "Base path to use in file map (blank to end): ".

Definition pattern_question (basePath : string) : string :=
  "Glob pattern to get from base path " ++ basePath ++ " (blank to end): ".

Definition no_fileMap_message : string :=
  "At least one file map is required for a library to auto-update".

Definition no_pattern_message : string :=
  "At least one glob pattern is required for a base path in the file map".

(** The inner [while (true)] that collects the patterns of one base
    path; [k] is the code after the loop, reached by [break]. *)
Definition patternLoop {A} (basePath : string)
    (k : list string -> prog A) : list string -> prog A :=
  fix loop (patterns : list string) (ins : list string) (tr : trace)
      : outcome A :=
    match ins with
    | [] => Waiting (tr ++ [Question (pattern_question basePath)])%list
    | globInput :: ins' =>
        if globInput =? ""
        then match patterns with
             | [] =>
                 loop patterns ins'
                   (tr ++ [Question (pattern_question basePath);
                           Error no_pattern_message])%list
             | _ :: _ =>
                 k patterns ins'
                   (tr ++ [Question (pattern_question basePath)])%list
             end
        else loop (patterns ++ [globInput])%list ins'
               (tr ++ [Question (pattern_question basePath)])%list
    end.

(** The item pushed on [fileMap] after the inner loop. *)
Definition stored_item (basePath : string) (patterns : list string)
    : fileMapItem :=
  {| basePath := if resolve host basePath =? resolve host (dirname host)
                 then "" else basePath;
     files := patterns |}.

(** The outer [while (true)]. *)
Fixpoint fileMapLoop (fileMap : list fileMapItem) (ins : list string)
    (tr : trace) : outcome (list fileMapItem) :=
  match ins with
  | [] => Waiting (tr ++ [Question basePath_question])%list
  | basePath :: ins' =>
      if basePath =? ""
      then match fileMap with
           | [] =>
               fileMapLoop fileMap ins'
                 (tr ++ [Question basePath_question;
                         Error no_fileMap_message])%list
           | _ :: _ => Done fileMap ins' (tr ++ [Question basePath_question])%list
           end
      else patternLoop basePath
             (fun patterns ins'' tr'' =>
                fileMapLoop (fileMap ++ [stored_item basePath patterns])%list
                  ins'' tr'')
             [] ins' (tr ++ [Question basePath_question])%list
  end.

Definition exploreAndGlob (path : string) : prog (list fileMapItem) :=
  (explore path ;;
   globExplore path ;;
   Prog.run (log (nl ++ "File map(s) to use for auto-updating library...")) ;;
   fileMapLoop [])%prog.

(** *** [chooseDefault] and [getFirstDirectory] *)

Definition chooseDefault (path : string) (fileMap : list fileMapItem)
    (version : jsval) : prog string :=
  (let allFiles := allFileMapFiles path fileMap in
   Prog.run (log (nl ++ "Files matching file map in " ++ ToString version
                  ++ ":" ++ nl ++ join_with tab allFiles)) ;;
   input "Default file to highlight for usage (blank to skip): ")%prog.

Definition getFirstDirectory (path : string) : result jsval :=
  rbind (readdir_types host path) (fun entries =>
  Ok (match map fst (filter snd entries) with
      | [] => JUndef
      | name :: _ => JStr name
      end)).

(** *** [npm] *)

(** The fields of the record that [npm] fills from the registry, each
    with the default it gets when the registry has none. *)
Definition basic_fields : list (string * jsval) :=
  [("description", JStr ""); ("keywords", JArr []); ("license", JStr "");
   ("homepage", JStr ""); ("repository", JObj [])].

Definition npm_question (cdnjsData : fields) : string :=
  nl ++ "NPM package name (blank for "
  ++ ToString (obj_get cdnjsData "name") ++ "): ".

(** [https://registry.npmjs.com/${npmName}], with [npmName] the trimmed
    answer or, when that is blank, the name of the library. *)
Definition registry_url (cdnjsData : fields) (answer : string) : string :=
  "https://registry.npmjs.com/"
  ++ ToString (js_or (JStr (trim answer)) (obj_get cdnjsData "name")).

(** [cdnjsData.description = jsonFullData.description || ''] and the
    four assignments after it. *)
Definition store_basic_info (cdnjsData jsonFullData : fields) : fields :=
  let d1 := obj_set cdnjsData "description"
              (js_or (obj_get jsonFullData "description") (JStr "")) in
  let d2 := obj_set d1 "keywords"
              (js_or (obj_get jsonFullData "keywords") (JArr [])) in
  let d3 := obj_set d2 "license"
              (js_or (obj_get jsonFullData "license") (JStr "")) in
  let d4 := obj_set d3 "homepage"
              (js_or (obj_get jsonFullData "homepage") (JStr "")) in
  obj_set d4 "repository"
    (js_or (obj_get jsonFullData "repository") (JObj [])).

(** [[jsonFullData.author, ...(Array.isArray(jsonFullData.authors)
    ? jsonFullData.authors : [jsonFullData.authors])]] *)
Definition npm_raw_authors (jsonFullData : fields) : list jsval :=
  obj_get jsonFullData "author"
  :: match obj_get jsonFullData "authors" with
     | JArr l => l
     | other => [other]
     end.

Definition npm (cdnjsData : fields) : prog (option fields) :=
  (answer <- input (npm_question cdnjsData) ;;
   jsonData <- Prog.pure (fetch_json host (registry_url cdnjsData answer)) ;;
   registry_error <- Prog.pure (prop jsonData "error") ;;
   if truthy registry_error
   then (Prog.run (error (ToString registry_error)) ;; Prog.ret None)
   else
     versions <- Prog.pure (prop jsonData "versions") ;;
     dist_tags <- Prog.pure (prop jsonData "dist-tags") ;;
     latest <- Prog.pure (prop dist_tags "latest") ;;
     jsonVersionData <- Prog.pure (prop versions (ToString latest)) ;;
     name <- Prog.pure (prop jsonData "name") ;;
     Prog.run (log ("Located " ++ ToString name ++ "@" ++ ToString latest
                    ++ "...")) ;;
     let jsonFullData := spread2 jsonVersionData jsonData in
     let data1 := store_basic_info cdnjsData jsonFullData in
     authors <- Prog.pure (transformAuthors (npm_raw_authors jsonFullData)) ;;
     let data2 := obj_set data1 "authors" (JArr authors) in
     tarPath <- Prog.pure (path_join [JStr (dirname host); JStr "temp";
                                      name; latest]) ;;
     dist <- Prog.pure (prop jsonVersionData "dist") ;;
     tarball <- Prog.pure (prop dist "tarball") ;;
     Prog.run (Eff.emit (Download tarball tarPath) ;;
               Eff.try_catch (Eff.pure (download host tarball tarPath))
                 (fun e => error_caught e ["message"; "stack"]))%eff ;;
     first <- Prog.pure (getFirstDirectory tarPath) ;;
     fullPath <- Prog.pure (path_join [JStr tarPath; first]) ;;
     Prog.run (log ("Downloaded " ++ ToString name ++ "@" ++ ToString latest
                    ++ "..." ++ nl)) ;;
     fileMap <- exploreAndGlob fullPath ;;
     let data3 := obj_set data2 "autoupdate"
                    (JObj [("source", JStr "npm"); ("target", name);
                           ("fileMap", fileMap_to_js fileMap)]) in
     defaultFile <- chooseDefault fullPath fileMap latest ;;
     let data4 := if defaultFile =? "" then data3
                  else obj_set data3 "filename" (JStr defaultFile) in
     Prog.run (Eff.emit (Rmdir tarPath) ;;
               Eff.pure (rmdir host tarPath))%eff ;;
     Prog.ret (Some data4))%prog.

(** *** [githubRepo] and [github] *)

(** [a && f(a)] *)
Definition js_and (a : jsval) (f : jsval -> result jsval) : result jsval :=
  if truthy a then f a else Ok a.

(** The body of the [try] in [githubRepo]: the owner and the name, or
    nothing when the input is not a GitHub.com repository. *)
Definition parse_repo (repoInput : string) : result (option (jsval * jsval)) :=
  rbind (gitUrlParse host repoInput) (fun parsedRepo =>
  rbind (prop parsedRepo "source") (fun source =>
  if is_string source "github.com"
  then rbind (prop parsedRepo "owner") (fun owner =>
       if truthy owner
       then rbind (prop parsedRepo "name") (fun name =>
            Ok (if truthy name then Some (owner, name) else None))
       else Ok None)
  else Ok None)).

Fixpoint githubRepo (ins : list string) (tr : trace)
    : outcome (jsval * jsval) :=
  match ins with
  | [] => Waiting (tr ++ [Question (nl ++ "GitHub repository URL: ")])%list
  | repoInput :: ins' =>
      match parse_repo repoInput with
      | Ok (Some repo) =>
          Done repo ins' (tr ++ [Question (nl ++ "GitHub repository URL: ")])%list
      | Ok None =>
          githubRepo ins'
            (tr ++ [Question (nl ++ "GitHub repository URL: ");
                    Error "Could not parse a valid GitHub.com repo from given input."])%list
      | Throw _ =>
          githubRepo ins' (tr ++ [Question (nl ++ "GitHub repository URL: ")])%list
      end
  end.

(** The manifest: [package.json], else [bower.json], else [undefined]. *)
Definition read_manifest (fullPath : string) : jsval :=
  match rbind (readFile host (join host [fullPath; "package.json"]))
          (JSON_parse host) with
  | Ok jsonFile => jsonFile
  | Throw _ =>
      match rbind (readFile host (join host [fullPath; "bower.json"]))
              (JSON_parse host) with
      | Ok jsonFile => jsonFile
      | Throw _ => JUndef
      end
  end.

(** [...v] in an array literal. *)
Definition iterate (v : jsval) : result (list jsval) :=
  match v with
  | JArr l => Ok l
  | JStr s => Ok (chars s)
  | _ => Throw TypeError
  end.

Definition no_tags_message (repoOwner repoName : jsval) : string :=
  "No tags found in repository https://github.com/"
  ++ ToString repoOwner ++ "/" ++ ToString repoName.

Definition github (cdnjsData : fields) : prog (option fields) :=
  (repo <- githubRepo ;;
   let repoOwner := fst repo in
   let repoName := snd repo in
   let slug := ToString repoOwner ++ "/" ++ ToString repoName in
   repoTags <- Prog.pure (listTags host repoOwner repoName) ;;
   tags <- Prog.pure (prop repoTags "data") ;;
   count <- Prog.pure (if truthy tags then prop tags "length" else Ok JUndef) ;;
   if negb (truthy tags) || negb (truthy count)
   then (Prog.run (error (no_tags_message repoOwner repoName)) ;;
         Prog.ret None)
   else
     repoData <- Prog.pure (repos_get host repoOwner repoName) ;;
     repoTopics <- Prog.pure (getAllTopics host repoOwner repoName) ;;
     description <- Prog.pure
       (js_and repoData (fun r => rbind (prop r "data") (fun d =>
        js_and d (fun d => prop d "description")))) ;;
     keywords <- Prog.pure
       (js_and repoTopics (fun r => rbind (prop r "data") (fun d =>
        js_and d (fun d => prop d "names")))) ;;
     license <- Prog.pure
       (js_and repoData (fun r => rbind (prop r "data") (fun d =>
        js_and d (fun d => rbind (prop d "license") (fun l =>
        js_and l (fun l => prop l "spdx_id")))))) ;;
     homepage <- Prog.pure
       (js_and repoData (fun r => rbind (prop r "data") (fun d =>
        js_and d (fun d => prop d "homepage")))) ;;
     let data1 :=
       obj_set (obj_set (obj_set (obj_set (obj_set (obj_set cdnjsData
         "description" description)
         "keywords" keywords)
         "author" repoOwner)
         "license" license)
         "homepage" (js_or homepage (JStr ("https://github.com/" ++ slug))))
         "repository" (JObj [("type", JStr "git");
                             ("url", JStr ("git://github.com/" ++ slug ++ ".git"))]) in
     tag <- Prog.pure (prop tags "0") ;;
     tagName <- Prog.pure (prop tag "name") ;;
     Prog.run (log ("Located " ++ slug ++ "@" ++ ToString tagName ++ "...")) ;;
     tarPath <- Prog.pure (path_join [JStr (dirname host); JStr "temp";
                                      repoOwner; repoName; tagName]) ;;
     tarball <- Prog.pure (prop tag "tarball_url") ;;
     Prog.run (Eff.emit (Download tarball tarPath) ;;
               Eff.pure (download host tarball tarPath))%eff ;;
     first <- Prog.pure (getFirstDirectory tarPath) ;;
     fullPath <- Prog.pure (path_join [JStr tarPath; first]) ;;
     Prog.run (log ("Downloaded " ++ slug ++ "@" ++ ToString tagName ++ "..."
                    ++ nl)) ;;
     let jsonFile := read_manifest fullPath in
     manifest <- Prog.pure
       (if truthy jsonFile
        then rbind (prop jsonFile "description") (fun d =>
             rbind (prop jsonFile "keywords") (fun k =>
             rbind (prop jsonFile "author") (fun a =>
             rbind (prop jsonFile "license") (fun l =>
             rbind (prop jsonFile "homepage") (fun h =>
             Ok (obj_set (obj_set (obj_set (obj_set (obj_set data1
                   "description" (js_or d (obj_get data1 "description")))
                   "keywords" (js_or k (obj_get data1 "keywords")))
                   "author" (js_or a (obj_get data1 "author")))
                   "license" (js_or l (obj_get data1 "license")))
                   "homepage" (js_or h (obj_get data1 "homepage"))))))))
        else Ok data1) ;;
     more <- Prog.pure
       (rbind (js_and jsonFile (fun j => prop j "authors")) (fun a =>
        iterate (js_or a (JArr [])))) ;;
     authors <- Prog.pure
       (transformAuthors (obj_get manifest "author" :: more)) ;;
     let data2 := obj_delete (obj_set manifest "authors" (JArr authors))
                    "author" in
     fileMap <- exploreAndGlob fullPath ;;
     let data3 := obj_set data2 "autoupdate"
                    (JObj [("source", JStr "git");
                           ("target", JStr ("git://github.com/" ++ slug ++ ".git"));
                           ("fileMap", fileMap_to_js fileMap)]) in
     defaultFile <- chooseDefault fullPath fileMap tagName ;;
     let data4 := if defaultFile =? "" then data3
                  else obj_set data3 "filename" (JStr defaultFile) in
     Prog.run (Eff.emit (Rmdir tarPath) ;;
               Eff.pure (rmdir host tarPath))%eff ;;
     Prog.ret (Some data4))%prog.

(** *** [main] *)

Definition attempt_message : string :=
  nl ++ nl ++ "Attempting to automatically create PR...".

Definition failure_message : string :=
  nl ++ nl ++ "Failed to create automatic PR".

Definition fallback_heading : string :=
  nl ++ nl ++ "Create new file on cdnjs/packages: ".

(** [resolves ? `Resolves ${resolves}.` : ''] *)
Definition resolves_text (resolves : string) : string :=
  if resolves =? "" then "" else "Resolves " ++ resolves ++ ".".

(** The [// Output] block of [main]: the pull request, and the printed
    record when it fails. *)
Definition output (cdnjsData : fields) (resolves : string) : eff unit :=
  Eff.try_catch
    (log attempt_message ;;
     pr <- createPR cdnjsData (resolves_text resolves) ;;
     data <- Eff.pure (prop pr "data") ;;
     html_url <- Eff.pure (prop data "html_url") ;;
     log (nl ++ nl ++ "Created automatic PR: " ++ ToString html_url))%eff
    (fun e =>
       error failure_message ;;
       error_caught e [] ;;
       error_caught e ["message"] ;;
       error_caught e ["status"] ;;
       name <- Eff.pure (as_string (obj_get cdnjsData "name")) ;;
       log (fallback_heading
            ++ "packages/" ++ toLowerCase (slice name 0 (Some 1%Z)) ++ "/"
            ++ name ++ ".json") ;;
       log (JSON_stringify host (JObj cdnjsData)))%eff.

Definition usage : string := "Usage: node index.js <cdnjsLibraryName>".

Definition main (argv : list string) : prog unit :=
  match nth_error argv 2 with
  | None | Some "" => Prog.run (error usage)
  | Some rawName =>
      (updateMethod <- updateChoice ;;
       cdnjsData <- match updateMethod with
                    | JNum 1 => npm [("name", JStr rawName)]
                    | JNum 2 => github [("name", JStr rawName)]
                    | _ => Prog.ret None
                    end ;;
       match cdnjsData with
       | None => Prog.ret tt
       | Some data =>
           resolves <- input "Issue this PR resolves (blank to skip): " ;;
           Prog.run (output data resolves)
       end)%prog
  end.

End Program.

(** The inner loop run on its own, returning the patterns at [break]. *)
Definition patterns_of (entered : string) : list string -> prog (list string) :=
  patternLoop entered Prog.ret.

Definition every_item_has_patterns (fileMap : list fileMapItem) : Prop :=
  Forall (fun item => files item <> []) fileMap.

(** What one pattern of one item contributes to [allFileMapFiles]: the
    files [glob] finds, or nothing when it throws. *)
Definition matches_of (host : Host) (path base file : string) : list string :=
  match glob host (Some file) (join host [path; base]) with
  | Ok found => found
  | Throw _ => []
  end.

(** The concatenation, in declaration order, of what every pattern of
    every item contributes. *)
Definition all_matches (host : Host) (path : string)
    (fileMap : list fileMapItem) : list string :=
  flat_map (fun map => flat_map (matches_of host path (basePath map)) (files map))
    fileMap.

(** A relative path that lies under the directory it is relative to:
    it does not start at the root, and no [..] of it climbs above the
    directory it started in. *)
Fixpoint stays_below (depth : nat) (segments : list string) : bool :=
  match segments with
  | [] => true
  | segment :: segments' =>
      if segment =? ".."
      then match depth with
           | O => false
           | S depth' => stays_below depth' segments'
           end
      else if (segment =? ".") || (segment =? "")
           then stays_below depth segments'
           else stays_below (S depth) segments'
  end.

Definition located_under_cwd (p : string) : bool :=
  match p with
  | String "/" _ => false
  | _ => stays_below 0 (split_char "/" p)
  end.

(** The matcher as the specification words it: every path returned
    lies under the root joined with the base path of its item. *)
Definition returns_paths_under_base_path (host : Host) (path : string)
    (fileMap : list fileMapItem) : Prop :=
  forall p, In p (allFileMapFiles host path fileMap) ->
            located_under_cwd p = true.



(** What the glob test prints for a base path and a pattern. *)
Definition glob_test_event (host : Host) (path base pattern : string) : event :=
  match glob host (Some pattern) (join host [path; base]) with
  | Ok found => Log (join_with tab found)
  | Throw e => ErrorCaught e ["message"]
  end.

(** The field [key] of the merged document, read as the program merges:
    the package-level document first, the version's where the package
    has no such property. *)
Definition package_over_version (package version : jsval) (key : string)
    : jsval :=
  if obj_has (own_properties package) key
  then obj_get (own_properties package) key
  else obj_get (own_properties version) key.

(** The same field read as the specification words it: the version's
    document first, the package-level one where the version has no such
    property. *)
Definition version_over_package (package version : jsval) (key : string)
    : jsval :=
  if obj_has (own_properties version) key
  then obj_get (own_properties version) key
  else obj_get (own_properties package) key.

Definition distinct_keys (v : jsval) : Prop :=
  NoDup (map fst (own_properties v)).

(** What one turn of [explore] prints for a path: the content of a
    file, the names in a directory, or the message of the error. *)
Definition explore_event (host : Host) (path pathInput : string) : event :=
  match lstat_isFile host (join host [path; pathInput]) with
  | Ok true =>
      match readFile host (join host [path; pathInput]) with
      | Ok content => Log content
      | Throw e => ErrorCaught e ["message"]
      end
  | Ok false =>
      match readdir host (join host [path; pathInput]) with
      | Ok names => Log (join_with tab names)
      | Throw e => ErrorCaught e ["message"]
      end
  | Throw e => ErrorCaught e ["message"]
  end.

(** What one turn of [globExplore] prints for a line. *)
Definition globExplore_event (host : Host) (path globInput : string) : event :=
  match split globInput " " 2 with
  | [] => ErrorCaught TypeError ["message"]
  | base :: rest =>
      match glob host (nth_error rest 0) (join host [path; base]) with
      | Ok found => Log (join_with tab found)
      | Throw e => ErrorCaught e ["message"]
      end
  end.

(** The turns of an explorer on a list of answers: each answer is asked
    for and answered by one event. *)
Definition turns (question : string) (event_of : string -> event)
    (answers : list string) : trace :=
  flat_map (fun answer => [Question question; event_of answer]) answers.

(** What the maintainer types at the builder to enter a group (a base
    path and its patterns), and what the builder asks meanwhile. *)
Definition group_answers (group : string * list string) : list string :=
  (fst group :: snd group ++ [""])%list.

Definition group_questions (group : string * list string) : trace :=
  Question basePath_question
  :: repeat (Question (pattern_question (fst group)))
       (S (List.length (snd group))).

Definition well_formed_group (group : string * list string) : Prop :=
  fst group <> "" /\ snd group <> [] /\ Forall (fun p => p <> "") (snd group).

(** An outcome other than a thrown error. *)
Definition never_fails {A} (o : outcome A) : Prop :=
  match o with
  | Failed _ _ => False
  | Done _ _ _ | Waiting _ => True
  end.

(** The events of the console: questions and printed lines. *)
Definition is_console (e : event) : bool :=
  match e with
  | Question _ | Log _ | Error _ | ErrorCaught _ _ => true
  | Download _ _ | Rmdir _ | PullRequest _ => false
  end.

(** [tr'] is [tr] followed by events of the console only. *)
Definition console_only_since (tr tr' : trace) : Prop :=
  exists added, tr' = (tr ++ added)%list /\ forallb is_console added = true.

(** What [npm] adds to the trace when it downloads: the call, and the
    caught error when the download fails. *)
Definition download_events (host : Host) (tarball : jsval) (tarPath : string)
    : trace :=
  Download tarball tarPath
  :: match download host tarball tarPath with
     | Ok _ => []
     | Throw e => [ErrorCaught e ["message"; "stack"]]
     end.

(** The [autoupdate] member of the two variants. *)
Definition npm_autoupdate (name : jsval) (fileMap : list fileMapItem) : jsval :=
  JObj [("source", JStr "npm"); ("target", name);
        ("fileMap", fileMap_to_js fileMap)].

Definition clone_url (repoOwner repoName : jsval) : string :=
  "git://github.com/" ++ (ToString repoOwner ++ "/" ++ ToString repoName)
  ++ ".git".

Definition git_autoupdate (repoOwner repoName : jsval)
    (fileMap : list fileMapItem) : jsval :=
  JObj [("source", JStr "git"); ("target", JStr (clone_url repoOwner repoName));
        ("fileMap", fileMap_to_js fileMap)].

(** The names of the members of a finished record, in order, without
    the optional [filename]. *)
Definition record_keys : list string :=
  ["name"; "description"; "keywords"; "license"; "homepage"; "repository";
   "authors"; "autoupdate"].

(** [v.k] for a value that is neither [undefined] nor [null]. *)
Definition member (v : jsval) (k : string) : jsval :=
  match prop v k with
  | Ok x => x
  | Throw _ => JUndef
  end.

(** [jsonFile.k || default] when there is a manifest, [default] when
    there is none. *)
Definition manifest_or (jsonFile : jsval) (key : string) (default : jsval)
    : jsval :=
  if truthy jsonFile then js_or (member jsonFile key) default else default.

(** An author as [transformAuthors] leaves it: an object whose members
    are all truthy. *)
Definition clean_author (author : jsval) : Prop :=
  exists data, author = JObj data
               /\ forall k v, In (k, v) data -> truthy v = true.

Definition created_message (html_url : jsval) : string :=
  nl ++ nl ++ "Created automatic PR: " ++ ToString html_url.

(** An answer made of white space only. *)
Definition all_space (s : string) : bool :=
  forallb is_space (list_ascii_of_string s).

(** What [github] stores from the repository itself. *)
Definition github_homepage (repoOwner repoName : jsval) : jsval :=
  JStr ("https://github.com/" ++ (ToString repoOwner ++ "/" ++ ToString repoName)).

Definition git_repository (repoOwner repoName : jsval) : jsval :=
  JObj [("type", JStr "git"); ("url", JStr (clone_url repoOwner repoName))].

Definition data_member (response : jsval) (key : string) : result jsval :=
  js_and response (fun r => rbind (prop r "data") (fun d =>
  js_and d (fun d => prop d key))).

Definition license_id (repoData : jsval) : result jsval :=
  js_and repoData (fun r => rbind (prop r "data") (fun d =>
  js_and d (fun d => rbind (prop d "license") (fun l =>
  js_and l (fun l => prop l "spdx_id"))))).

Definition manifest_authors (jsonFile : jsval) : result (list jsval) :=
  rbind (js_and jsonFile (fun j => prop j "authors")) (fun a =>
  iterate (js_or a (JArr []))).

(** *** Author strings

    The strings [name <email> (url)] that [transformAuthors] takes
    apart, and the vocabulary to follow the three patterns over them. *)

(** A character of a name, an e-mail address or a URL that the author
    patterns treat as ordinary: not a bracket and not a line break. *)
Definition plain_char (c : ascii) : bool :=
  negb (Ascii.eqb c "<" || Ascii.eqb c ">" || Ascii.eqb c "(" || Ascii.eqb c ")"
        || is_line_terminator c).

Fixpoint plain (s : string) : bool :=
  match s with
  | EmptyString => true
  | String c s' => plain_char c && plain s'
  end.

(** [ <email>] and [ (url)], or nothing. *)
Definition email_segment (email : option string) : string :=
  match email with
  | Some e => " <" ++ e ++ ">"
  | None => ""
  end.

Definition url_segment (url : option string) : string :=
  match url with
  | Some u => " (" ++ u ++ ")"
  | None => ""
  end.

(** [name <email> (url)] *)
Definition author_string (name : string) (email url : option string) : string :=
  name ++ email_segment email ++ url_segment url.

Definition plain_segment (segment : option string) : Prop :=
  match segment with
  | Some s => plain s = true /\ s <> ""
  | None => True
  end.

Definition optional_member (key : string) (value : option string) : fields :=
  match value with
  | Some s => [(key, JStr s)]
  | None => []
  end.

(** Does [s] begin with the two characters that open a segment? *)
Definition opens_segment (s : string) : bool :=
  match s with
  | String c1 (String c2 _) =>
      Ascii.eqb c1 " " && (Ascii.eqb c2 "<" || Ascii.eqb c2 "(")
  | _ => false
  end.

(** No suffix of [p ++ r] that begins within [p] opens a segment, and
    [p] holds no line break. *)
Fixpoint quiet (p r : string) : bool :=
  match p with
  | EmptyString => true
  | String c p' =>
      negb (opens_segment (p ++ r)) && negb (is_line_terminator c) && quiet p' r
  end.

(** Does [s] begin with a bracket that opens a segment? *)
Definition calm_start (s : string) : bool :=
  match s with
  | String c _ => negb (Ascii.eqb c "<" || Ascii.eqb c "(")
  | EmptyString => true
  end.

(** A continuation that fails wherever text goes on without opening a
    segment. *)
Definition idle (k : cont) : Prop :=
  forall pos s caps,
    s <> "" -> opens_segment s = false -> k pos s caps = None.

(** The continuation [exec] gives the matcher at start position 0. *)
Definition whole_match (input : string) : cont :=
  fun pos' _ caps => Some ((0, substring 0 (pos' - 0) input) :: caps).

(** The three author patterns after their leading [^.*?], as
    continuations of the lazy star. *)
Definition after_email (input : string) (pos : nat) : cont :=
  fun pos' s' caps' =>
    matcher input (Upto 1 paren) (matcher input Eol (whole_match input))
      pos' s' ((1, substring pos (pos' - pos) input) :: caps').

Definition email_rest (input : string) : cont :=
  fun pos s caps =>
    matcher input (Upto 1 angle) (after_email input pos) pos s caps.

Definition after_url (input : string) (pos : nat) : cont :=
  fun pos' s' caps' =>
    matcher input (Upto 1 angle) (matcher input Eol (whole_match input))
      pos' s' ((1, substring pos (pos' - pos) input) :: caps').

Definition url_rest (input : string) : cont :=
  fun pos s caps =>
    matcher input (Upto 1 paren) (after_url input pos) pos s caps.

Definition name_rest (input : string) : cont :=
  fun pos s caps =>
    matcher input (Upto 2 (Alt paren angle)) (matcher input Eol (whole_match input))
      pos s ((1, substring 0 (pos - 0) input) :: caps).

(** [name (url) <email>] *)
Definition reversed_author_string (name e u : string) : string :=
  name ++ url_segment (Some u) ++ email_segment (Some e).

(** Does [s] begin with a decimal digit, as every array index does? *)
Definition starts_with_digit (s : string) : bool :=
  match s with
  | String c _ => ((48 <=? nat_of_ascii c) && (nat_of_ascii c <=? 57))%nat
  | EmptyString => false
  end.

(** The text between the brackets of a segment. *)
Definition segment_text (segment : option string) : string :=
  match segment with
  | Some s => s
  | None => ""
  end.

(** A host whose downloads go as [d] says, all else being as in [host]. *)
Definition with_download (host : Host) (d : jsval -> string -> result unit)
    : Host :=
  {| dirname := dirname host;
     join := join host;
     resolve := resolve host;
     lstat_isFile := lstat_isFile host;
     readFile := readFile host;
     readdir := readdir host;
     readdir_types := readdir_types host;
     rmdir := rmdir host;
     glob := glob host;
     fetch_json := fetch_json host;
     download := d;
     JSON_stringify := JSON_stringify host;
     JSON_parse := JSON_parse host;
     Number := Number host;
     gitUrlParse := gitUrlParse host;
     listTags := listTags host;
     repos_get := repos_get host;
     getAllTopics := getAllTopics host;
     createPullRequest := createPullRequest host;
     targetRepoOwner := targetRepoOwner host;
     targetRepoName := targetRepoName host;
     branchBase := branchBase host |}.

(** An outcome with [tr] put before its trace. *)
Definition after_trace {A} (tr : trace) (o : outcome A) : outcome A :=
  match o with
  | Done a ins added => Done a ins (tr ++ added)%list
  | Failed e added => Failed e (tr ++ added)%list
  | Waiting added => Waiting (tr ++ added)%list
  end.

(** ** A sample host

    A small, fixed world on which the program can be run: the tool lives
    in [/opt/cdnjs-add-cli], the registry knows the package [left-pad],
    whose release 1.3.0 unpacks to a directory [package] with two
    scripts in [dist], one in [src] and a read-me.  The glob_in_tree pattern
    ["[unclosed"] is made to fail in it. *)

Module Sample.

Definition root : string := "/opt/cdnjs-add-cli".

(** Empty segments are ignored, as [path.join] does. *)
Definition join_posix (parts : list string) : string :=
  join_with "/" (filter (fun part => negb (part =? "")) parts).

Definition is_absolute (p : string) : bool :=
  match p with
  | String "/" _ => true
  | _ => false
  end.

Definition resolve_posix (p : string) : string :=
  if p =? "." then root
  else if is_absolute p then p
  else root ++ "/" ++ p.

Definition package_dir : string :=
  join_posix [root; "temp"; "left-pad"; "1.3.0"; "package"].

Definition tree : list string :=
  [join_posix [package_dir; "dist"; "a.js"];
   join_posix [package_dir; "dist"; "b.js"];
   join_posix [package_dir; "src"; "a.js"];
   join_posix [package_dir; "README.md"]].

Definition is_file (p : string) : bool :=
  existsb (String.eqb p) tree.

Fixpoint ends_with (suffix s : string) : bool :=
  (s =? suffix)
  || match s with
     | EmptyString => false
     | String _ s' => ends_with suffix s'
     end.

Definition matches (pattern p : string) : bool :=
  if pattern =? "*.js" then ends_with ".js" p
  else if pattern =? "a.*" then prefix "a." p
  else if pattern =? "*" then true
  else pattern =? p.

Definition candidates : list string := ["a.js"; "b.js"; "README.md"].

Definition glob_in_tree (pattern : option string) (cwd : string)
    : result (list string) :=
  match pattern with
  | None => Throw (Raised "must provide pattern")
  | Some g =>
      if g =? "[unclosed" then Throw (Raised "invalid pattern")
      else Ok (filter (fun p => is_file (join_posix [cwd; p]) && matches g p)
                 candidates)
  end.

Definition version_doc : jsval :=
  JObj [("name", JStr "left-pad");
        ("version", JStr "1.3.0");
        ("description", JStr "String left pad (1.3.0)");
        ("error", JStr "deprecated");
        ("author", JStr "azer");
        ("dist", JObj [("tarball", JStr "https://registry.npmjs.org/left-pad/-/left-pad-1.3.0.tgz")])].

Definition package_doc : jsval :=
  JObj [("name", JStr "left-pad");
        ("description", JStr "String left pad");
        ("dist-tags", JObj [("latest", JStr "1.3.0")]);
        ("versions", JObj [("1.3.0", version_doc)]);
        ("license", JStr "WTFPL")].

(** The same package as the registry would send it with an empty error
    member. *)
Definition package_doc_null_error : jsval :=
  JObj (("error", JNull) :: own_properties package_doc).

Definition fetch_registry (url : string) : result jsval :=
  if url =? "https://registry.npmjs.com/left-pad" then Ok package_doc
  else if url =? "https://registry.npmjs.com/left-pad-null"
       then Ok package_doc_null_error
  else Ok (JObj [("error", JStr "Not found")]).

Definition readdir_types_tree (p : string) : result (list (string * bool)) :=
  if p =? join_posix [root; "temp"; "left-pad"; "1.3.0"]
  then Ok [("package", true)]
  else Throw (Raised "ENOENT").

Definition readdir_tree (p : string) : result (list string) :=
  if p =? join_posix [package_dir; "dist"] then Ok ["a.js"; "b.js"]
  else Throw (Raised "ENOENT").

Definition dquote : string := String (ascii_of_nat 34) "".
Definition backslash : string := String (ascii_of_nat 92) "".

Definition hex_digit (n : nat) : string :=
  substring n 1 "0123456789abcdef".

Definition escape_char (c : ascii) : string :=
  let n := nat_of_ascii c in
  if (n =? 34)%nat then backslash ++ dquote
  else if (n =? 92)%nat then backslash ++ backslash
  else if (n =? 8)%nat then backslash ++ "b"
  else if (n =? 9)%nat then backslash ++ "t"
  else if (n =? 10)%nat then backslash ++ "n"
  else if (n =? 12)%nat then backslash ++ "f"
  else if (n =? 13)%nat then backslash ++ "r"
  else if (n <? 32)%nat
       then backslash ++ "u00" ++ hex_digit (n / 16) ++ hex_digit (n mod 16)
  else String c "".

Fixpoint escape (s : string) : string :=
  match s with
  | EmptyString => ""
  | String c s' => escape_char c ++ escape s'
  end.

Definition quote (s : string) : string := dquote ++ escape s ++ dquote.

(** [JSON.stringify(v, null, 2)] on the values of the model, at a given
    indentation. *)
Fixpoint stringify_at (indent : string) (v : jsval) : string :=
  let inner := indent ++ "  " in
  match v with
  | JUndef | JNull => "null"
  | JBool true => "true"
  | JBool false => "false"
  | JNum n => string_of_Z n
  | JStr s => quote s
  | JArr [] => "[]"
  | JArr l =>
      "[" ++ nl
      ++ (fix elements (l : list jsval) : string :=
            match l with
            | [] => ""
            | x :: l' =>
                inner ++ stringify_at inner x
                ++ match l' with
                   | [] => ""
                   | _ :: _ => "," ++ nl ++ elements l'
                   end
            end) l
      ++ nl ++ indent ++ "]"
  | JObj o =>
      match (fix members (o : list (string * jsval)) : list string :=
               match o with
               | [] => []
               | (_, JUndef) :: o' => members o'
               | (k, x) :: o' =>
                   (inner ++ quote k ++ ": " ++ stringify_at inner x)
                   :: members o'
               end) o with
      | [] => "{}"
      | lines =>
          "{" ++ nl ++ join_with ("," ++ nl) lines ++ nl ++ indent ++ "}"
      end
  end.

Definition stringify (v : jsval) : string := stringify_at "" v.

(** GitHub knows the repository [azer/empty], which has no tag. *)
Definition parse_url (url : string) : result jsval :=
  if url =? "https://github.com/azer/empty"
  then Ok (JObj [("source", JStr "github.com"); ("owner", JStr "azer");
                 ("name", JStr "empty")])
  else if url =? "https://gitlab.com/azer/empty"
       then Ok (JObj [("source", JStr "gitlab.com"); ("owner", JStr "azer");
                      ("name", JStr "empty")])
  else Throw (Raised "invalid url").

Definition tags_of (owner name : jsval) : result jsval :=
  match owner, name with
  | JStr "azer", JStr "empty" => Ok (JObj [("data", JArr [])])
  | _, _ => Throw (Raised "Not Found")
  end.

Definition number (s : string) : jsval :=
  if s =? "1" then JNum 1 else if s =? "2" then JNum 2 else JUndef.

(** The sample host; its pull requests succeed when [pr_ok] is true and
    fail otherwise. *)
Definition host (pr_ok : bool) : Host :=
  {| dirname := root;
     join := join_posix;
     resolve := resolve_posix;
     lstat_isFile := fun p => Ok (is_file p);
     readFile := fun p =>
       if is_file p then Ok ("contents of " ++ p) else Throw (Raised "ENOENT");
     readdir := readdir_tree;
     readdir_types := readdir_types_tree;
     rmdir := fun _ => Ok tt;
     glob := glob_in_tree;
     fetch_json := fetch_registry;
     download := fun _ _ => Ok tt;
     JSON_stringify := stringify;
     JSON_parse := fun _ => Throw (Raised "Unexpected token");
     Number := number;
     gitUrlParse := parse_url;
     listTags := tags_of;
     repos_get := fun _ _ => Throw (Raised "Not Found");
     getAllTopics := fun _ _ => Throw (Raised "Not Found");
     createPullRequest := fun _ =>
       if pr_ok
       then Ok (JObj [("data", JObj [("html_url",
                  JStr "https://github.com/cdnjs/packages/pull/1")])])
       else Throw (Raised "Bad credentials");
     targetRepoOwner := "cdnjs";
     targetRepoName := "packages";
     branchBase := "add-" |}.

(** A session of the registry variant on it: the maintainer keeps the
    name, skips both explorers, gives the base path [dist] with the one
    pattern [*.js], and picks no default file. *)
Definition answers : list string :=
  [""; ""; ""; "dist"; "*.js"; ""; ""; ""].

Definition record : fields :=
  [("name", JStr "left-pad");
   ("description", JStr "String left pad");
   ("keywords", JArr []);
   ("license", JStr "WTFPL");
   ("homepage", JStr "");
   ("repository", JObj []);
   ("authors", JArr [JObj [("name", JStr "azer")]]);
   ("autoupdate",
    JObj [("source", JStr "npm"); ("target", JStr "left-pad");
          ("fileMap",
           JArr [JObj [("basePath", JStr "dist");
                       ("files", JArr [JStr "*.js"])]])])].

Definition session : trace :=
  [Question (npm_question [("name", JStr "left-pad")]);
   Log "Located left-pad@1.3.0...";
   Download (JStr "https://registry.npmjs.org/left-pad/-/left-pad-1.3.0.tgz")
     (join_posix [root; "temp"; "left-pad"; "1.3.0"]);
   Log ("Downloaded left-pad@1.3.0..." ++ nl);
   Question explore_question;
   Question globExplore_question;
   Log (nl ++ "File map(s) to use for auto-updating library...");
   Question basePath_question;
   Question (pattern_question "dist");
   Question (pattern_question "dist");
   Question basePath_question;
   Log (nl ++ "Files matching file map in 1.3.0:" ++ nl ++ "a.js" ++ tab ++ "b.js");
   Question "Default file to highlight for usage (blank to skip): ";
   Rmdir (join_posix [root; "temp"; "left-pad"; "1.3.0"])].

End Sample.

(** ** A second sample host, for the source-host variant *)

Module SampleGit.

Import Sample.

Definition release_dir : string :=
  join_posix [root; "temp"; "azer"; "left-pad"; "v1.3.0"].

Definition source_dir : string :=
  join_posix [release_dir; "azer-left-pad-0a1b2c3"].

Definition manifest_text : string := "package.json of left-pad".

Definition manifest : jsval :=
  JObj [("name", JStr "left-pad");
        ("description", JStr "String left pad");
        ("author", JStr "azer <azer@roadbeats.com> (http://azer.bike)");
        ("license", JStr "WTFPL")].

Definition parse_url (url : string) : result jsval :=
  if url =? "https://github.com/azer/left-pad"
  then Ok (JObj [("source", JStr "github.com"); ("owner", JStr "azer");
                 ("name", JStr "left-pad")])
  else Throw (Raised "invalid url").

Definition tarball_url : string :=
  "https://api.github.com/repos/azer/left-pad/tarball/v1.3.0".

Definition tags : jsval :=
  JObj [("data", JArr [JObj [("name", JStr "v1.3.0");
                             ("tarball_url", JStr tarball_url)]])].

Definition repository : jsval :=
  JObj [("data", JObj [("description", JStr "Left pad, from the repository");
                       ("license", JObj [("spdx_id", JStr "MIT")]);
                       ("homepage", JNull)])].

Definition topics : jsval :=
  JObj [("data", JObj [("names", JArr [JStr "string"; JStr "pad"])])].

(** What the registry sends for a package that was unpublished: no
    versions and no distribution tags. *)
Definition unpublished_doc : jsval :=
  JObj [("name", JStr "left-pad");
        ("time", JObj [("unpublished", JObj [("name", JStr "left-pad")])])].

Definition glob_in_release (pattern : option string) (cwd : string)
    : result (list string) :=
  match pattern with
  | None => Throw (Raised "must provide pattern")
  | Some g =>
      if (g =? "*.js") && (cwd =? join_posix [source_dir; "dist"])
      then Ok ["index.js"]
      else Ok []
  end.

(** GitHub knows the repository [azer/left-pad] with the one tag
    [v1.3.0]; its archive unpacks to one directory with a
    [package.json] and [dist/index.js].  The registry has every package
    as unpublished, and the service that opens pull requests answers
    without a [data] member. *)
Definition host : Host :=
  {| dirname := root;
     join := join_posix;
     resolve := resolve_posix;
     lstat_isFile := fun p =>
       Ok (p =? join_posix [source_dir; "dist"; "index.js"]);
     readFile := fun p =>
       if p =? join_posix [source_dir; "package.json"] then Ok manifest_text
       else Throw (Raised "ENOENT");
     readdir := fun _ => Throw (Raised "ENOENT");
     readdir_types := fun p =>
       if p =? release_dir
       then Ok [("README.md", false); ("azer-left-pad-0a1b2c3", true)]
       else if p =? join_posix [source_dir; "dist"]
            then Ok [("index.js", false)]
       else Throw (Raised "ENOENT");
     rmdir := fun _ => Ok tt;
     glob := glob_in_release;
     fetch_json := fun _ => Ok unpublished_doc;
     download := fun _ _ => Ok tt;
     JSON_stringify := stringify;
     JSON_parse := fun text =>
       if text =? manifest_text then Ok manifest
       else Throw (Raised "Unexpected token");
     Number := number;
     gitUrlParse := parse_url;
     listTags := fun _ _ => Ok tags;
     repos_get := fun _ _ => Ok repository;
     getAllTopics := fun _ _ => Ok topics;
     createPullRequest := fun _ => Ok (JObj [("status", JNum 201)]);
     targetRepoOwner := "cdnjs";
     targetRepoName := "packages";
     branchBase := "add-" |}.

(** A session of the source-host variant on it: the maintainer gives
    the repository, skips both explorers, gives the base path [dist]
    with the one pattern [*.js], and picks [index.js] as the default
    file. *)
Definition answers : list string :=
  ["https://github.com/azer/left-pad"; ""; ""; "dist"; "*.js"; ""; "";
   "index.js"].

Definition record : fields :=
  [("name", JStr "left-pad");
   ("description", JStr "String left pad");
   ("keywords", JArr [JStr "string"; JStr "pad"]);
   ("license", JStr "WTFPL");
   ("homepage", JStr "https://github.com/azer/left-pad");
   ("repository",
    JObj [("type", JStr "git");
          ("url", JStr "git://github.com/azer/left-pad.git")]);
   ("authors",
    JArr [JObj [("name", JStr "azer"); ("email", JStr "azer@roadbeats.com");
                ("url", JStr "http://azer.bike")]]);
   ("autoupdate",
    JObj [("source", JStr "git");
          ("target", JStr "git://github.com/azer/left-pad.git");
          ("fileMap",
           JArr [JObj [("basePath", JStr "dist");
                       ("files", JArr [JStr "*.js"])]])]);
   ("filename", JStr "index.js")].

Definition session : trace :=
  [Question (nl ++ "GitHub repository URL: ");
   Log "Located azer/left-pad@v1.3.0...";
   Download (JStr tarball_url) release_dir;
   Log ("Downloaded azer/left-pad@v1.3.0..." ++ nl);
   Question explore_question;
   Question globExplore_question;
   Log (nl ++ "File map(s) to use for auto-updating library...");
   Question basePath_question;
   Question (pattern_question "dist");
   Question (pattern_question "dist");
   Question basePath_question;
   Log (nl ++ "Files matching file map in v1.3.0:" ++ nl ++ "index.js");
   Question "Default file to highlight for usage (blank to skip): ";
   Rmdir release_dir].

End SampleGit.

(** ** A third sample host: the tool started from elsewhere *)

Module SampleAway.

Import Sample.

Definition home : string := "/home/maintainer".

(** [path.resolve] in a process whose working directory is [home]. *)
Definition resolve_from_home (p : string) : string :=
  if p =? "." then home
  else if is_absolute p then p
  else home ++ "/" ++ p.

(** [glob] as for the first host, and as the library has it on two
    patterns which the first host leaves aside: the empty pattern is
    refused, and [../*.md] asked in [dist] finds the read-me of the
    package, one directory up. *)
Definition glob_in_tree_and_above (pattern : option string) (cwd : string)
    : result (list string) :=
  match pattern with
  | Some g =>
      if g =? "" then Throw (Raised "must provide pattern")
      else if (g =? "../*.md") && (cwd =? join_posix [package_dir; "dist"])
           then Ok ["../README.md"]
      else glob_in_tree pattern cwd
  | None => glob_in_tree pattern cwd
  end.

(** The world of the first host, with the tool started from the
    maintainer's home directory instead of its own, and the archive
    server out of reach: every download fails (the release is still
    unpacked from an earlier run). *)
Definition host : Host :=
  {| dirname := root;
     join := join_posix;
     resolve := resolve_from_home;
     lstat_isFile := fun p => Ok (is_file p);
     readFile := fun p =>
       if is_file p then Ok ("contents of " ++ p) else Throw (Raised "ENOENT");
     readdir := readdir_tree;
     readdir_types := readdir_types_tree;
     rmdir := fun _ => Ok tt;
     glob := glob_in_tree_and_above;
     fetch_json := fetch_registry;
     download := fun _ _ => Throw (Raised "ETIMEDOUT");
     JSON_stringify := stringify;
     JSON_parse := fun _ => Throw (Raised "Unexpected token");
     Number := number;
     gitUrlParse := parse_url;
     listTags := tags_of;
     repos_get := fun _ _ => Throw (Raised "Not Found");
     getAllTopics := fun _ _ => Throw (Raised "Not Found");
     createPullRequest := fun _ => Throw (Raised "Bad credentials");
     targetRepoOwner := "cdnjs";
     targetRepoName := "packages";
     branchBase := "add-" |}.

(** The registry session of the first host on this one: the failed
    download is printed, and the session goes on as before. *)
Definition session : trace :=
  [Question (npm_question [("name", JStr "left-pad")]);
   Log "Located left-pad@1.3.0...";
   Download (JStr "https://registry.npmjs.org/left-pad/-/left-pad-1.3.0.tgz")
     (join_posix [root; "temp"; "left-pad"; "1.3.0"]);
   ErrorCaught (Raised "ETIMEDOUT") ["message"; "stack"];
   Log ("Downloaded left-pad@1.3.0..." ++ nl);
   Question explore_question;
   Question globExplore_question;
   Log (nl ++ "File map(s) to use for auto-updating library...");
   Question basePath_question;
   Question (pattern_question "dist");
   Question (pattern_question "dist");
   Question basePath_question;
   Log (nl ++ "Files matching file map in 1.3.0:" ++ nl ++ "a.js" ++ tab ++ "b.js");
   Question "Default file to highlight for usage (blank to skip): ";
   Rmdir (join_posix [root; "temp"; "left-pad"; "1.3.0"])].

End SampleAway.

(** * Properties *)

(** ** Author normalisation *)

Lemma rbind_Throw {A B} (m : result A) (f : A -> result B) e :
  rbind m f = Throw e ->
  m = Throw e \/ exists a, m = Ok a /\ f a = Throw e.
Proof. destruct m; simpl; intros H; [right; eauto|left; congruence]. Qed.

Lemma prop_throws v k e : prop v k = Throw e -> e = TypeError.
Proof. destruct v; simpl; congruence. Qed.

Lemma match_group1_throws name re e :
  match_group1 name re = Throw e -> e = TypeError.
Proof.
  unfold match_group1. destruct name; try congruence.
  destruct (exec re s); congruence.
Qed.

Lemma strip_brackets_throws g e : strip_brackets g = Throw e -> e = TypeError.
Proof. destruct g; simpl; congruence. Qed.

Ltac throws_TypeError :=
  repeat match goal with
         | H : rbind _ _ = Throw _ |- _ =>
             apply rbind_Throw in H; destruct H as [H | (? & _ & H)]
         | H : (if ?b then _ else _) = Throw _ |- _ => destruct b
         | H : match ?a with JStr _ => _ | _ => _ end = Throw _ |- _ =>
             destruct a
         | H : prop _ _ = Throw _ |- _ => exact (prop_throws _ _ _ H)
         | H : match_group1 _ _ = Throw _ |- _ =>
             exact (match_group1_throws _ _ _ H)
         | H : strip_brackets _ = Throw _ |- _ =>
             exact (strip_brackets_throws _ _ H)
         | H : Ok _ = Throw _ |- _ => discriminate H
         end.

Lemma transformAuthor_throws_TypeError author e :
  transformAuthor author = Throw e -> e = TypeError.
Proof. unfold transformAuthor. intros H. throws_TypeError. Qed.

Lemma map_result_throws {A B} (f : A -> result B) l x e :
  (forall y e', f y = Throw e' -> e' = e) ->
  In x l -> f x = Throw e -> map_result f l = Throw e.
Proof.
  intros Hall. induction l as [|y l IH]; simpl; [tauto|].
  intros [->|Hin] Hx.
  - now rewrite Hx.
  - destruct (f y) as [b|e'] eqn:Hy; simpl.
    + now rewrite (IH Hin Hx).
    + now rewrite (Hall _ _ Hy).
Qed.

Lemma map_result_length {A B} (f : A -> result B) l ys :
  map_result f l = Ok ys -> List.length ys = List.length l.
Proof.
  revert ys. induction l as [|x l IH]; simpl; intros ys H.
  - now inversion H.
  - destruct (f x); simpl in H; [|discriminate].
    destruct (map_result f l); simpl in H; [|discriminate].
    inversion H; subst. simpl. now rewrite (IH _ eq_refl).
Qed.

Lemma map_result_Forall {A B} (f : A -> result B) (P : B -> Prop) l ys :
  (forall x y, f x = Ok y -> P y) ->
  map_result f l = Ok ys -> Forall P ys.
Proof.
  intros Hf. revert ys. induction l as [|x l IH]; simpl; intros ys H.
  - inversion H. constructor.
  - destruct (f x) eqn:Hx; simpl in H; [|discriminate].
    destruct (map_result f l); simpl in H; [|discriminate].
    inversion H; subst. constructor; eauto.
Qed.

(** After the cleaning loop every field left in an author is truthy. *)
Lemma clean_truthy name email url k v :
  In (k, v) (clean [("name", name); ("email", email); ("url", url)]) ->
  truthy v = true.
Proof.
  unfold clean. cbn.
  destruct (truthy name) eqn:Hn; cbn;
    destruct (truthy email) eqn:He; cbn;
    destruct (truthy url) eqn:Hu; cbn;
    intuition (try match goal with H : (_, _) = (_, _) |- _ => inversion H; subst end;
               congruence).
Qed.

Lemma transformAuthor_fields author cleaned :
  transformAuthor author = Ok cleaned ->
  exists data, cleaned = JObj data
               /\ forall k v, In (k, v) data -> truthy v = true.
Proof.
  unfold transformAuthor, rbind. intros H.
  repeat match type of H with
         | context [match ?x with Ok _ => _ | Throw _ => _ end] =>
             destruct x; try discriminate
         end.
  inversion H; subst. eexists; split; [reflexivity|].
  intros k v. apply clean_truthy.
Qed.

Lemma truthy_not_empty v :
  truthy v = true -> v <> JUndef /\ v <> JNull /\ v <> JStr "".
Proof. destruct v; simpl; try discriminate; repeat split; try discriminate.
  intros E. inversion E; subst. discriminate. Qed.

Lemma filter_truthy_drops_undefined authors :
  filter truthy (filter (fun a => negb (is_undefined a)) authors)
  = filter truthy authors.
Proof.
  induction authors as [|a l IH]; simpl; [reflexivity|].
  destruct a; simpl; rewrite ?IH; reflexivity.
Qed.

(** C5. Author normalisation: the string author with an e-mail and a URL
    yields the three fields; the object author with only a name yields
    only the name; [undefined] entries of the input list are dropped; and
    no author of a result holds an empty or undefined field (the key is
    left out). *)
Theorem C5_author_normalisation :
  transformAuthors [JStr "Jane Doe <jane@x.com> (https://x.com)"]
  = Ok [JObj [("name", JStr "Jane Doe"); ("email", JStr "jane@x.com");
              ("url", JStr "https://x.com")]]
  /\ transformAuthors [JObj [("name", JStr "Jane")]]
     = Ok [JObj [("name", JStr "Jane")]]
  /\ (forall authors,
        transformAuthors authors
        = transformAuthors (filter (fun a => negb (is_undefined a)) authors))
  /\ (forall authors cleaned,
        transformAuthors authors = Ok cleaned ->
        List.length cleaned = List.length (filter truthy authors)
        /\ Forall (fun author =>
                     exists data, author = JObj data
                       /\ forall k v, In (k, v) data ->
                            v <> JUndef /\ v <> JNull /\ v <> JStr "")
             cleaned).
Proof.
  split; [vm_compute; reflexivity|].
  split; [vm_compute; reflexivity|].
  split.
  - intros authors. unfold transformAuthors.
    now rewrite filter_truthy_drops_undefined.
  - intros authors cleaned H. unfold transformAuthors in H. split.
    + eapply map_result_length; eauto.
    + eapply map_result_Forall; [|exact H].
      intros x y Hxy. destruct (transformAuthor_fields _ _ Hxy) as (data & -> & Hd).
      exists data. split; [reflexivity|].
      intros k v Hin. apply truthy_not_empty. eauto.
Qed.

Lemma C5_author_normalisation_witness :
  transformAuthors [JUndef; JStr "Jane Doe <jane@x.com>"; JNull]
  = Ok [JObj [("name", JStr "Jane Doe"); ("email", JStr "jane@x.com")]]
  /\ List.length [JObj [("name", JStr "Jane Doe"); ("email", JStr "jane@x.com")]]
     = List.length (filter truthy [JUndef; JStr "Jane Doe <jane@x.com>"; JNull]).
Proof.
  assert (H : transformAuthors [JUndef; JStr "Jane Doe <jane@x.com>"; JNull]
              = Ok [JObj [("name", JStr "Jane Doe"); ("email", JStr "jane@x.com")]])
    by (vm_compute; reflexivity).
  split; [exact H|].
  exact (proj1 (proj2 (proj2 (proj2 C5_author_normalisation)) _ _ H)).
Defined.

Example author_examples :
  transformAuthors
    [JStr "Jane Doe (https://x.com) <jane@x.com>";
     JStr "Jane Doe";
     JStr "Jane <j@x.com>";
     JObj [("name", JStr "J"); ("homepage", JStr "h")];
     JStr "";
     JNull;
     JObj [("name", JStr "K <k@x.com>"); ("email", JStr "other@x.com")]]
  = Ok [JObj [("name", JStr "Jane Doe"); ("email", JStr "jane@x.com");
              ("url", JStr "https://x.com")];
        JObj [("name", JStr "Jane Doe")];
        JObj [("name", JStr "Jane"); ("email", JStr "j@x.com")];
        JObj [("name", JStr "J"); ("url", JStr "h")];
        JObj [("name", JStr "K"); ("email", JStr "other@x.com")]].
Proof. vm_compute. reflexivity. Qed.

Example author_greedy_segments :
  transformAuthors [JStr "A <b> <c> (d)"]
  = Ok [JObj [("name", JStr "A"); ("email", JStr "b> <c"); ("url", JStr "d")]].
Proof. vm_compute. reflexivity. Qed.

Example author_name_with_line_break :
  transformAuthors [JStr ("Jane" ++ nl ++ "Doe")] = Throw TypeError.
Proof. vm_compute. reflexivity. Qed.

(** C9. An object author without a name makes [transformAuthors] throw
    a [TypeError], whatever else the object and the list hold. *)
Theorem C9_author_without_name_throws authors o :
  In (JObj o) authors ->
  obj_get o "name" = JUndef ->
  transformAuthors authors = Throw TypeError.
Proof.
  intros Hin Hname. unfold transformAuthors.
  apply map_result_throws with (x := JObj o).
  - intros y e'. apply transformAuthor_throws_TypeError.
  - apply filter_In. split; [assumption|reflexivity].
  - unfold transformAuthor. simpl. rewrite Hname. simpl.
    destruct (truthy (obj_get o "email")); simpl;
      destruct (truthy (obj_get o "url")); simpl;
      try destruct (truthy (obj_get o "homepage")); reflexivity.
Qed.

Lemma C9_author_without_name_throws_witness :
  transformAuthors
    [JStr "Jane Doe"; JObj [("email", JStr "j@x.com"); ("url", JStr "https://x.com")]]
  = Throw TypeError.
Proof.
  apply (C9_author_without_name_throws _
           [("email", JStr "j@x.com"); ("url", JStr "https://x.com")]).
  - simpl. right. left. reflexivity.
  - reflexivity.
Defined.

(** ** The file-map matcher *)

Section Matcher.

Variable host : Host.

Lemma push_matches_fold path map patterns acc :
  fold_left (push_matches host path map) patterns acc
  = (acc ++ flat_map (matches_of host path (basePath map)) patterns)%list.
Proof.
  revert acc. induction patterns as [|file patterns IH]; intros acc; simpl.
  - now rewrite app_nil_r.
  - rewrite IH. unfold push_matches, matches_of.
    destruct (glob host (Some file) (join host [path; basePath map]));
      simpl; now rewrite <- ?app_assoc.
Qed.

Lemma allFileMapFiles_fold path fileMap acc :
  fold_left
    (fun acc map => fold_left (push_matches host path map) (files map) acc)
    fileMap acc
  = (acc ++ all_matches host path fileMap)%list.
Proof.
  revert acc. induction fileMap as [|map fileMap IH]; intros acc; simpl.
  - now rewrite app_nil_r.
  - rewrite IH, push_matches_fold. unfold all_matches. simpl.
    now rewrite <- app_assoc.
Qed.

Lemma allFileMapFiles_all_matches path fileMap :
  allFileMapFiles host path fileMap = all_matches host path fileMap.
Proof. unfold allFileMapFiles. now rewrite allFileMapFiles_fold. Qed.

Lemma allFileMapFiles_app path fileMap1 fileMap2 :
  allFileMapFiles host path (fileMap1 ++ fileMap2)
  = (allFileMapFiles host path fileMap1
     ++ allFileMapFiles host path fileMap2)%list.
Proof.
  rewrite !allFileMapFiles_all_matches. unfold all_matches.
  apply flat_map_app.
Qed.

Lemma count_occ_flat_map {A} (f : A -> list string) l p :
  count_occ string_dec (flat_map f l) p
  = list_sum (map (fun x => count_occ string_dec (f x) p) l).
Proof.
  induction l as [|x l IH]; simpl; [reflexivity|].
  now rewrite count_occ_app, IH.
Qed.

(** C6. Every path the matcher returns is a path that [glob] returned
    for a pattern of an item, asked in the root joined with the base
    path of that item, and every such path is returned; the result is
    the concatenation of these answers in the order the items and
    their patterns are declared; and nothing is deduplicated: a path
    occurs as often as the patterns find it.  That a path is a regular
    file, lies under the base path and matches the pattern is left to
    [glob]: the matcher checks none of it. *)
Theorem C6_matcher_paths path fileMap :
  (forall p,
     In p (allFileMapFiles host path fileMap)
     <-> exists item pattern found,
           In item fileMap /\ In pattern (files item)
           /\ glob host (Some pattern) (join host [path; basePath item])
              = Ok found
           /\ In p found)
  /\ allFileMapFiles host path fileMap = all_matches host path fileMap
  /\ (forall fileMap1 fileMap2, fileMap = (fileMap1 ++ fileMap2)%list ->
        allFileMapFiles host path fileMap
        = (allFileMapFiles host path fileMap1
           ++ allFileMapFiles host path fileMap2)%list)
  /\ (forall p,
        count_occ string_dec (allFileMapFiles host path fileMap) p
        = list_sum
            (map (fun item =>
                    list_sum
                      (map (fun pattern =>
                              count_occ string_dec
                                (matches_of host path (basePath item) pattern) p)
                         (files item)))
               fileMap)).
Proof.
  split; [|split; [|split]].
  - intros p. rewrite allFileMapFiles_all_matches. unfold all_matches. split.
    + intros Hin. apply in_flat_map in Hin.
      destruct Hin as (item & Hitem & Hin).
      apply in_flat_map in Hin. destruct Hin as (pattern & Hpat & Hin).
      unfold matches_of in Hin.
      destruct (glob host (Some pattern) (join host [path; basePath item]))
        as [found|] eqn:Hg; [|contradiction].
      exists item, pattern, found. repeat split; assumption.
    + intros (item & pattern & found & Hitem & Hpat & Hg & Hin).
      apply in_flat_map. exists item. split; [assumption|].
      apply in_flat_map. exists pattern. split; [assumption|].
      unfold matches_of. now rewrite Hg.
  - apply allFileMapFiles_all_matches.
  - intros fileMap1 fileMap2 ->. apply allFileMapFiles_app.
  - intros p. rewrite allFileMapFiles_all_matches. unfold all_matches.
    rewrite count_occ_flat_map. f_equal. apply map_ext. intros item.
    apply count_occ_flat_map.
Qed.

(** C7. A pattern on which [glob] throws contributes nothing and stops
    nothing: the matcher returns a list, the same list as for the file
    map without that pattern, made of the matches of the other patterns
    of all items. *)
Theorem C7_matcher_swallows_errors path before after base patterns1 bad
    patterns2 e :
  glob host (Some bad) (join host [path; base]) = Throw e ->
  allFileMapFiles host path
    (before ++ {| basePath := base; files := patterns1 ++ bad :: patterns2 |}
            :: after)
  = allFileMapFiles host path
      (before ++ {| basePath := base; files := patterns1 ++ patterns2 |}
              :: after)
  /\ allFileMapFiles host path
       (before ++ {| basePath := base; files := patterns1 ++ bad :: patterns2 |}
               :: after)
     = (all_matches host path before
        ++ flat_map (matches_of host path base) patterns1
        ++ flat_map (matches_of host path base) patterns2
        ++ all_matches host path after)%list.
Proof.
  intros Hbad.
  rewrite !allFileMapFiles_all_matches. unfold all_matches.
  rewrite !flat_map_app. simpl. rewrite !flat_map_app. simpl.
  assert (Hnone : matches_of host path base bad = [])
    by (unfold matches_of; now rewrite Hbad).
  rewrite Hnone. simpl.
  split; [reflexivity|].
  now rewrite <- !app_assoc.
Qed.

End Matcher.

(** C6, as the specification words it, fails: asked for [../*.md] in
    [dist], [glob] finds the read-me of the package one directory up,
    and the matcher returns that path, which does not lie under the
    base path. *)
Lemma C6_path_outside_base_path :
  allFileMapFiles SampleAway.host Sample.package_dir
    [{| basePath := "dist"; files := ["../*.md"] |}]
  = ["../README.md"]
  /\ located_under_cwd "../README.md" = false
  /\ ~ returns_paths_under_base_path SampleAway.host Sample.package_dir
        [{| basePath := "dist"; files := ["../*.md"] |}].
Proof.
  assert (H : allFileMapFiles SampleAway.host Sample.package_dir
                [{| basePath := "dist"; files := ["../*.md"] |}]
              = ["../README.md"]) by (vm_compute; reflexivity).
  split; [exact H|]. split; [reflexivity|].
  intros Hunder. specialize (Hunder "../README.md").
  rewrite H in Hunder. specialize (Hunder (or_introl eq_refl)).
  discriminate Hunder.
Qed.

Example matcher_keeps_duplicates :
  allFileMapFiles (Sample.host true) Sample.package_dir
    [{| basePath := "dist"; files := ["*.js"; "a.*"] |};
     {| basePath := "src"; files := ["*.js"] |}]
  = ["a.js"; "b.js"; "a.js"; "a.js"].
Proof. vm_compute. reflexivity. Qed.

Lemma C7_matcher_swallows_errors_witness :
  allFileMapFiles (Sample.host true) Sample.package_dir
    [{| basePath := "dist"; files := ["[unclosed"] |};
     {| basePath := "src"; files := ["*.js"] |}]
  = allFileMapFiles (Sample.host true) Sample.package_dir
      [{| basePath := "dist"; files := [] |};
       {| basePath := "src"; files := ["*.js"] |}].
Proof.
  exact (proj1 (C7_matcher_swallows_errors (Sample.host true)
                  Sample.package_dir [] [{| basePath := "src"; files := ["*.js"] |}]
                  "dist" [] "[unclosed" [] (Raised "invalid pattern") eq_refl)).
Defined.

Example matcher_spec_example :
  allFileMapFiles (Sample.host true) Sample.package_dir
    [{| basePath := "dist"; files := ["[unclosed"] |};
     {| basePath := "src"; files := ["*.js"] |}]
  = ["a.js"].
Proof. vm_compute. reflexivity. Qed.

(** ** The glob test of the explorer *)

Lemma split_char_no_sep sep s :
  count_char sep s = 0 -> split_char sep s = [s].
Proof.
  induction s as [|c s IH]; simpl; [reflexivity|].
  destruct (Ascii.eqb c sep); [discriminate|]. simpl.
  intros H. now rewrite (IH H).
Qed.

Lemma split_char_first sep a t :
  count_char sep a = 0 ->
  split_char sep (a ++ String sep t) = a :: split_char sep t.
Proof.
  induction a as [|c a IH]; simpl.
  - now rewrite Ascii.eqb_refl.
  - destruct (Ascii.eqb c sep); [discriminate|]. simpl.
    intros H. now rewrite (IH H).
Qed.

Lemma count_char_cut sep s :
  1 <= count_char sep s ->
  exists a t, s = a ++ String sep t
              /\ count_char sep a = 0
              /\ count_char sep s = S (count_char sep t).
Proof.
  induction s as [|c s IH]; simpl; [lia|].
  destruct (Ascii.eqb c sep) eqn:Hc.
  - intros _. apply Ascii.eqb_eq in Hc. subst c.
    exists "", s. repeat split.
  - simpl. intros H. destruct (IH H) as (a & t & -> & Ha & Hs).
    exists (String c a), t. simpl. rewrite Hc. repeat split; assumption.
Qed.

Example split_examples :
  split "dist *.min.js" " " 2 = ["dist"; "*.min.js"]
  /\ split "dist my file.js" " " 2 = ["dist"; "my"]
  /\ split "dist" " " 2 = ["dist"]
  /\ split "a  b" " " 2 = ["a"; ""].
Proof. vm_compute. repeat split. Qed.

Section GlobTest.

Variable host : Host.

Lemma globExplore_test_two path line base pattern tr :
  split line " " 2 = [base; pattern] ->
  globExplore_test host path line tr
  = (Ok tt, (tr ++ [glob_test_event host path base pattern])%list).
Proof.
  intros Hsplit. unfold globExplore_test, glob_test_event. rewrite Hsplit.
  unfold Eff.try_catch, Eff.bind, Eff.pure, log, error_caught, Eff.emit.
  simpl.
  destruct (glob host (Some pattern) (join host [path; base])); reflexivity.
Qed.

(** C10. A line with more than one space splits into a base path and a
    pattern that ends at the second space; what follows is dropped: the
    test runs, and prints, exactly as for the line cut there, so the
    cut itself is never reported.  What the test prints for the cut
    line is the matches or, when [glob] throws on it, the error. *)
Theorem C10_glob_test_cuts_pattern path line :
  2 <= count_char " " line ->
  exists base pattern rest,
    line = base ++ " " ++ pattern ++ " " ++ rest
    /\ count_char " " base = 0 /\ count_char " " pattern = 0
    /\ split line " " 2 = [base; pattern]
    /\ forall tr,
         globExplore_test host path line tr
         = globExplore_test host path (base ++ " " ++ pattern) tr
         /\ globExplore_test host path line tr
            = (Ok tt, (tr ++ [glob_test_event host path base pattern])%list).
Proof.
  intros H.
  destruct (count_char_cut " " line) as (base & t & -> & Hbase & Hcount); [lia|].
  destruct (count_char_cut " " t) as (pattern & rest & -> & Hpattern & _); [lia|].
  exists base, pattern, rest.
  assert (Hline : split (base ++ " " ++ pattern ++ " " ++ rest) " " 2
                  = [base; pattern]).
  { unfold split. simpl. rewrite (split_char_first " " base) by assumption.
    rewrite (split_char_first " " pattern) by assumption. reflexivity. }
  assert (Hcut : split (base ++ " " ++ pattern) " " 2 = [base; pattern]).
  { unfold split. simpl. rewrite (split_char_first " " base) by assumption.
    rewrite split_char_no_sep by assumption. reflexivity. }
  repeat split; try assumption.
  - rewrite (globExplore_test_two _ _ _ _ _ Hline).
    now rewrite (globExplore_test_two _ _ _ _ _ Hcut).
  - apply globExplore_test_two. exact Hline.
Qed.

End GlobTest.

Lemma C10_glob_test_cuts_pattern_witness :
  exists base pattern rest,
    "dist *.js x y" = base ++ " " ++ pattern ++ " " ++ rest
    /\ count_char " " base = 0 /\ count_char " " pattern = 0
    /\ split "dist *.js x y" " " 2 = [base; pattern]
    /\ forall tr,
         globExplore_test (Sample.host true) Sample.package_dir "dist *.js x y" tr
         = globExplore_test (Sample.host true) Sample.package_dir
             (base ++ " " ++ pattern) tr
         /\ globExplore_test (Sample.host true) Sample.package_dir
              "dist *.js x y" tr
            = (Ok tt, (tr ++ [glob_test_event (Sample.host true)
                                Sample.package_dir base pattern])%list).
Proof.
  apply (C10_glob_test_cuts_pattern (Sample.host true) Sample.package_dir
           "dist *.js x y").
  vm_compute. lia.
Defined.

(** C10, as the specification words it, fails: on a line with two
    spaces in a row the pattern is cut down to the empty string, which
    [glob] refuses, and the error is shown. *)
Lemma C10_cut_pattern_shows_an_error :
  2 <= count_char " " "dist  *.js"
  /\ split "dist  *.js" " " 2 = ["dist"; ""]
  /\ glob SampleAway.host (Some "")
       (join SampleAway.host [Sample.package_dir; "dist"])
     = Throw (Raised "must provide pattern")
  /\ globExplore_test SampleAway.host Sample.package_dir "dist  *.js" []
     = (Ok tt, [ErrorCaught (Raised "must provide pattern") ["message"]]).
Proof. repeat split; vm_compute; try reflexivity; lia. Qed.

(** ** The file-map builder *)

Section Builder.

Variable host : Host.

Lemma patternLoop_bind {A} entered (k : list string -> prog A) ins :
  forall patterns tr,
    patternLoop entered k patterns ins tr
    = Prog.bind (patterns_of entered patterns) k ins tr.
Proof.
  unfold patterns_of, Prog.bind.
  induction ins as [|globInput ins IH]; intros patterns tr; simpl.
  - reflexivity.
  - destruct (globInput =? "").
    + destruct patterns; [apply IH | reflexivity].
    + apply IH.
Qed.

Lemma patterns_of_Done entered ins :
  forall patterns tr found ins' tr',
    patterns_of entered patterns ins tr = Done found ins' tr' ->
    found <> [] /\ List.length ins' < List.length ins.
Proof.
  unfold patterns_of.
  induction ins as [|globInput ins IH]; intros patterns tr found ins' tr';
    simpl; [discriminate|].
  destruct (globInput =? "").
  - destruct patterns as [|p ps].
    + intros H. apply IH in H. split; [tauto | lia].
    + unfold Prog.ret. intros H. inversion H; subst.
      split; [discriminate | lia].
  - intros H. apply IH in H. split; [tauto | lia].
Qed.

Lemma fileMapLoop_step fileMap entered ins tr :
  entered <> "" ->
  fileMapLoop host fileMap (entered :: ins) tr
  = Prog.bind (patterns_of entered [])
      (fun patterns =>
         fileMapLoop host (fileMap ++ [stored_item host entered patterns])%list)
      ins (tr ++ [Question basePath_question])%list.
Proof.
  intros Hne. simpl. apply String.eqb_neq in Hne. rewrite Hne.
  apply patternLoop_bind.
Qed.

Lemma fileMapLoop_invariant n :
  forall ins fileMap tr result ins' tr',
    List.length ins <= n ->
    every_item_has_patterns fileMap ->
    fileMapLoop host fileMap ins tr = Done result ins' tr' ->
    result <> [] /\ every_item_has_patterns result.
Proof.
  induction n as [|n IH]; intros ins fileMap tr result ins' tr' Hlen Hinv.
  - destruct ins; [simpl; discriminate | simpl in Hlen; lia].
  - destruct ins as [|entered ins]; [simpl; discriminate|].
    simpl in Hlen.
    destruct (String.eqb_spec entered "") as [->|Hne].
    + simpl. destruct fileMap as [|item fileMap].
      * intros H. eapply IH; [|exact Hinv|exact H]. lia.
      * intros H. inversion H; subst. split; [discriminate | assumption].
    + rewrite fileMapLoop_step by assumption. unfold Prog.bind.
      destruct (patterns_of entered [] ins
                  (tr ++ [Question basePath_question])%list)
        as [patterns ins1 tr1| |] eqn:Hp; try discriminate.
      apply patterns_of_Done in Hp. destruct Hp as [Hfound Hshorter].
      intros H. eapply IH; [| |exact H]; [lia|].
      apply Forall_app. split; [assumption|].
      constructor; [exact Hfound | constructor].
Qed.

(** C4. When the builder completes, the file map it returns is not
    empty and every item of it has at least one pattern.  An empty line
    at the base-path prompt ends the builder only when an item exists;
    with none, the error is shown and the prompt repeats.  An empty line
    at the pattern prompt ends the patterns only when one exists; with
    none, the error is shown and the prompt repeats. *)
Theorem C4_builder_result path ins tr fileMap ins' tr' :
  exploreAndGlob host path ins tr = Done fileMap ins' tr' ->
  (fileMap <> [] /\ Forall (fun item => files item <> []) fileMap)
  /\ (forall rest tr0,
        fileMapLoop host [] ("" :: rest) tr0
        = fileMapLoop host [] rest
            (tr0 ++ [Question basePath_question; Error no_fileMap_message])%list)
  /\ (forall item items rest tr0,
        fileMapLoop host (item :: items) ("" :: rest) tr0
        = Done (item :: items) rest (tr0 ++ [Question basePath_question])%list)
  /\ (forall entered rest tr0,
        patterns_of entered [] ("" :: rest) tr0
        = patterns_of entered [] rest
            (tr0 ++ [Question (pattern_question entered);
                     Error no_pattern_message])%list)
  /\ (forall entered pattern patterns rest tr0,
        patterns_of entered (pattern :: patterns) ("" :: rest) tr0
        = Done (pattern :: patterns) rest
            (tr0 ++ [Question (pattern_question entered)])%list).
Proof.
  intros H. split; [|repeat split].
  unfold exploreAndGlob, Prog.bind, Prog.run, log, Eff.emit in H.
  destruct (explore host path ins tr) as [u1 ins1 tr1| |]; try discriminate.
  destruct (globExplore host path ins1 tr1) as [u2 ins2 tr2| |];
    try discriminate.
  apply (fileMapLoop_invariant (List.length ins2)) in H;
    [exact H | lia | constructor].
Qed.

End Builder.

Lemma C4_builder_result_witness :
  exploreAndGlob (Sample.host true) Sample.package_dir
    [""; ""; ""; "dist"; ""; "*.js"; ""; ""; "a.js"] []
  = Done [{| basePath := "dist"; files := ["*.js"] |}] ["a.js"]
      [Question explore_question; Question globExplore_question;
       Log (nl ++ "File map(s) to use for auto-updating library...");
       Question basePath_question; Error no_fileMap_message;
       Question basePath_question;
       Question (pattern_question "dist"); Error no_pattern_message;
       Question (pattern_question "dist");
       Question (pattern_question "dist");
       Question basePath_question]
  /\ [{| basePath := "dist"; files := ["*.js"] |}] <> []
  /\ Forall (fun item => files item <> [])
       [{| basePath := "dist"; files := ["*.js"] |}].
Proof.
  assert (H : exploreAndGlob (Sample.host true) Sample.package_dir
                [""; ""; ""; "dist"; ""; "*.js"; ""; ""; "a.js"] []
              = Done [{| basePath := "dist"; files := ["*.js"] |}] ["a.js"]
                  [Question explore_question; Question globExplore_question;
                   Log (nl ++ "File map(s) to use for auto-updating library...");
                   Question basePath_question; Error no_fileMap_message;
                   Question basePath_question;
                   Question (pattern_question "dist"); Error no_pattern_message;
                   Question (pattern_question "dist");
                   Question (pattern_question "dist");
                   Question basePath_question])
    by (vm_compute; reflexivity).
  split; [exact H|].
  exact (proj1 (C4_builder_result (Sample.host true) _ _ _ _ _ _ H)).
Defined.

Example stored_base_path_examples :
  stored_item (Sample.host true) "." ["*.js"]
  = {| basePath := ""; files := ["*.js"] |}
  /\ stored_item (Sample.host true) "/opt/cdnjs-add-cli" ["*.js"]
     = {| basePath := ""; files := ["*.js"] |}
  /\ stored_item (Sample.host true) "dist" ["*.js"]
     = {| basePath := "dist"; files := ["*.js"] |}.
Proof. vm_compute. repeat split. Qed.

(** ** Publishing *)

Section Publisher.

Variable host : Host.

Lemma trace_grows (tr : trace) (e : event) : tr <> (tr ++ [e])%list.
Proof.
  intros H. apply (f_equal (@List.length event)) in H.
  rewrite length_app in H. simpl in H. lia.
Qed.

(** When [createPR] reaches the remote call, the request holds the one
    file: the path of the record and its serialisation, newline ended. *)
Lemma createPR_request data body tr r request :
  createPR host data body tr = (r, (tr ++ [PullRequest request])%list) ->
  exists name,
    obj_get data "name" = JStr name
    /\ pr_files request
       = [(package_file name, JSON_stringify host (JObj data) ++ nl)]
    /\ r = createPullRequest host request.
Proof.
  unfold createPR, Eff.bind, Eff.pure, Eff.emit.
  destruct (prop (obj_get data "autoupdate") "source") as [source|e1].
  2:{ intros H. inversion H as [[Hr Htr]]. now apply trace_grows in Htr. }
  destruct (as_string (obj_get data "name")) as [name|e2] eqn:Hname.
  2:{ intros H. inversion H as [[Hr Htr]]. now apply trace_grows in Htr. }
  destruct (prop (obj_get data "autoupdate") "target") as [target|e3].
  2:{ intros H. inversion H as [[Hr Htr]]. now apply trace_grows in Htr. }
  intros H. inversion H as [[Hr Htr]].
  apply app_inv_head in Htr. inversion Htr as [Hreq].
  exists name. split.
  - destruct (obj_get data "name"); simpl in Hname; congruence.
  - split; reflexivity.
Qed.


End Publisher.


(** ** The registry variant *)

Lemma bind_Done {A B} (m : prog A) (f : A -> prog B) ins tr b ins' tr' :
  Prog.bind m f ins tr = Done b ins' tr' ->
  exists a ins1 tr1, m ins tr = Done a ins1 tr1 /\ f a ins1 tr1 = Done b ins' tr'.
Proof.
  unfold Prog.bind. destruct (m ins tr) as [a ins1 tr1| |]; try discriminate.
  eauto.
Qed.

Lemma bind_pure_Done {A B} (r : result A) (f : A -> prog B) ins tr b ins' tr' :
  Prog.bind (Prog.pure r) f ins tr = Done b ins' tr' ->
  exists a, r = Ok a /\ f a ins tr = Done b ins' tr'.
Proof.
  unfold Prog.bind, Prog.pure, Prog.run, Eff.pure.
  destruct r; [eauto | discriminate].
Qed.

Lemma bind_run_Done {A B} (m : eff A) (f : A -> prog B) ins tr b ins' tr' :
  Prog.bind (Prog.run m) f ins tr = Done b ins' tr' ->
  exists a tr1, m tr = (Ok a, tr1) /\ f a ins tr1 = Done b ins' tr'.
Proof.
  unfold Prog.bind, Prog.run.
  destruct (m tr) as [[a|e] tr1]; [eauto | discriminate].
Qed.

Lemma obj_get_set o k v k' :
  obj_get (obj_set o k v) k' = if k =? k' then v else obj_get o k'.
Proof.
  induction o as [|[k1 v1] o IH]; simpl; [reflexivity|].
  destruct (String.eqb_spec k1 k) as [->|Hne]; simpl.
  - destruct (k =? k'); reflexivity.
  - rewrite IH. destruct (String.eqb_spec k1 k') as [->|Hne'].
    + apply String.eqb_neq in Hne. rewrite String.eqb_sym in Hne.
      now rewrite Hne.
    + reflexivity.
Qed.

Lemma obj_get_not_has o k : obj_has o k = false -> obj_get o k = JUndef.
Proof.
  induction o as [|[k1 v1] o IH]; simpl; [reflexivity|].
  destruct (k1 =? k); [discriminate | exact IH].
Qed.

Lemma obj_has_In o k : obj_has o k = true -> In k (map fst o).
Proof.
  induction o as [|[k1 v1] o IH]; simpl; [discriminate|].
  destruct (String.eqb_spec k1 k); [left; assumption | right; auto].
Qed.

(** Setting the properties of [o], one after the other, on [base]. *)
Lemma obj_get_fold_set o :
  NoDup (map fst o) ->
  forall base k,
    obj_get (fold_left (fun acc kv => obj_set acc (fst kv) (snd kv)) o base) k
    = if obj_has o k then obj_get o k else obj_get base k.
Proof.
  induction o as [|[k1 v1] o IH]; simpl; intros Hnd base k; [reflexivity|].
  inversion Hnd as [|? ? Hnotin Hnd']; subst.
  rewrite (IH Hnd'), obj_get_set.
  destruct (String.eqb_spec k1 k) as [->|Hne]; [|reflexivity].
  destruct (obj_has o k) eqn:Hhas; [|reflexivity].
  apply obj_has_In in Hhas. contradiction.
Qed.

(** The merged document, read as the program builds it. *)
Lemma spread2_get version package key :
  NoDup (map fst (own_properties package)) ->
  NoDup (map fst (own_properties version)) ->
  obj_get (spread2 version package) key
  = if obj_has (own_properties package) key
    then obj_get (own_properties package) key
    else obj_get (own_properties version) key.
Proof.
  intros Hp Hv. unfold spread2.
  rewrite (obj_get_fold_set _ Hp), (obj_get_fold_set _ Hv). simpl.
  destruct (obj_has (own_properties package) key); [reflexivity|].
  destruct (obj_has (own_properties version) key) eqn:Hhas; [reflexivity|].
  now rewrite obj_get_not_has.
Qed.

Lemma store_basic_info_get cdnjsData jsonFullData key default :
  In (key, default) basic_fields ->
  obj_get (store_basic_info cdnjsData jsonFullData) key
  = js_or (obj_get jsonFullData key) default.
Proof.
  unfold basic_fields, store_basic_info. simpl.
  intros [H|[H|[H|[H|[H|[]]]]]]; inversion H; subst;
    rewrite !obj_get_set; reflexivity.
Qed.

Lemma basic_field_names key default :
  In (key, default) basic_fields ->
  ("authors" =? key) = false
  /\ ("autoupdate" =? key) = false
  /\ ("filename" =? key) = false.
Proof.
  unfold basic_fields. simpl.
  intros [H|[H|[H|[H|[H|[]]]]]]; inversion H; subst; repeat split.
Qed.

Ltac step H :=
  match type of H with
  | Prog.bind (Prog.pure _) _ _ _ = Done _ _ _ =>
      apply bind_pure_Done in H; destruct H as (? & ? & H)
  | Prog.bind (Prog.run _) _ _ _ = Done _ _ _ =>
      apply bind_run_Done in H; destruct H as (? & ? & ? & H)
  | Prog.bind _ _ _ _ = Done _ _ _ =>
      apply bind_Done in H; destruct H as (? & ? & ? & ? & H)
  end.

Section Registry.

Variable host : Host.

(** C1, as the program has it. In a run of [npm] that returns a
    record, each of description, keywords, license, homepage and
    repository is read from the merged document, and the merged document
    takes a field from the package-level document whenever that document
    defines it, and from the latest version's document otherwise; a
    field that is falsy there gets its default. *)
Theorem C1_package_level_fields_first cdnjsData ins tr record ins' tr' :
  npm host cdnjsData ins tr = Done (Some record) ins' tr' ->
  exists answer rest jsonData dist_tags latest versions jsonVersionData,
    ins = answer :: rest
    /\ fetch_json host (registry_url cdnjsData answer) = Ok jsonData
    /\ prop jsonData "dist-tags" = Ok dist_tags
    /\ prop dist_tags "latest" = Ok latest
    /\ prop jsonData "versions" = Ok versions
    /\ prop versions (ToString latest) = Ok jsonVersionData
    /\ (distinct_keys jsonData -> distinct_keys jsonVersionData ->
        forall key default,
          In (key, default) basic_fields ->
          obj_get record key
          = js_or (package_over_version jsonData jsonVersionData key) default).
Proof.
  unfold npm. intros H.
  step H.
  match goal with
  | Hin : input _ ins tr = Done ?a ?i ?t |- _ =>
      unfold input in Hin; destruct ins as [|answer rest];
      [discriminate Hin|]; inversion Hin; subst a i t; clear Hin
  end.
  step H. step H.
  match type of H with
  | (if truthy ?e then _ else _) _ _ = _ => destruct (truthy e)
  end.
  { step H. unfold Prog.ret in H. discriminate H. }
  do 5 step H.
  match goal with
  | Hf : fetch_json host _ = Ok ?j,
    Hv : prop ?j "versions" = Ok ?vs,
    Hd : prop ?j "dist-tags" = Ok ?d,
    Hl : prop ?d "latest" = Ok ?l,
    Hversion : prop ?vs (ToString ?l) = Ok ?v |- _ =>
      exists answer, rest, j, d, l, vs, v;
      repeat (split; [first [reflexivity | assumption]|])
  end.
  intros Hpackage Hversion key default Hkey.
  repeat step H.
  unfold Prog.ret in H. inversion H as [[Hrecord Hins Htr]].
  destruct (basic_field_names _ _ Hkey) as (Ha & Hu & Hf).
  match goal with
  | |- obj_get (if ?b then _ else _) _ = _ => destruct b
  end;
    rewrite !obj_get_set, ?Ha, ?Hu, ?Hf;
    rewrite (store_basic_info_get _ _ _ _ Hkey);
    (rewrite spread2_get by assumption); reflexivity.
Qed.

(** C2, as the program has it. When the package-level document of the
    registry carries a truthy error, [npm] prints it and returns no
    record; nothing else is asked, fetched or downloaded. *)
Theorem C2_registry_error_returns_nothing cdnjsData answer rest tr jsonData
    registry_error :
  fetch_json host (registry_url cdnjsData answer) = Ok jsonData ->
  prop jsonData "error" = Ok registry_error ->
  truthy registry_error = true ->
  npm host cdnjsData (answer :: rest) tr
  = Done None rest
      (tr ++ [Question (npm_question cdnjsData);
              Error (ToString registry_error)])%list.
Proof.
  intros Hfetch Herror Htruthy.
  unfold npm, Prog.bind, input, Prog.pure, Prog.run, Eff.pure, Prog.ret.
  rewrite Hfetch, Herror, Htruthy.
  unfold error, Eff.emit. now rewrite <- app_assoc.
Qed.

End Registry.

Lemma sample_session :
  npm (Sample.host true) [("name", JStr "left-pad")] Sample.answers []
  = Done (Some Sample.record) [] Sample.session.
Proof. vm_compute. reflexivity. Qed.

Lemma sample_session_null_error :
  npm (Sample.host true) [("name", JStr "left-pad")]
    ("left-pad-null" :: tl Sample.answers) []
  = Done (Some Sample.record) [] Sample.session.
Proof. vm_compute. reflexivity. Qed.

(** C1, as the specification words it, fails: both documents of the
    sample package define a description, and the record holds the
    package-level one, not the version's. *)
Lemma C1_version_fields_do_not_win :
  npm (Sample.host true) [("name", JStr "left-pad")] Sample.answers []
  = Done (Some Sample.record) [] Sample.session
  /\ obj_get (own_properties Sample.package_doc) "description"
     = JStr "String left pad"
  /\ version_over_package Sample.package_doc Sample.version_doc "description"
     = JStr "String left pad (1.3.0)"
  /\ obj_get Sample.record "description" = JStr "String left pad"
  /\ obj_get Sample.record "description"
     <> js_or (version_over_package Sample.package_doc Sample.version_doc
                 "description") (JStr "").
Proof.
  split; [exact sample_session|].
  repeat split; vm_compute; discriminate.
Qed.

Lemma C1_package_level_fields_first_witness :
  exists answer rest jsonData dist_tags latest versions jsonVersionData,
    Sample.answers = answer :: rest
    /\ fetch_json (Sample.host true)
         (registry_url [("name", JStr "left-pad")] answer) = Ok jsonData
    /\ prop jsonData "dist-tags" = Ok dist_tags
    /\ prop dist_tags "latest" = Ok latest
    /\ prop jsonData "versions" = Ok versions
    /\ prop versions (ToString latest) = Ok jsonVersionData
    /\ (distinct_keys jsonData -> distinct_keys jsonVersionData ->
        forall key default,
          In (key, default) basic_fields ->
          obj_get Sample.record key
          = js_or (package_over_version jsonData jsonVersionData key) default).
Proof.
  exact (C1_package_level_fields_first (Sample.host true)
           [("name", JStr "left-pad")] Sample.answers [] Sample.record []
           Sample.session sample_session).
Defined.

(** C2, as the specification words it, fails: the latest version's
    document of the sample package carries an error member, and so does
    (an empty one) the package-level document of the second session;
    both sessions return the record. *)
Lemma C2_error_members_that_do_not_abort :
  (npm (Sample.host true) [("name", JStr "left-pad")] Sample.answers []
   = Done (Some Sample.record) [] Sample.session
   /\ prop Sample.package_doc "versions"
      = Ok (JObj [("1.3.0", Sample.version_doc)])
   /\ prop Sample.version_doc "error" = Ok (JStr "deprecated"))
  /\ (npm (Sample.host true) [("name", JStr "left-pad")]
        ("left-pad-null" :: tl Sample.answers) []
      = Done (Some Sample.record) [] Sample.session
      /\ fetch_json (Sample.host true)
           (registry_url [("name", JStr "left-pad")] "left-pad-null")
         = Ok Sample.package_doc_null_error
      /\ obj_has (own_properties Sample.package_doc_null_error) "error" = true).
Proof.
  split; (split; [first [exact sample_session | exact sample_session_null_error]|]);
    split; vm_compute; reflexivity.
Qed.

Lemma C2_registry_error_returns_nothing_witness :
  npm (Sample.host true) [("name", JStr "left-pad")] ["no-such-package"; "x"] []
  = Done None ["x"]
      ([] ++ [Question (npm_question [("name", JStr "left-pad")]);
              Error (ToString (JStr "Not found"))])%list.
Proof.
  apply (C2_registry_error_returns_nothing (Sample.host true)
           [("name", JStr "left-pad")] "no-such-package" ["x"] []
           (JObj [("error", JStr "Not found")]) (JStr "Not found"));
    reflexivity.
Defined.

(** ** The source-host variant and the entry point *)

Section SourceHost.

Variable host : Host.

(** X1.  When the repository has no tag ([data] is missing or empty),
    [github] prints the message and returns no record; nothing is
    downloaded. *)
Theorem github_without_tags cdnjsData ins tr repoOwner repoName ins1 tr1
    repoTags tags :
  githubRepo host ins tr = Done (repoOwner, repoName) ins1 tr1 ->
  listTags host repoOwner repoName = Ok repoTags ->
  prop repoTags "data" = Ok tags ->
  truthy tags = false
  \/ (exists count, prop tags "length" = Ok count /\ truthy count = false) ->
  github host cdnjsData ins tr
  = Done None ins1 (tr1 ++ [Error (no_tags_message repoOwner repoName)])%list.
Proof.
  intros Hrepo Htags Hdata Hnone.
  unfold github, Prog.bind. rewrite Hrepo. cbn [fst snd].
  unfold Prog.pure, Prog.run, Eff.pure. rewrite Htags, Hdata.
  destruct Hnone as [Hfalsy | (count & Hcount & Hzero)].
  - rewrite Hfalsy. reflexivity.
  - destruct (truthy tags); [|reflexivity].
    rewrite Hcount, Hzero. reflexivity.
Qed.

(** X2.  Without a library name on the command line, [main] prints the
    usage and does nothing else. *)
Theorem main_without_name argv ins tr :
  nth_error argv 2 = None \/ nth_error argv 2 = Some "" ->
  main host argv ins tr = Done tt ins (tr ++ [Error usage])%list.
Proof.
  unfold main. intros [-> | ->]; reflexivity.
Qed.

End SourceHost.

Lemma github_without_tags_witness :
  github (Sample.host true) [("name", JStr "empty")]
    ["https://gitlab.com/azer/empty"; "https://github.com/azer/empty"; "x"] []
  = Done None ["x"]
      ([Question (nl ++ "GitHub repository URL: ");
        Error "Could not parse a valid GitHub.com repo from given input.";
        Question (nl ++ "GitHub repository URL: ")]
       ++ [Error (no_tags_message (JStr "azer") (JStr "empty"))])%list.
Proof.
  apply (github_without_tags (Sample.host true) [("name", JStr "empty")]
           ["https://gitlab.com/azer/empty"; "https://github.com/azer/empty"; "x"]
           [] (JStr "azer") (JStr "empty") ["x"] _
           (JObj [("data", JArr [])]) (JArr [])).
  - vm_compute. reflexivity.
  - reflexivity.
  - reflexivity.
  - right. exists (JNum 0). split; reflexivity.
Defined.

Lemma main_without_name_witness :
  main (Sample.host true) ["node"; "index.js"] ["1"] []
  = Done tt ["1"] ([] ++ [Error usage])%list.
Proof.
  apply (main_without_name (Sample.host true) ["node"; "index.js"] ["1"] []).
  left. reflexivity.
Defined.

(** * Further properties of the program *)

(** ** The explorers *)

Section Explorers.

Variable host : Host.

Lemma explore_list_event path pathInput tr :
  explore_list host path pathInput tr
  = (Ok tt, (tr ++ [explore_event host path pathInput])%list).
Proof.
  unfold explore_list, explore_event, Eff.try_catch, Eff.bind, Eff.pure, log,
    error_caught, Eff.emit.
  destruct (lstat_isFile host (join host [path; pathInput])) as [[|]|e];
    [destruct (readFile host (join host [path; pathInput]))
    |destruct (readdir host (join host [path; pathInput]))|];
    reflexivity.
Qed.

Lemma globExplore_test_event path globInput tr :
  globExplore_test host path globInput tr
  = (Ok tt, (tr ++ [globExplore_event host path globInput])%list).
Proof.
  unfold globExplore_test, globExplore_event, Eff.try_catch, Eff.bind,
    Eff.pure, log, error_caught, Eff.emit.
  destruct (split globInput " " 2) as [|base [|pattern rest]]; simpl;
    [reflexivity| |];
    match goal with
    | |- context [glob host ?p ?c] => destruct (glob host p c)
    end; reflexivity.
Qed.

Lemma explore_turns path answers :
  Forall (fun answer => answer <> "") answers ->
  forall rest tr,
    explore host path (answers ++ "" :: rest)%list tr
    = Done tt rest
        (tr ++ turns explore_question (explore_event host path) answers
            ++ [Question explore_question])%list
    /\ explore host path answers tr
       = Waiting
           (tr ++ turns explore_question (explore_event host path) answers
               ++ [Question explore_question])%list.
Proof.
  induction 1 as [|answer answers Hne _ IH]; intros rest tr.
  - split; reflexivity.
  - apply String.eqb_neq in Hne.
    cbn [List.app explore]. rewrite Hne, explore_list_event. cbn [snd].
    destruct (IH rest ((tr ++ [Question explore_question])
                         ++ [explore_event host path answer])%list) as [H1 H2].
    rewrite H1, H2. unfold turns. cbn [flat_map].
    rewrite <- !app_assoc. split; reflexivity.
Qed.

Lemma globExplore_turns path answers :
  Forall (fun answer => answer <> "") answers ->
  forall rest tr,
    globExplore host path (answers ++ "" :: rest)%list tr
    = Done tt rest
        (tr ++ turns globExplore_question (globExplore_event host path) answers
            ++ [Question globExplore_question])%list
    /\ globExplore host path answers tr
       = Waiting
           (tr ++ turns globExplore_question (globExplore_event host path) answers
               ++ [Question globExplore_question])%list.
Proof.
  induction 1 as [|answer answers Hne _ IH]; intros rest tr.
  - split; reflexivity.
  - apply String.eqb_neq in Hne.
    cbn [List.app globExplore]. rewrite Hne, globExplore_test_event. cbn [snd].
    destruct (IH rest ((tr ++ [Question globExplore_question])
                         ++ [globExplore_event host path answer])%list) as [H1 H2].
    rewrite H1, H2. unfold turns. cbn [flat_map].
    rewrite <- !app_assoc. split; reflexivity.
Qed.

End Explorers.

(** ** Sessions of the builder *)

Section BuilderSessions.

Variable host : Host.

Lemma patterns_of_entered entered patterns :
  Forall (fun p => p <> "") patterns ->
  forall collected rest tr,
    (collected ++ patterns)%list <> [] ->
    patterns_of entered collected (patterns ++ "" :: rest)%list tr
    = Done (collected ++ patterns)%list rest
        (tr ++ repeat (Question (pattern_question entered))
                 (S (List.length patterns)))%list.
Proof.
  unfold patterns_of.
  induction 1 as [|p patterns Hne _ IH]; intros collected rest tr Hsome.
  - rewrite app_nil_r in *. simpl.
    destruct collected; [contradiction | reflexivity].
  - apply String.eqb_neq in Hne. cbn [List.app patternLoop]. rewrite Hne.
    fold (@patternLoop (list string) entered Prog.ret).
    rewrite IH by (rewrite <- app_assoc; exact Hsome).
    rewrite <- !app_assoc. reflexivity.
Qed.

Lemma fileMapLoop_groups groups :
  Forall well_formed_group groups ->
  forall fileMap rest tr,
    (fileMap ++ map (fun g => stored_item host (fst g) (snd g)) groups)%list
    <> [] ->
    fileMapLoop host fileMap (flat_map group_answers groups ++ "" :: rest)%list tr
    = Done (fileMap ++ map (fun g => stored_item host (fst g) (snd g)) groups)%list
        rest
        (tr ++ flat_map group_questions groups
            ++ [Question basePath_question])%list.
Proof.
  induction 1 as [|[entered patterns] groups Hwf _ IH];
    intros fileMap rest tr Hsome.
  - rewrite app_nil_r in *. simpl.
    destruct fileMap; [contradiction | reflexivity].
  - destruct Hwf as (Hentered & Hpatterns & Hnonblank).
    cbn [fst snd] in Hentered, Hpatterns, Hnonblank.
    replace (flat_map group_answers ((entered, patterns) :: groups)
             ++ "" :: rest)%list
      with (entered :: patterns
            ++ "" :: (flat_map group_answers groups ++ "" :: rest))%list
      by (change (flat_map group_answers ((entered, patterns) :: groups))
            with ((entered :: patterns ++ [""])
                  ++ flat_map group_answers groups)%list;
          cbn [List.app]; rewrite <- !app_assoc; reflexivity).
    rewrite fileMapLoop_step by assumption. unfold Prog.bind.
    rewrite (patterns_of_entered entered patterns Hnonblank [])
      by (simpl; assumption).
    cbn [List.app map fst snd] in *.
    rewrite IH by (rewrite <- app_assoc; exact Hsome).
    change (flat_map group_questions ((entered, patterns) :: groups))
      with (group_questions (entered, patterns)
            ++ flat_map group_questions groups)%list.
    unfold group_questions at 1. cbn [fst snd List.app].
    rewrite <- !app_assoc. reflexivity.
Qed.

End BuilderSessions.

(** ** Complete sessions of the explorers and the builder *)

Section Sessions.

Variable host : Host.

(** X3.  [explore] asks its question again after every answer that is
    not blank, and each such answer adds exactly one line to the
    console: the listing or the file, or the message of the error that
    reading threw.  The first blank answer ends it, nothing is thrown
    to the caller, and the answers after the blank one are left for the
    next question.  Without a blank answer it is still asking. *)
Theorem explore_until_blank path answers :
  Forall (fun answer => answer <> "") answers ->
  forall rest tr,
    explore host path (answers ++ "" :: rest)%list tr
    = Done tt rest
        (tr ++ turns explore_question (explore_event host path) answers
            ++ [Question explore_question])%list
    /\ explore host path answers tr
       = Waiting
           (tr ++ turns explore_question (explore_event host path) answers
               ++ [Question explore_question])%list.
Proof. apply explore_turns. Qed.

(** X4.  [globExplore] behaves in the same way: one test and one
    console line for every answer that is not blank, then the question
    again, until the first blank answer. *)
Theorem globExplore_until_blank path answers :
  Forall (fun answer => answer <> "") answers ->
  forall rest tr,
    globExplore host path (answers ++ "" :: rest)%list tr
    = Done tt rest
        (tr ++ turns globExplore_question (globExplore_event host path) answers
            ++ [Question globExplore_question])%list
    /\ globExplore host path answers tr
       = Waiting
           (tr ++ turns globExplore_question (globExplore_event host path) answers
               ++ [Question globExplore_question])%list.
Proof. apply globExplore_turns. Qed.

(** X5.  A line without a space: the whole line is the base path and
    the pattern given to [glob] is [undefined]; what [glob] makes of
    it is printed, its error included. *)
Theorem globExplore_one_token path line tr :
  count_char " " line = 0 ->
  globExplore_test host path line tr
  = (Ok tt,
     (tr ++ [match glob host None (join host [path; line]) with
             | Ok found => Log (join_with tab found)
             | Throw e => ErrorCaught e ["message"]
             end])%list).
Proof.
  intros H. rewrite globExplore_test_event. unfold globExplore_event, split.
  rewrite split_char_no_sep by assumption. reflexivity.
Qed.

(** X6.  A complete session of [exploreAndGlob]: after the two
    explorers have been ended with a blank answer, every base path is
    followed by its patterns and a blank line, and a blank base path
    ends the builder.  The file map returned holds one item for every
    base path, in the order typed, with exactly the patterns typed for
    it, and the whole session leaves on the trace only the questions,
    the explorers' lines and the heading. *)
Theorem builder_returns_what_was_entered path paths globs groups rest tr :
  Forall (fun answer => answer <> "") paths ->
  Forall (fun answer => answer <> "") globs ->
  Forall well_formed_group groups ->
  groups <> [] ->
  exploreAndGlob host path
    (paths ++ "" :: globs ++ "" :: flat_map group_answers groups ++ "" :: rest)%list
    tr
  = Done (map (fun g => stored_item host (fst g) (snd g)) groups) rest
      (tr ++ turns explore_question (explore_event host path) paths
          ++ [Question explore_question]
          ++ turns globExplore_question (globExplore_event host path) globs
          ++ [Question globExplore_question]
          ++ [Log (nl ++ "File map(s) to use for auto-updating library...")]
          ++ flat_map group_questions groups
          ++ [Question basePath_question])%list.
Proof.
  intros Hpaths Hglobs Hgroups Hsome.
  unfold exploreAndGlob, Prog.bind.
  rewrite (proj1 (explore_turns host path paths Hpaths _ tr)).
  rewrite (proj1 (globExplore_turns host path globs Hglobs _ _)).
  unfold Prog.run, log, Eff.emit.
  rewrite (fileMapLoop_groups host groups Hgroups [])
    by (destruct groups; [contradiction | discriminate]).
  cbn [List.app]. rewrite <- !app_assoc. reflexivity.
Qed.



End Sessions.

(** ** The loops that ask again *)

Section Loops.

Variable host : Host.

Lemma explore_never_fails path ins :
  forall tr, never_fails (explore host path ins tr).
Proof.
  induction ins as [|a ins IH]; intros tr; simpl; [exact I|].
  destruct (a =? ""); [exact I | apply IH].
Qed.

Lemma globExplore_never_fails path ins :
  forall tr, never_fails (globExplore host path ins tr).
Proof.
  induction ins as [|a ins IH]; intros tr; simpl; [exact I|].
  destruct (a =? ""); [exact I | apply IH].
Qed.

Lemma patterns_of_never_fails entered ins :
  forall patterns tr, never_fails (patterns_of entered patterns ins tr).
Proof.
  unfold patterns_of.
  induction ins as [|a ins IH]; intros patterns tr; simpl; [exact I|].
  destruct (a =? ""); [destruct patterns; [apply IH | exact I] | apply IH].
Qed.

Lemma fileMapLoop_never_fails n :
  forall ins fileMap tr,
    List.length ins <= n -> never_fails (fileMapLoop host fileMap ins tr).
Proof.
  induction n as [|n IH]; intros ins fileMap tr Hlen.
  - destruct ins; [exact I | simpl in Hlen; lia].
  - destruct ins as [|entered ins]; [exact I|]. simpl in Hlen.
    destruct (String.eqb_spec entered "") as [->|Hne].
    + simpl. destruct fileMap; [apply IH; lia | exact I].
    + rewrite fileMapLoop_step by assumption. unfold Prog.bind.
      pose proof (patterns_of_never_fails entered ins []
                    (tr ++ [Question basePath_question])%list) as Hp.
      destruct (patterns_of entered [] ins (tr ++ [Question basePath_question])%list)
        as [patterns ins1 tr1| |] eqn:E; [|contradiction|exact I].
      apply patterns_of_Done in E. apply IH. lia.
Qed.

(** Every error of the two explorers is caught and printed, and the
    builder calls nothing that throws. *)
Lemma exploreAndGlob_never_fails path ins tr :
  never_fails (exploreAndGlob host path ins tr).
Proof.
  unfold exploreAndGlob, Prog.bind, Prog.run, log, Eff.emit.
  pose proof (explore_never_fails path ins tr) as H1.
  destruct (explore host path ins tr) as [u ins1 tr1| |];
    [|contradiction|exact I].
  pose proof (globExplore_never_fails path ins1 tr1) as H2.
  destruct (globExplore host path ins1 tr1) as [u2 ins2 tr2| |];
    [|contradiction|exact I].
  apply (fileMapLoop_never_fails (List.length ins2)). lia.
Qed.

(** X7.  [updateChoice] returns only the numbers 1 and 2: the value
    returned is [Number] of the first answer that, once trimmed, is
    read as 1 or 2, every answer before it was rejected, and the choice
    never throws. *)
Theorem updateChoice_result ins :
  forall tr,
    match updateChoice host ins tr with
    | Done choice ins' tr' =>
        (choice = JNum 1 \/ choice = JNum 2)
        /\ exists rejected accepted,
             ins = (rejected ++ accepted :: ins')%list
             /\ Number host (trim accepted) = choice
             /\ Forall (fun a => is_1_or_2 (Number host (trim a)) = false) rejected
    | Failed _ _ => False
    | Waiting _ =>
        Forall (fun a => is_1_or_2 (Number host (trim a)) = false) ins
    end.
Proof.
  induction ins as [|a ins IH]; intros tr; simpl; [constructor|].
  destruct (is_1_or_2 (Number host (trim a))) eqn:E.
  - split.
    + unfold is_1_or_2 in E. destruct (Number host (trim a)); try discriminate.
      apply orb_true_iff in E. destruct E as [E|E]; apply Z.eqb_eq in E;
        subst; auto.
    + exists [], a. repeat split. constructor.
  - specialize (IH (tr ++ [Question updateChoice_question;
                           Error "Please select either '1' or '2' for auto-update."])%list).
    destruct (updateChoice host ins _) as [c ins' tr'| |].
    + destruct IH as (Hc & rejected & accepted & -> & Hn & Hr).
      split; [exact Hc|]. exists (a :: rejected), accepted.
      repeat split; [assumption | constructor; assumption].
    + exact IH.
    + constructor; assumption.
Qed.

(** X8.  [githubRepo] returns only an owner and a name that
    [gitUrlParse] found in one of the answers, for the source
    [github.com], both of them truthy; it never throws, as an answer
    that does not parse is asked again. *)
Theorem githubRepo_result ins :
  forall tr,
    match githubRepo host ins tr with
    | Done (repoOwner, repoName) ins' tr' =>
        exists repoInput parsedRepo,
          In repoInput ins
          /\ gitUrlParse host repoInput = Ok parsedRepo
          /\ prop parsedRepo "source" = Ok (JStr "github.com")
          /\ prop parsedRepo "owner" = Ok repoOwner
          /\ prop parsedRepo "name" = Ok repoName
          /\ truthy repoOwner = true /\ truthy repoName = true
    | Failed _ _ => False
    | Waiting _ => True
    end.
Proof.
  induction ins as [|a ins IH]; intros tr; simpl; [exact I|].
  destruct (parse_repo host a) as [[[o n]|]|e] eqn:E.
  - exists a. unfold parse_repo in E.
    destruct (gitUrlParse host a) as [parsed|]; simpl in E; [|discriminate].
    exists parsed.
    destruct (prop parsed "source") as [source|]; simpl in E; [|discriminate].
    destruct (is_string source "github.com") eqn:Hs; [|discriminate].
    destruct source; try discriminate. simpl in Hs.
    apply String.eqb_eq in Hs. subst.
    destruct (prop parsed "owner") as [owner|]; simpl in E; [|discriminate].
    destruct (truthy owner) eqn:Ho; [|discriminate].
    destruct (prop parsed "name") as [name|]; simpl in E; [|discriminate].
    destruct (truthy name) eqn:Hn; [|discriminate].
    inversion E; subst. repeat split; try assumption; try reflexivity. now left.
  - match goal with
    | |- match githubRepo host ins ?t with _ => _ end =>
        specialize (IH t); destruct (githubRepo host ins t) as [[o n] ins' tr'| |];
        [|exact IH|exact I]
    end;
    destruct IH as (r & p & Hin & Hrest); exists r, p;
    split; [now right | exact Hrest].
  - match goal with
    | |- match githubRepo host ins ?t with _ => _ end =>
        specialize (IH t); destruct (githubRepo host ins t) as [[o n] ins' tr'| |];
        [|exact IH|exact I]
    end;
    destruct IH as (r & p & Hin & Hrest); exists r, p;
    split; [now right | exact Hrest].
Qed.

End Loops.

(** ** The pull request and the entry point *)

Section Publishing.

Variable host : Host.

(** X9.  The request [createPR] sends: title and commit message are
    the same text, built from the name and the source of the record;
    the one file is the record's path with the serialised record and a
    final newline; the branch is the configured prefix followed by the
    name; the body names source and target and, only when an additional
    text is given, that text after an empty line. *)
Theorem createPR_request_shape data body tr r request :
  createPR host data body tr = (r, (tr ++ [PullRequest request])%list) ->
  exists name source target,
    obj_get data "name" = JStr name
    /\ prop (obj_get data "autoupdate") "source" = Ok source
    /\ prop (obj_get data "autoupdate") "target" = Ok target
    /\ pr_title request
       = "Add " ++ name ++ " w/ " ++ ToString source ++ " auto-update"
    /\ pr_files request
       = [(package_file name, JSON_stringify host (JObj data) ++ nl)]
    /\ pr_commit request = pr_title request
    /\ pr_head request = branchBase host ++ name
    /\ pr_owner request = targetRepoOwner host
    /\ pr_repo request = targetRepoName host
    /\ pr_body request
       = "Adding " ++ name ++ " using " ++ ToString source
         ++ " auto-update from " ++ ToString target ++ "."
         ++ (if body =? "" then "" else nl ++ nl ++ body).
Proof.
  unfold createPR, Eff.bind, Eff.pure, Eff.emit.
  destruct (prop (obj_get data "autoupdate") "source") as [source|e1].
  2:{ intros H. inversion H as [[Hr Htr]]. now apply trace_grows in Htr. }
  destruct (as_string (obj_get data "name")) as [name|e2] eqn:Hname.
  2:{ intros H. inversion H as [[Hr Htr]]. now apply trace_grows in Htr. }
  destruct (prop (obj_get data "autoupdate") "target") as [target|e3].
  2:{ intros H. inversion H as [[Hr Htr]]. now apply trace_grows in Htr. }
  intros H. inversion H as [[Hr Htr]].
  apply app_inv_head in Htr. inversion Htr as [Hreq].
  assert (Hn : obj_get data "name" = JStr name)
    by (destruct (obj_get data "name"); simpl in Hname; congruence).
  exists name, source, target. rewrite Hn. cbn [ToString pr_title pr_commit
    pr_head pr_owner pr_repo pr_body pr_files].
  repeat split.
  destruct body; reflexivity.
Qed.

(** X10.  For a record without [autoupdate], or whose name is not a
    string, [createPR] throws a [TypeError] before anything is sent. *)
Theorem createPR_refuses_incomplete_record data body tr :
  obj_get data "autoupdate" = JUndef
  \/ as_string (obj_get data "name") = Throw TypeError ->
  createPR host data body tr = (Throw TypeError, tr).
Proof.
  unfold createPR, Eff.bind, Eff.pure.
  intros [Hauto | Hname].
  - rewrite Hauto. reflexivity.
  - destruct (prop (obj_get data "autoupdate") "source") as [source|e] eqn:E.
    + rewrite Hname. reflexivity.
    + apply prop_throws in E. now subst.
Qed.

(** X11.  The last step of [main] when the pull request is created:
    the announcement, the request, and the address of the pull request
    taken from [data.html_url] of the response; the record is not
    printed. *)
Theorem output_after_success data resolves tr request pr response html_url :
  createPR host data (resolves_text resolves) (tr ++ [Log attempt_message])%list
  = (Ok pr, ((tr ++ [Log attempt_message]) ++ [PullRequest request])%list) ->
  prop pr "data" = Ok response ->
  prop response "html_url" = Ok html_url ->
  output host data resolves tr
  = (Ok tt,
     (tr ++ [Log attempt_message; PullRequest request;
             Log (created_message html_url)])%list).
Proof.
  intros H Hdata Hurl.
  unfold output, Eff.try_catch, Eff.bind, log, Eff.emit.
  rewrite H. unfold Eff.pure. rewrite Hdata, Hurl.
  rewrite <- !app_assoc. reflexivity.
Qed.

(** X12.  When the pull request was created but the response has no
    [data.html_url] to read, the [catch] of [main] runs all the same:
    the failure is announced although the request was sent, and the
    file name and the record are printed for manual submission. *)
Theorem output_after_malformed_response data resolves tr request pr e :
  createPR host data (resolves_text resolves) (tr ++ [Log attempt_message])%list
  = (Ok pr, ((tr ++ [Log attempt_message]) ++ [PullRequest request])%list) ->
  rbind (prop pr "data") (fun response => prop response "html_url") = Throw e ->
  exists path document,
    pr_files request = [(path, document ++ nl)]
    /\ output host data resolves tr
       = (Ok tt,
          (tr ++ [Log attempt_message; PullRequest request;
                  Error failure_message;
                  ErrorCaught e []; ErrorCaught e ["message"];
                  ErrorCaught e ["status"];
                  Log (fallback_heading ++ path);
                  Log document])%list).
Proof.
  intros H Hbad.
  destruct (createPR_request _ _ _ _ _ _ H) as (name & Hname & Hfiles & _).
  exists (package_file name), (JSON_stringify host (JObj data)).
  split; [exact Hfiles|].
  unfold output, Eff.try_catch, Eff.bind, log, error, error_caught, Eff.emit.
  rewrite H. unfold Eff.pure.
  destruct (prop pr "data") as [response|e1]; simpl in Hbad.
  - rewrite Hbad, Hname. simpl as_string. cbv beta iota.
    rewrite <- !app_assoc. reflexivity.
  - inversion Hbad; subst. rewrite Hname. simpl as_string. cbv beta iota.
    rewrite <- !app_assoc. reflexivity.
Qed.

(** X13.  When the chosen variant returns no record, [main] ends there:
    the issue is not asked for and no pull request is attempted.  The
    variant is [npm] for the choice 1 and [github] for the choice 2,
    each started on a record that holds only the name given on the
    command line. *)
Theorem main_without_record argv rawName ins tr choice ins1 tr1 ins2 tr2 :
  nth_error argv 2 = Some rawName ->
  rawName <> "" ->
  updateChoice host ins tr = Done choice ins1 tr1 ->
  (choice = JNum 1
   /\ npm host [("name", JStr rawName)] ins1 tr1 = Done None ins2 tr2)
  \/ (choice = JNum 2
      /\ github host [("name", JStr rawName)] ins1 tr1 = Done None ins2 tr2) ->
  main host argv ins tr = Done tt ins2 tr2.
Proof.
  intros Hargv Hname Hchoice Hrun. unfold main. rewrite Hargv.
  destruct rawName as [|c rawName]; [contradiction|].
  unfold Prog.bind. rewrite Hchoice.
  destruct Hrun as [[-> Hrun] | [-> Hrun]]; rewrite Hrun; reflexivity.
Qed.

Lemma main_with_record argv rawName ins tr choice ins1 tr1 record resolves
    ins2 tr2 :
  nth_error argv 2 = Some rawName ->
  rawName <> "" ->
  updateChoice host ins tr = Done choice ins1 tr1 ->
  (choice = JNum 1
   /\ npm host [("name", JStr rawName)] ins1 tr1
      = Done (Some record) (resolves :: ins2) tr2)
  \/ (choice = JNum 2
      /\ github host [("name", JStr rawName)] ins1 tr1
         = Done (Some record) (resolves :: ins2) tr2) ->
  main host argv ins tr
  = Prog.run (output host record resolves) ins2
      (tr2 ++ [Question "Issue this PR resolves (blank to skip): "])%list.
Proof.
  intros Hargv Hname Hchoice Hrun. unfold main. rewrite Hargv.
  destruct rawName as [|c rawName]; [contradiction|].
  unfold Prog.bind. rewrite Hchoice.
  destruct Hrun as [[-> Hrun] | [-> Hrun]]; rewrite Hrun; reflexivity.
Qed.

End Publishing.

(** ** Traces *)

Lemma console_only_refl tr : console_only_since tr tr.
Proof. exists []. now rewrite app_nil_r. Qed.

Lemma console_only_trans tr1 tr2 tr3 :
  console_only_since tr1 tr2 -> console_only_since tr2 tr3 ->
  console_only_since tr1 tr3.
Proof.
  intros (a & -> & Ha) (b & -> & Hb). exists (a ++ b)%list.
  rewrite app_assoc, forallb_app, Ha, Hb. now split.
Qed.

Lemma console_only_step tr added tr' :
  forallb is_console added = true ->
  console_only_since (tr ++ added)%list tr' -> console_only_since tr tr'.
Proof.
  intros Ha H. eapply console_only_trans; [|exact H].
  exists added. now split.
Qed.

Section Traces.

Variable host : Host.

Lemma explore_event_console path a : is_console (explore_event host path a) = true.
Proof.
  unfold explore_event.
  repeat match goal with
         | |- context [match ?x with _ => _ end] => destruct x
         end; reflexivity.
Qed.

Lemma globExplore_event_console path a :
  is_console (globExplore_event host path a) = true.
Proof.
  unfold globExplore_event.
  repeat match goal with
         | |- context [match ?x with _ => _ end] => destruct x
         end; reflexivity.
Qed.

Lemma explore_console path ins :
  forall tr u ins' tr',
    explore host path ins tr = Done u ins' tr' -> console_only_since tr tr'.
Proof.
  induction ins as [|a ins IH]; intros tr u ins' tr'; simpl; [discriminate|].
  destruct (a =? "").
  - intros H. inversion H; subst. exists [Question explore_question]. now split.
  - rewrite explore_list_event. cbn [snd]. intros H. apply IH in H.
    rewrite <- app_assoc in H.
    eapply console_only_step; [|exact H].
    simpl. now rewrite explore_event_console.
Qed.

Lemma globExplore_console path ins :
  forall tr u ins' tr',
    globExplore host path ins tr = Done u ins' tr' -> console_only_since tr tr'.
Proof.
  induction ins as [|a ins IH]; intros tr u ins' tr'; simpl; [discriminate|].
  destruct (a =? "").
  - intros H. inversion H; subst. exists [Question globExplore_question].
    now split.
  - rewrite globExplore_test_event. cbn [snd]. intros H. apply IH in H.
    rewrite <- app_assoc in H.
    eapply console_only_step; [|exact H].
    simpl. now rewrite globExplore_event_console.
Qed.

Lemma patterns_of_console entered ins :
  forall patterns tr found ins' tr',
    patterns_of entered patterns ins tr = Done found ins' tr' ->
    console_only_since tr tr'.
Proof.
  unfold patterns_of.
  induction ins as [|a ins IH]; intros patterns tr found ins' tr'; simpl;
    [discriminate|].
  destruct (a =? "").
  - destruct patterns.
    + intros H. apply IH in H. eapply console_only_step; [|exact H]. reflexivity.
    + unfold Prog.ret. intros H. inversion H; subst.
      exists [Question (pattern_question entered)]. now split.
  - intros H. apply IH in H. eapply console_only_step; [|exact H]. reflexivity.
Qed.

Lemma fileMapLoop_console n :
  forall ins fileMap tr result ins' tr',
    List.length ins <= n ->
    fileMapLoop host fileMap ins tr = Done result ins' tr' ->
    console_only_since tr tr'.
Proof.
  induction n as [|n IH]; intros ins fileMap tr result ins' tr' Hlen.
  - destruct ins; [simpl; discriminate | simpl in Hlen; lia].
  - destruct ins as [|entered ins]; [simpl; discriminate|]. simpl in Hlen.
    destruct (String.eqb_spec entered "") as [->|Hne].
    + simpl. destruct fileMap as [|item fileMap].
      * intros H. apply IH in H; [|lia].
        eapply console_only_step; [|exact H]. reflexivity.
      * intros H. inversion H; subst. exists [Question basePath_question].
        now split.
    + rewrite fileMapLoop_step by assumption. unfold Prog.bind.
      destruct (patterns_of entered [] ins (tr ++ [Question basePath_question])%list)
        as [patterns ins1 tr1| |] eqn:Hp; try discriminate.
      intros H. apply IH in H; [|apply patterns_of_Done in Hp; lia].
      apply patterns_of_console in Hp.
      eapply console_only_step with (added := [Question basePath_question]);
        [reflexivity|].
      eapply console_only_trans; eassumption.
Qed.

Lemma exploreAndGlob_console path ins tr fileMap ins' tr' :
  exploreAndGlob host path ins tr = Done fileMap ins' tr' ->
  console_only_since tr tr'.
Proof.
  unfold exploreAndGlob, Prog.bind, Prog.run, log, Eff.emit.
  destruct (explore host path ins tr) as [u1 ins1 tr1| |] eqn:H1;
    try discriminate.
  destruct (globExplore host path ins1 tr1) as [u2 ins2 tr2| |] eqn:H2;
    try discriminate.
  intros H. apply (fileMapLoop_console (List.length ins2)) in H; [|lia].
  apply explore_console in H1. apply globExplore_console in H2.
  eapply console_only_trans; [exact H1|].
  eapply console_only_trans; [exact H2|].
  eapply console_only_step; [|exact H]. reflexivity.
Qed.

Lemma exploreAndGlob_invariant path ins tr fileMap ins' tr' :
  exploreAndGlob host path ins tr = Done fileMap ins' tr' ->
  fileMap <> [] /\ every_item_has_patterns fileMap.
Proof.
  unfold exploreAndGlob, Prog.bind, Prog.run, log, Eff.emit.
  destruct (explore host path ins tr) as [u1 ins1 tr1| |]; try discriminate.
  destruct (globExplore host path ins1 tr1) as [u2 ins2 tr2| |];
    try discriminate.
  intros H. apply (fileMapLoop_invariant host (List.length ins2)) in H;
    [exact H | lia | constructor].
Qed.

Lemma chooseDefault_Done path fileMap version ins tr answer ins' tr' :
  chooseDefault host path fileMap version ins tr = Done answer ins' tr' ->
  ins = answer :: ins' /\ console_only_since tr tr'.
Proof.
  unfold chooseDefault, Prog.bind, Prog.run, log, Eff.emit, input.
  destruct ins as [|a ins]; [discriminate|].
  intros H. inversion H; subst. split; [reflexivity|].
  rewrite <- app_assoc. eexists. split; [reflexivity|reflexivity].
Qed.

End Traces.

(** ** The answers a run reads *)

Section Consumed.

Variable host : Host.

Lemma explore_consumes path ins :
  forall tr u ins' tr',
    explore host path ins tr = Done u ins' tr' ->
    exists consumed, ins = (consumed ++ ins')%list.
Proof.
  induction ins as [|a ins IH]; intros tr u ins' tr'; cbn [explore];
    [discriminate|].
  destruct (a =? "").
  - intros H. inversion H; subst. now exists [a].
  - intros H. apply IH in H. destruct H as (consumed & ->).
    now exists (a :: consumed).
Qed.

Lemma globExplore_consumes path ins :
  forall tr u ins' tr',
    globExplore host path ins tr = Done u ins' tr' ->
    exists consumed, ins = (consumed ++ ins')%list.
Proof.
  induction ins as [|a ins IH]; intros tr u ins' tr'; cbn [globExplore];
    [discriminate|].
  destruct (a =? "").
  - intros H. inversion H; subst. now exists [a].
  - intros H. apply IH in H. destruct H as (consumed & ->).
    now exists (a :: consumed).
Qed.

Lemma patterns_of_consumes entered ins :
  forall patterns tr found ins' tr',
    patterns_of entered patterns ins tr = Done found ins' tr' ->
    exists consumed, ins = (consumed ++ ins')%list.
Proof.
  unfold patterns_of.
  induction ins as [|a ins IH]; intros patterns tr found ins' tr';
    simpl; [discriminate|].
  destruct (a =? "").
  - destruct patterns as [|p ps].
    + intros H. apply IH in H. destruct H as (consumed & ->).
      now exists (a :: consumed).
    + unfold Prog.ret. intros H. inversion H; subst. now exists [a].
  - intros H. apply IH in H. destruct H as (consumed & ->).
    now exists (a :: consumed).
Qed.

Lemma fileMapLoop_consumes n :
  forall ins fileMap tr result ins' tr',
    List.length ins <= n ->
    fileMapLoop host fileMap ins tr = Done result ins' tr' ->
    exists consumed, ins = (consumed ++ ins')%list.
Proof.
  induction n as [|n IH]; intros ins fileMap tr result ins' tr' Hlen.
  - destruct ins; [simpl; discriminate | simpl in Hlen; lia].
  - destruct ins as [|entered ins]; [simpl; discriminate|].
    simpl in Hlen.
    destruct (String.eqb_spec entered "") as [->|Hne].
    + simpl. destruct fileMap as [|item fileMap].
      * intros H. apply IH in H; [|lia]. destruct H as (consumed & ->).
        now exists ("" :: consumed).
      * intros H. inversion H; subst. now exists [""].
    + rewrite fileMapLoop_step by assumption. unfold Prog.bind.
      destruct (patterns_of entered [] ins
                  (tr ++ [Question basePath_question])%list)
        as [patterns ins1 tr1| |] eqn:Hp; try discriminate.
      pose proof (patterns_of_Done _ _ _ _ _ _ _ Hp) as [_ Hshorter].
      apply patterns_of_consumes in Hp. destruct Hp as (consumed1 & ->).
      intros H. apply IH in H; [|lia]. destruct H as (consumed2 & ->).
      exists (entered :: consumed1 ++ consumed2)%list.
      cbn [List.app]. now rewrite app_assoc.
Qed.

Lemma exploreAndGlob_consumes path ins tr fileMap ins' tr' :
  exploreAndGlob host path ins tr = Done fileMap ins' tr' ->
  exists consumed, ins = (consumed ++ ins')%list.
Proof.
  unfold exploreAndGlob, Prog.bind, Prog.run, log, Eff.emit.
  destruct (explore host path ins tr) as [u1 ins1 tr1| |] eqn:H1;
    try discriminate.
  destruct (globExplore host path ins1 tr1) as [u2 ins2 tr2| |] eqn:H2;
    try discriminate.
  intros H. apply (fileMapLoop_consumes (List.length ins2)) in H; [|lia].
  apply explore_consumes in H1. apply globExplore_consumes in H2.
  destruct H1 as (c1 & ->), H2 as (c2 & ->), H as (c3 & ->).
  exists (c1 ++ c2 ++ c3)%list. now rewrite <- !app_assoc.
Qed.

Lemma githubRepo_consumes ins :
  forall tr repo ins' tr',
    githubRepo host ins tr = Done repo ins' tr' ->
    exists consumed, ins = (consumed ++ ins')%list.
Proof.
  induction ins as [|a ins IH]; intros tr repo ins' tr' H;
    cbn [githubRepo] in H; [discriminate|].
  destruct (parse_repo host a) as [[found|]|e].
  - inversion H; subst. now exists [a].
  - apply IH in H. destruct H as (consumed & ->). now exists (a :: consumed).
  - apply IH in H. destruct H as (consumed & ->). now exists (a :: consumed).
Qed.

End Consumed.

(** ** Runs of the registry variant *)

Section RegistryRuns.

Variable host : Host.

Lemma npm_inversion cdnjsData ins tr record ins' tr' :
  npm host cdnjsData ins tr = Done (Some record) ins' tr' ->
  exists answer rest jsonData dist_tags latest versions jsonVersionData name
         authors tarPath dist tarball first fullPath fileMap ins1 tr1
         defaultFile tr2,
    ins = answer :: rest
    /\ fetch_json host (registry_url cdnjsData answer) = Ok jsonData
    /\ prop jsonData "dist-tags" = Ok dist_tags
    /\ prop dist_tags "latest" = Ok latest
    /\ prop jsonData "versions" = Ok versions
    /\ prop versions (ToString latest) = Ok jsonVersionData
    /\ prop jsonData "name" = Ok name
    /\ transformAuthors (npm_raw_authors (spread2 jsonVersionData jsonData))
       = Ok authors
    /\ path_join host [JStr (dirname host); JStr "temp"; name; latest]
       = Ok tarPath
    /\ prop jsonVersionData "dist" = Ok dist
    /\ prop dist "tarball" = Ok tarball
    /\ getFirstDirectory host tarPath = Ok first
    /\ path_join host [JStr tarPath; first] = Ok fullPath
    /\ exploreAndGlob host fullPath rest
         (tr ++ [Question (npm_question cdnjsData);
                 Log ("Located " ++ ToString name ++ "@" ++ ToString latest
                      ++ "...")]
             ++ download_events host tarball tarPath
             ++ [Log ("Downloaded " ++ ToString name ++ "@" ++ ToString latest
                      ++ "..." ++ nl)])%list
       = Done fileMap ins1 tr1
    /\ chooseDefault host fullPath fileMap latest ins1 tr1
       = Done defaultFile ins' tr2
    /\ rmdir host tarPath = Ok tt
    /\ tr' = (tr2 ++ [Rmdir tarPath])%list
    /\ record
       = (let data :=
            obj_set
              (obj_set
                 (store_basic_info cdnjsData (spread2 jsonVersionData jsonData))
                 "authors" (JArr authors))
              "autoupdate" (npm_autoupdate name fileMap) in
          if defaultFile =? "" then data
          else obj_set data "filename" (JStr defaultFile)).
Proof.
  unfold npm. intros H.
  step H.
  match goal with
  | Hin : input _ ins tr = Done ?a ?i ?t |- _ =>
      unfold input in Hin; destruct ins as [|answer rest];
      [discriminate Hin|]; inversion Hin; subst a i t; clear Hin
  end.
  step H. step H.
  match type of H with
  | (if truthy ?e then _ else _) _ _ = _ => destruct (truthy e)
  end.
  { step H. unfold Prog.ret in H. discriminate H. }
  do 5 step H.
  step H.
  match goal with
  | Hl : log _ _ = (Ok _, ?t) |- _ =>
      unfold log, Eff.emit in Hl; inversion Hl; subst t; clear Hl
  end.
  do 4 step H.
  step H.
  match goal with
  | Hd : Eff.bind _ _ _ = (Ok _, ?t) |- _ =>
      rename Hd into Hdown
  end.
  do 2 step H. step H.
  match goal with
  | Hl : log _ _ = (Ok _, ?t) |- _ =>
      unfold log, Eff.emit in Hl; inversion Hl; subst t; clear Hl
  end.
  step H. step H. step H.
  match goal with
  | Hr : Eff.bind _ _ _ = (Ok _, ?t) |- _ =>
      rename Hr into Hrm
  end.
  unfold Prog.ret in H. inversion H; subst; clear H.
  unfold Eff.bind, Eff.emit, Eff.pure in Hrm.
  match type of Hrm with
  | context [rmdir host ?p] =>
      destruct (rmdir host p) as [[]|] eqn:Hrmdir; [|discriminate Hrm]
  end.
  inversion Hrm; subst; clear Hrm.
  match type of Hdown with
  | Eff.bind (Eff.emit (Download ?u ?p)) _ ?t = (_, ?t') =>
      assert (Hdl : t' = (t ++ download_events host u p)%list);
      [ unfold Eff.bind, Eff.emit, Eff.try_catch, Eff.pure, error_caught,
          download_events in *;
        destruct (download host u p); inversion Hdown; subst;
        simpl; rewrite <- ?app_assoc; reflexivity
      | subst t'; clear Hdown ]
  end.
  repeat match goal with
         | |- exists _, _ => eexists
         end.
  repeat (split; [first [eassumption | reflexivity]|]).
  split.
  { match goal with
    | He : exploreAndGlob host _ _ _ = Done _ _ _ |- _ =>
        rewrite <- !app_assoc in He; exact He
    end. }
  repeat (split; [first [eassumption | reflexivity]|]).
  reflexivity.
Qed.

End RegistryRuns.

Lemma transformAuthors_clean authors cleaned :
  transformAuthors authors = Ok cleaned -> Forall clean_author cleaned.
Proof.
  unfold transformAuthors. intros H.
  eapply map_result_Forall; [|exact H].
  intros x y Hxy. exact (transformAuthor_fields _ _ Hxy).
Qed.

Section RegistryRecords.

Variable host : Host.

(** X14.  A record returned by [npm], started as [main] starts it:
    its members are name, description, keywords, license, homepage,
    repository, authors and autoupdate, in this order, followed by
    filename exactly when the default file answered is not blank, and
    filename is then that answer.  The default file is the last answer
    the run reads, after those [exploreAndGlob] reads for the file map
    of the record.  The name is the one of the command line, the
    target of the auto-update is the name the registry gave, the
    authors are cleaned, and the file map is not empty and has no item
    without patterns. *)
Theorem npm_record rawName ins tr record ins' tr' :
  npm host [("name", JStr rawName)] ins tr = Done (Some record) ins' tr' ->
  exists jsonData name authors fileMap defaultFile,
    (exists answer consumed fullPath tr0 tr1,
       ins = (answer :: consumed ++ defaultFile :: ins')%list
       /\ fetch_json host (registry_url [("name", JStr rawName)] answer)
          = Ok jsonData
       /\ exploreAndGlob host fullPath (consumed ++ defaultFile :: ins')%list tr0
          = Done fileMap (defaultFile :: ins') tr1)
    /\ prop jsonData "name" = Ok name
    /\ map fst record
       = (record_keys ++ if defaultFile =? "" then [] else ["filename"])%list
    /\ obj_get record "name" = JStr rawName
    /\ obj_get record "authors" = JArr authors
    /\ Forall clean_author authors
    /\ obj_get record "autoupdate" = npm_autoupdate name fileMap
    /\ fileMap <> []
    /\ every_item_has_patterns fileMap
    /\ obj_get record "filename"
       = (if defaultFile =? "" then JUndef else JStr defaultFile).
Proof.
  intros H. apply npm_inversion in H.
  destruct H as (answer & rest & jsonData & dist_tags & latest & versions
                 & jsonVersionData & name & authors & tarPath & dist & tarball
                 & first & fullPath & fileMap & ins1 & tr1 & defaultFile & tr2
                 & -> & Hfetch & _ & _ & _ & _ & Hname & Hauthors & _ & _ & _
                 & _ & _ & Hexplore & Hdefault & _ & _ & ->).
  exists jsonData, name, authors, fileMap, defaultFile.
  apply chooseDefault_Done in Hdefault. destruct Hdefault as [-> _].
  destruct (exploreAndGlob_consumes _ _ _ _ _ _ _ Hexplore) as (consumed & ->).
  split; [exists answer, consumed; do 3 eexists;
          split; [reflexivity | split; [exact Hfetch | exact Hexplore]]|].
  split; [exact Hname|].
  apply exploreAndGlob_invariant in Hexplore.
  apply transformAuthors_clean in Hauthors.
  unfold store_basic_info. cbn [obj_set String.eqb Ascii.eqb Bool.eqb].
  destruct (defaultFile =? "");
    cbn [obj_set obj_get map fst String.eqb Ascii.eqb Bool.eqb List.app];
    repeat split; tauto.
Qed.

End RegistryRecords.

(** ** Runs from another trace, and with another download *)

Lemma exploreAndGlob_with_download host d :
  exploreAndGlob (with_download host d) = exploreAndGlob host.
Proof. reflexivity. Qed.

Lemma chooseDefault_with_download host d :
  chooseDefault (with_download host d) = chooseDefault host.
Proof. reflexivity. Qed.

Lemma after_trace_app {A} tr1 tr2 (o : outcome A) :
  after_trace tr1 (after_trace tr2 o) = after_trace (tr1 ++ tr2)%list o.
Proof. destruct o; simpl; now rewrite app_assoc. Qed.

Section Frames.

Variable host : Host.

Lemma explore_frame path ins :
  forall tr, explore host path ins tr = after_trace tr (explore host path ins []).
Proof.
  induction ins as [|a ins IH]; intros tr; cbn [explore].
  - reflexivity.
  - destruct (a =? ""); [reflexivity|].
    rewrite !explore_list_event. cbn [snd].
    rewrite IH, (IH (([] ++ _) ++ _)%list), after_trace_app.
    now rewrite <- !app_assoc.
Qed.

Lemma globExplore_frame path ins :
  forall tr,
    globExplore host path ins tr = after_trace tr (globExplore host path ins []).
Proof.
  induction ins as [|a ins IH]; intros tr; cbn [globExplore].
  - reflexivity.
  - destruct (a =? ""); [reflexivity|].
    rewrite !globExplore_test_event. cbn [snd].
    rewrite IH, (IH (([] ++ _) ++ _)%list), after_trace_app.
    now rewrite <- !app_assoc.
Qed.

Lemma patterns_of_frame entered ins :
  forall patterns tr,
    patterns_of entered patterns ins tr
    = after_trace tr (patterns_of entered patterns ins []).
Proof.
  unfold patterns_of.
  induction ins as [|a ins IH]; intros patterns tr; simpl.
  - reflexivity.
  - destruct (a =? "").
    + destruct patterns as [|p ps]; [|reflexivity].
      rewrite IH, (IH _ [_; _]), after_trace_app. reflexivity.
    + rewrite IH, (IH _ [_]), after_trace_app. reflexivity.
Qed.

Lemma fileMapLoop_frame n :
  forall ins fileMap tr,
    List.length ins <= n ->
    fileMapLoop host fileMap ins tr
    = after_trace tr (fileMapLoop host fileMap ins []).
Proof.
  induction n as [|n IH]; intros ins fileMap tr Hlen.
  - destruct ins; [reflexivity | simpl in Hlen; lia].
  - destruct ins as [|entered ins]; [reflexivity|]. simpl in Hlen.
    destruct (String.eqb_spec entered "") as [->|Hne].
    + simpl. destruct fileMap as [|item fileMap]; [|reflexivity].
      rewrite IH, (IH _ _ [_; _]), after_trace_app by lia. reflexivity.
    + rewrite !fileMapLoop_step by assumption. unfold Prog.bind.
      rewrite patterns_of_frame,
        (patterns_of_frame entered ins [] ([] ++ _)%list).
      destruct (patterns_of entered [] ins []) as [patterns ins1 tr1| |] eqn:Hp;
        cbn [after_trace List.app];
        [|rewrite <- ?app_assoc; reflexivity..].
      apply patterns_of_Done in Hp. destruct Hp as [_ Hshorter].
      rewrite IH, (IH _ _ (_ :: _)), after_trace_app by lia.
      now rewrite <- app_assoc.
Qed.

Lemma exploreAndGlob_frame path ins tr :
  exploreAndGlob host path ins tr
  = after_trace tr (exploreAndGlob host path ins []).
Proof.
  unfold exploreAndGlob, Prog.bind, Prog.run, log, Eff.emit.
  rewrite explore_frame.
  destruct (explore host path ins []) as [u1 ins1 tr1| |];
    cbn [after_trace]; [|reflexivity..].
  rewrite globExplore_frame, (globExplore_frame path ins1 tr1).
  destruct (globExplore host path ins1 []) as [u2 ins2 tr2| |];
    cbn [after_trace List.app];
        [|rewrite <- ?app_assoc; reflexivity..].
  rewrite (fileMapLoop_frame (List.length ins2)) by lia.
  rewrite (fileMapLoop_frame (List.length ins2) ins2 [] ((tr1 ++ tr2) ++ _)%list)
    by lia.
  rewrite after_trace_app. f_equal. now rewrite <- !app_assoc.
Qed.

Lemma chooseDefault_frame path fileMap version ins tr :
  chooseDefault host path fileMap version ins tr
  = after_trace tr (chooseDefault host path fileMap version ins []).
Proof.
  unfold chooseDefault, Prog.bind, Prog.run, log, Eff.emit, input.
  destruct ins; cbn [after_trace List.app]; now rewrite <- !app_assoc.
Qed.

End Frames.

Lemma after_trace_Done {A} tr (o : outcome A) a ins t :
  after_trace tr o = Done a ins t ->
  exists added, o = Done a ins added /\ t = (tr ++ added)%list.
Proof.
  destruct o; simpl; intros H; inversion H; subst. eexists. now split.
Qed.

Section RegistryTraces.

Variable host : Host.

(** X15.  A run of [npm] that returns a record downloads once, into
    [temp/<name>/<latest>] under the tool's directory, and removes that
    directory as its last action; everything else it does is on the
    console.  A failed download is caught and printed, and the run goes
    on: with a download that throws, the same run returns the same
    record after the same answers, and its trace differs by the printed
    error only. *)
Theorem npm_downloads_once_and_cleans_up cdnjsData ins tr record ins' tr' :
  npm host cdnjsData ins tr = Done (Some record) ins' tr' ->
  exists name latest tarball tarPath before after,
    path_join host [JStr (dirname host); JStr "temp"; name; latest] = Ok tarPath
    /\ tr' = (tr ++ before ++ download_events host tarball tarPath
                 ++ after ++ [Rmdir tarPath])%list
    /\ forallb is_console before = true
    /\ forallb is_console after = true
    /\ rmdir host tarPath = Ok tt
    /\ forall d e,
         d tarball tarPath = Throw e ->
         npm (with_download host d) cdnjsData ins tr
         = Done (Some record) ins'
             (tr ++ before
                 ++ [Download tarball tarPath;
                     ErrorCaught e ["message"; "stack"]]
                 ++ after ++ [Rmdir tarPath])%list.
Proof.
  intros H. pose proof H as H0. apply npm_inversion in H.
  destruct H as (answer & rest & jsonData & dist_tags & latest & versions
                 & jsonVersionData & name & authors & tarPath & dist & tarball
                 & first & fullPath & fileMap & ins1 & tr1 & defaultFile & tr2
                 & -> & Hfetch & Htags & Hlatest & Hversions & Hversion & Hname
                 & Hauthors & Hpath & Hdist & Htarball & Hfirst & Hfull
                 & Hexplore & Hdefault & Hrmdir & -> & ->).
  rewrite exploreAndGlob_frame in Hexplore.
  apply after_trace_Done in Hexplore.
  destruct Hexplore as (added1 & Hexplore & ->).
  rewrite chooseDefault_frame in Hdefault.
  apply after_trace_Done in Hdefault.
  destruct Hdefault as (added2 & Hdefault & ->).
  pose proof (exploreAndGlob_console _ _ _ _ _ _ _ Hexplore)
    as (added1' & Heq1 & Hadded1).
  pose proof (chooseDefault_Done _ _ _ _ _ _ _ _ _ Hdefault)
    as (_ & added2' & Heq2 & Hadded2).
  cbn [List.app] in Heq1, Heq2. subst added1' added2'.
  exists name, latest, tarball, tarPath.
  exists [Question (npm_question cdnjsData);
          Log ("Located " ++ ToString name ++ "@" ++ ToString latest ++ "...")],
    ([Log ("Downloaded " ++ ToString name ++ "@" ++ ToString latest
           ++ "..." ++ nl)] ++ added1 ++ added2)%list.
  split; [exact Hpath|].
  split; [now rewrite <- !app_assoc|].
  split; [reflexivity|].
  split; [cbn [forallb is_console andb List.app];
          now rewrite forallb_app, Hadded1, Hadded2|].
  split; [exact Hrmdir|].
  intros d e Hd.
  assert (Herror : exists registry_error,
             prop jsonData "error" = Ok registry_error
             /\ truthy registry_error = false).
  { unfold npm, Prog.bind, input, Prog.pure, Prog.run, Eff.pure in H0.
    rewrite Hfetch in H0.
    destruct (prop jsonData "error") as [registry_error|]; [|discriminate H0].
    exists registry_error. split; [reflexivity|].
    destruct (truthy registry_error); [discriminate H0 | reflexivity]. }
  destruct Herror as (registry_error & Herror & Hfalsy). clear H0.
  unfold npm.
  change (exploreAndGlob (with_download host d)) with (exploreAndGlob host).
  change (chooseDefault (with_download host d)) with (chooseDefault host).
  change (path_join (with_download host d)) with (path_join host).
  change (getFirstDirectory (with_download host d))
    with (getFirstDirectory host).
  unfold Prog.bind, input, Prog.pure, Prog.run, Eff.pure, Prog.ret,
    Eff.bind, Eff.emit, Eff.try_catch, log, error_caught.
  cbn [fetch_json dirname download rmdir with_download].
  rewrite Hfetch, Herror, Hfalsy, Hversions, Htags, Hlatest, Hversion, Hname,
    Hauthors, Hpath, Hdist, Htarball, Hd, Hfirst, Hfull.
  unfold Eff.emit. cbv beta iota.
  rewrite exploreAndGlob_frame, Hexplore. cbn [after_trace].
  rewrite chooseDefault_frame, Hdefault. cbn [after_trace].
  rewrite Hrmdir. rewrite <- !app_assoc. reflexivity.
Qed.

End RegistryTraces.

Lemma trimStart_all_space s : all_space s = true -> trimStart s = "".
Proof.
  unfold all_space. induction s as [|c s IH]; simpl; [reflexivity|].
  intros H. apply andb_true_iff in H. destruct H as [Hc Hs].
  rewrite Hc. auto.
Qed.

(** X16.  The package asked from the registry: the name of the record
    when the answer is blank or white space only, the trimmed answer
    otherwise. *)
Theorem registry_url_of_answer cdnjsData answer :
  (all_space answer = true ->
   registry_url cdnjsData answer
   = "https://registry.npmjs.com/" ++ ToString (obj_get cdnjsData "name"))
  /\ (trim answer <> "" ->
      registry_url cdnjsData answer
      = "https://registry.npmjs.com/" ++ trim answer).
Proof.
  unfold registry_url, js_or. split.
  - intros H. unfold trim. rewrite (trimStart_all_space _ H). reflexivity.
  - intros H. apply String.eqb_neq in H. simpl. rewrite H. reflexivity.
Qed.

Section RegistryDocuments.

Variable host : Host.

(** X17.  A document of the registry without versions or without
    distribution tags, as for an unpublished package, makes [npm] throw
    a [TypeError] right after its first question: nothing is printed
    and nothing is downloaded. *)
Theorem npm_incomplete_document cdnjsData answer rest tr jsonData
    registry_error e :
  fetch_json host (registry_url cdnjsData answer) = Ok jsonData ->
  prop jsonData "error" = Ok registry_error ->
  truthy registry_error = false ->
  rbind (prop jsonData "versions") (fun versions =>
  rbind (prop jsonData "dist-tags") (fun dist_tags =>
  rbind (prop dist_tags "latest") (fun latest =>
  prop versions (ToString latest)))) = Throw e ->
  npm host cdnjsData (answer :: rest) tr
  = Failed TypeError (tr ++ [Question (npm_question cdnjsData)])%list.
Proof.
  intros Hfetch Herror Hfalsy Hthrow.
  assert (He : e = TypeError).
  { destruct (prop jsonData "versions") as [versions|e1] eqn:E1;
      cbn [rbind] in Hthrow;
      [|apply prop_throws in E1; congruence].
    destruct (prop jsonData "dist-tags") as [dist_tags|e2] eqn:E2;
      cbn [rbind] in Hthrow;
      [|apply prop_throws in E2; congruence].
    destruct (prop dist_tags "latest") as [latest|e3] eqn:E3;
      cbn [rbind] in Hthrow;
      [|apply prop_throws in E3; congruence].
    exact (prop_throws _ _ _ Hthrow). }
  subst e.
  unfold npm, Prog.bind, input, Prog.pure, Prog.run, Eff.pure, Prog.ret.
  rewrite Hfetch, Herror, Hfalsy.
  destruct (prop jsonData "versions") as [versions|e1];
    cbn [rbind] in Hthrow; [|inversion Hthrow; subst; reflexivity].
  destruct (prop jsonData "dist-tags") as [dist_tags|e2];
    cbn [rbind] in Hthrow; [|inversion Hthrow; subst; reflexivity].
  destruct (prop dist_tags "latest") as [latest|e3];
    cbn [rbind] in Hthrow; [|inversion Hthrow; subst; reflexivity].
  now rewrite Hthrow.
Qed.

End RegistryDocuments.

(** ** Runs of the source-host variant *)

Lemma prop_member v k : truthy v = true -> prop v k = Ok (member v k).
Proof. unfold member. destruct v; simpl; try discriminate; reflexivity. Qed.

Section SourceHostRuns.

Variable host : Host.

Lemma github_inversion rawName ins tr record ins' tr' :
  github host [("name", JStr rawName)] ins tr = Done (Some record) ins' tr' ->
  exists repoOwner repoName ins0 tr0 repoData repoTopics
         description keywords license homepage tag tagName tarPath tarball first fullPath more authors fileMap
         ins1 tr1 defaultFile tr2,
    githubRepo host ins tr = Done (repoOwner, repoName) ins0 tr0
    /\ repos_get host repoOwner repoName = Ok repoData
    /\ getAllTopics host repoOwner repoName = Ok repoTopics
    /\ data_member repoData "description" = Ok description
    /\ data_member repoTopics "names" = Ok keywords
    /\ license_id repoData = Ok license
    /\ data_member repoData "homepage" = Ok homepage
    /\ rbind (listTags host repoOwner repoName)
         (fun repoTags => rbind (prop repoTags "data")
         (fun tags => prop tags "0")) = Ok tag
    /\ prop tag "name" = Ok tagName
    /\ path_join host [JStr (dirname host); JStr "temp"; repoOwner; repoName;
                       tagName] = Ok tarPath
    /\ prop tag "tarball_url" = Ok tarball
    /\ download host tarball tarPath = Ok tt
    /\ getFirstDirectory host tarPath = Ok first
    /\ path_join host [JStr tarPath; first] = Ok fullPath
    /\ manifest_authors (read_manifest host fullPath) = Ok more
    /\ transformAuthors
         (manifest_or (read_manifest host fullPath) "author" repoOwner :: more)
       = Ok authors
    /\ exploreAndGlob host fullPath ins0
         (tr0 ++ [Log ("Located " ++ (ToString repoOwner ++ "/" ++ ToString repoName)
                       ++ "@" ++ ToString tagName ++ "...");
                  Download tarball tarPath;
                  Log ("Downloaded " ++ (ToString repoOwner ++ "/" ++ ToString repoName)
                       ++ "@" ++ ToString tagName ++ "..." ++ nl)])%list
       = Done fileMap ins1 tr1
    /\ chooseDefault host fullPath fileMap tagName ins1 tr1
       = Done defaultFile ins' tr2
    /\ rmdir host tarPath = Ok tt
    /\ tr' = (tr2 ++ [Rmdir tarPath])%list
    /\ record
       = ([("name", JStr rawName);
           ("description",
            manifest_or (read_manifest host fullPath) "description" description);
           ("keywords",
            manifest_or (read_manifest host fullPath) "keywords" keywords);
           ("license",
            manifest_or (read_manifest host fullPath) "license" license);
           ("homepage",
            manifest_or (read_manifest host fullPath) "homepage"
              (js_or homepage (github_homepage repoOwner repoName)));
           ("repository", git_repository repoOwner repoName);
           ("authors", JArr authors);
           ("autoupdate", git_autoupdate repoOwner repoName fileMap)]
          ++ if defaultFile =? "" then []
             else [("filename", JStr defaultFile)])%list.
Proof.
  unfold github. intros H.
  step H.
  match goal with
  | x : (jsval * jsval)%type |- _ => destruct x as [repoOwner repoName]
  end.
  cbn [fst snd] in H.
  do 3 step H.
  match type of H with
  | (if ?c then _ else _) _ _ = _ => destruct c eqn:Hcond
  end.
  { step H. unfold Prog.ret in H. discriminate H. }
  do 8 step H.
  step H.
  match goal with
  | Hl : log _ _ = (Ok _, ?t) |- _ =>
      unfold log, Eff.emit in Hl; inversion Hl; subst t; clear Hl
  end.
  do 2 step H. step H.
  match goal with
  | Hd : Eff.bind _ _ _ = (Ok _, ?t) |- _ => rename Hd into Hdown
  end.
  do 2 step H. step H.
  match goal with
  | Hl : log _ _ = (Ok _, ?t) |- _ =>
      unfold log, Eff.emit in Hl; inversion Hl; subst t; clear Hl
  end.
  do 3 step H.
  do 2 step H.
  step H.
  match goal with
  | Hr : Eff.bind _ _ _ = (Ok _, ?t) |- _ => rename Hr into Hrm
  end.
  unfold Prog.ret in H. inversion H; subst; clear H.
  unfold Eff.bind, Eff.emit, Eff.pure in Hrm.
  match type of Hrm with
  | context [rmdir host ?p] =>
      destruct (rmdir host p) as [[]|] eqn:Hrmdir; [|discriminate Hrm]
  end.
  inversion Hrm; subst; clear Hrm.
  unfold Eff.bind, Eff.emit, Eff.pure in Hdown.
  match type of Hdown with
  | context [download host ?u ?p] =>
      destruct (download host u p) as [[]|] eqn:Hdownload; [|discriminate Hdown]
  end.
  inversion Hdown; subst; clear Hdown.
  match goal with
  | Hl : listTags host _ _ = Ok ?t, Hd : prop ?t "data" = Ok ?d,
    Hz : prop ?d "0" = Ok ?tag |- _ =>
      assert (Htag : rbind (listTags host repoOwner repoName)
                       (fun repoTags => rbind (prop repoTags "data")
                       (fun tags => prop tags "0")) = Ok tag)
        by (rewrite Hl; cbn [rbind]; rewrite Hd; exact Hz)
  end.
  match goal with
  | Hm : (if truthy (read_manifest host ?p) then _ else _) = Ok ?m |- _ =>
      destruct (truthy (read_manifest host p)) eqn:Htruthy;
      [rewrite !(prop_member _ _ Htruthy) in Hm; cbn [rbind] in Hm|];
      apply (f_equal (fun r => match r with Ok o => o | Throw _ => [] end)) in Hm;
      cbv beta iota in Hm; subst m
  end.
  all: match goal with
       | Ha : transformAuthors (obj_get _ "author" :: ?more) = Ok ?authors |- _ =>
           cbn [obj_get obj_set String.eqb Ascii.eqb Bool.eqb] in Ha
       end.
  all: match goal with
       | He : exploreAndGlob host _ _ _ = Done _ _ _ |- _ =>
           rewrite <- !app_assoc in He; cbn [List.app] in He
       end.
  all: do 23 eexists.
  all: repeat (split; [first [eassumption | reflexivity]|]).
  all: (split; [unfold manifest_or; rewrite Htruthy; eassumption|]).
  all: repeat (split; [first [eassumption | reflexivity]|]).
  all: unfold manifest_or, git_repository, git_autoupdate, github_homepage,
         clone_url; rewrite Htruthy.
  all: match goal with
       | |- (if ?b then _ else _) = _ => destruct b
       end.
  all: cbn [obj_get obj_set obj_delete String.eqb Ascii.eqb Bool.eqb List.app].
  all: reflexivity.
Qed.

End SourceHostRuns.

Section SourceHostRecords.

Variable host : Host.

Lemma githubRepo_console ins :
  forall tr repo ins' tr',
    githubRepo host ins tr = Done repo ins' tr' -> console_only_since tr tr'.
Proof.
  induction ins as [|repoInput ins IH]; intros tr repo ins' tr' H;
    cbn [githubRepo] in H; [discriminate|].
  destruct (parse_repo host repoInput) as [[found|]|e].
  - inversion H; subst. eexists. split; reflexivity.
  - apply IH in H. eapply console_only_trans; [|exact H].
    eexists. split; reflexivity.
  - apply IH in H. eapply console_only_trans; [|exact H].
    eexists. split; reflexivity.
Qed.

(** X18.  A record returned by [github], started as [main] starts it:
    the same members in the same order as for the registry variant and
    no [author] member, with filename exactly when the default file
    answered is not blank, filename being then that answer.  The
    default file is the last answer the run reads, after those
    [githubRepo] and [exploreAndGlob] read.  The repository and the
    target of the auto-update are the clone address of the repository
    the maintainer gave, the source is [git], the authors are cleaned,
    and the file map is that of [exploreAndGlob], not empty and with
    no item without patterns. *)
Theorem github_record rawName ins tr record ins' tr' :
  github host [("name", JStr rawName)] ins tr = Done (Some record) ins' tr' ->
  exists repoOwner repoName authors fileMap defaultFile,
    (exists asked consumed fullPath tr0 tr1 tr2,
       ins = (asked ++ consumed ++ defaultFile :: ins')%list
       /\ githubRepo host ins tr
          = Done (repoOwner, repoName) (consumed ++ defaultFile :: ins')%list tr0
       /\ exploreAndGlob host fullPath (consumed ++ defaultFile :: ins')%list tr1
          = Done fileMap (defaultFile :: ins') tr2)
    /\ map fst record
       = (record_keys ++ if defaultFile =? "" then [] else ["filename"])%list
    /\ obj_get record "name" = JStr rawName
    /\ obj_get record "repository" = git_repository repoOwner repoName
    /\ obj_get record "authors" = JArr authors
    /\ Forall clean_author authors
    /\ obj_get record "autoupdate" = git_autoupdate repoOwner repoName fileMap
    /\ fileMap <> []
    /\ every_item_has_patterns fileMap
    /\ obj_get record "filename"
       = (if defaultFile =? "" then JUndef else JStr defaultFile).
Proof.
  intros H. apply github_inversion in H.
  destruct H as (repoOwner & repoName & ins0 & tr0 & repoData & repoTopics
                 & description & keywords & license & homepage & tag & tagName
                 & tarPath & tarball & first & fullPath & more & authors
                 & fileMap & ins1 & tr1 & defaultFile & tr2
                 & Hrepo & _ & _ & _ & _ & _ & _ & _ & _ & _ & _ & _ & _ & _
                 & _ & Hauthors & Hexplore & Hdefault & _ & _ & ->).
  exists repoOwner, repoName, authors, fileMap, defaultFile.
  apply chooseDefault_Done in Hdefault. destruct Hdefault as [-> _].
  destruct (exploreAndGlob_consumes _ _ _ _ _ _ _ Hexplore) as (consumed & ->).
  destruct (githubRepo_consumes _ _ _ _ _ _ Hrepo) as (asked & ->).
  split; [exists asked, consumed; do 4 eexists;
          split; [reflexivity | split; [exact Hrepo | exact Hexplore]]|].
  apply exploreAndGlob_invariant in Hexplore.
  apply transformAuthors_clean in Hauthors.
  destruct (defaultFile =? "");
    cbn [obj_get map fst String.eqb Ascii.eqb Bool.eqb List.app];
    repeat split; tauto.
Qed.


(** X20.  A run of [github] that returns a record downloaded once,
    into [temp/<owner>/<name>/<tag>] under the tool's directory, and
    removed that directory as its last action; everything else it did
    was on the console.  Unlike in [npm], the download succeeded: its
    failure is not caught. *)
Theorem github_downloads_once_and_cleans_up rawName ins tr record ins' tr' :
  github host [("name", JStr rawName)] ins tr = Done (Some record) ins' tr' ->
  exists repoOwner repoName tagName tarball tarPath before after,
    path_join host [JStr (dirname host); JStr "temp"; repoOwner; repoName;
                    tagName] = Ok tarPath
    /\ tr' = (tr ++ before ++ [Download tarball tarPath]
                 ++ after ++ [Rmdir tarPath])%list
    /\ forallb is_console before = true
    /\ forallb is_console after = true
    /\ download host tarball tarPath = Ok tt
    /\ rmdir host tarPath = Ok tt.
Proof.
  intros H. apply github_inversion in H.
  destruct H as (repoOwner & repoName & ins0 & tr0 & repoData & repoTopics
                 & description & keywords & license & homepage & tag & tagName
                 & tarPath & tarball & first & fullPath & more & authors
                 & fileMap & ins1 & tr1 & defaultFile & tr2
                 & Hrepo & _ & _ & _ & _ & _ & _ & _ & _ & Hpath & _
                 & Hdownload & _ & _ & _ & _ & Hexplore & Hdefault & Hrmdir
                 & -> & _).
  apply githubRepo_console in Hrepo. destruct Hrepo as (added0 & -> & Hadded0).
  apply exploreAndGlob_console in Hexplore.
  destruct Hexplore as (added1 & -> & Hadded1).
  apply chooseDefault_Done in Hdefault.
  destruct Hdefault as (_ & added2 & -> & Hadded2).
  exists repoOwner, repoName, tagName, tarball, tarPath.
  eexists (added0 ++ [_])%list, (_ :: added1 ++ added2)%list.
  split; [exact Hpath|]. split.
  - rewrite <- !app_assoc. cbn [List.app]. rewrite <- !app_assoc. reflexivity.
  - repeat split; [| | exact Hdownload | exact Hrmdir].
    + rewrite forallb_app, Hadded0. reflexivity.
    + cbn [forallb is_console andb]. rewrite forallb_app, Hadded1, Hadded2.
      reflexivity.
Qed.

End SourceHostRecords.

(** ** The first directory of an archive *)

Lemma filter_no_directory (entries : list (string * bool)) :
  Forall (fun entry => snd entry = false) entries -> filter snd entries = [].
Proof.
  induction 1 as [|[n d] entries Hd _ IH]; [reflexivity|].
  cbn [filter snd] in *. now rewrite Hd.
Qed.

Section FirstDirectory.

Variable host : Host.

(** X21.  [getFirstDirectory] returns the name of the first entry that
    is a directory, in the order of the listing. *)
Theorem getFirstDirectory_first path files name rest :
  readdir_types host path = Ok (files ++ (name, true) :: rest)%list ->
  Forall (fun entry => snd entry = false) files ->
  getFirstDirectory host path = Ok (JStr name).
Proof.
  intros Hread Hfiles. unfold getFirstDirectory. rewrite Hread. cbn [rbind].
  now rewrite filter_app, map_app, (filter_no_directory files Hfiles).
Qed.

(** X22.  When the listing holds no directory, [getFirstDirectory]
    returns [undefined], and joining it to the path, as both variants
    do next, throws a [TypeError]. *)
Theorem getFirstDirectory_none path entries :
  readdir_types host path = Ok entries ->
  Forall (fun entry => snd entry = false) entries ->
  getFirstDirectory host path = Ok JUndef
  /\ rbind (getFirstDirectory host path)
        (fun first => path_join host [JStr path; first])
     = Throw TypeError.
Proof.
  intros Hread Hfiles. unfold getFirstDirectory. rewrite Hread. cbn [rbind].
  rewrite (filter_no_directory entries Hfiles). split; reflexivity.
Qed.

End FirstDirectory.

(** ** Author strings *)

Lemma append_assoc a b c : (a ++ b) ++ c = a ++ (b ++ c).
Proof. induction a as [|x a IH]; simpl; [reflexivity | now rewrite IH]. Qed.

Lemma append_nil_r a : a ++ "" = a.
Proof. induction a as [|x a IH]; simpl; [reflexivity | now rewrite IH]. Qed.

Lemma length_append a b :
  String.length (a ++ b) = String.length a + String.length b.
Proof. induction a as [|x a IH]; simpl; [reflexivity | now rewrite IH]. Qed.

Lemma substring_0_length a b : substring 0 (String.length a) (a ++ b) = a.
Proof. induction a as [|x a IH]; simpl; [now destruct b | now rewrite IH]. Qed.

Lemma substring_skip a n b :
  substring (String.length a) n (a ++ b) = substring 0 n b.
Proof. induction a as [|x a IH]; simpl; [reflexivity | exact IH]. Qed.

Lemma substring_all a : substring 0 (String.length a) a = a.
Proof. rewrite <- (append_nil_r a) at 2. apply substring_0_length. Qed.

(** *** The matcher on ordinary text *)

Lemma orelse_None x : orelse x (fun _ => None) = x.
Proof. now destruct x. Qed.

Lemma plain_char_dot c : plain_char c = true -> atom_ok Dot c = true.
Proof.
  unfold plain_char, atom_ok. intros H. apply negb_true_iff in H.
  repeat (apply orb_false_iff in H; destruct H as [H ?]). now apply negb_true_iff.
Qed.

Lemma plain_char_not c close :
  plain_char c = true -> close = ">"%char \/ close = ")"%char ->
  Ascii.eqb c close = false.
Proof.
  unfold plain_char. intros H Hc. apply negb_true_iff in H.
  repeat (apply orb_false_iff in H; destruct H as [H ?]).
  destruct Hc; subst; assumption.
Qed.

Section Segments.

Variable input : string.

(** The greedy [.*] before a closing bracket finds nothing to close on
    in text without that bracket. *)
Lemma star_greedy_no_close close k s :
  count_char close s = 0 ->
  forall pos caps,
    star_greedy Dot (matcher input (Atom (Chr close)) k) pos s caps = None.
Proof.
  induction s as [|c s IH]; simpl; intros Hs pos caps; [reflexivity|].
  destruct (Ascii.eqb c close) eqn:Hc; [discriminate|]. simpl in Hs.
  destruct (negb (is_line_terminator c)); [|reflexivity].
  now rewrite (IH Hs).
Qed.

(** The greedy [.*] runs over ordinary text up to the closing bracket
    that is the last one. *)
Lemma star_greedy_to_close close k e t :
  close = ">"%char \/ close = ")"%char ->
  plain e = true ->
  count_char close t = 0 ->
  forall pos caps,
    star_greedy Dot (matcher input (Atom (Chr close)) k) pos
      (e ++ String close t) caps
    = k (pos + String.length e + 1) t caps.
Proof.
  intros Hclose He Ht. induction e as [|c e IH]; intros pos caps.
  - cbn [append star_greedy]. 
    assert (Hdot : atom_ok Dot close = true) by (destruct Hclose; subst; reflexivity).
    rewrite Hdot, (star_greedy_no_close close k t Ht).
    cbn [orelse matcher atom_ok]. rewrite Ascii.eqb_refl.
    simpl String.length. now replace (pos + 0 + 1) with (S pos) by lia.
  - simpl in He. apply andb_true_iff in He. destruct He as [Hc He].
    cbn [append star_greedy]. rewrite (plain_char_dot c Hc), (IH He).
    cbn [matcher atom_ok]. rewrite (plain_char_not c close Hc Hclose).
    rewrite orelse_None. simpl String.length. f_equal. lia.
Qed.

Lemma segment_matches open close k e t :
  close = ">"%char \/ close = ")"%char ->
  plain e = true -> e <> "" ->
  count_char close t = 0 ->
  forall pos caps,
    matcher input
      (lit (String " " (String open ""))
         (Seq dot_plus (Atom (Chr close))))
      k pos (String " " (String open (e ++ String close t))) caps
    = k (pos + 3 + String.length e) t caps.
Proof.
  intros Hclose He Hne Ht pos caps.
  destruct e as [|c e]; [contradiction|].
  simpl in He. apply andb_true_iff in He. destruct He as [Hc He].
  unfold dot_plus. cbn [lit matcher append].
  change (atom_ok (Chr " ") " ") with (Ascii.eqb " " " ").
  change (atom_ok (Chr open) open) with (Ascii.eqb open open).
  rewrite !Ascii.eqb_refl, (plain_char_dot c Hc).
  change (matcher input (Star true Dot)) with (star_greedy Dot).
  rewrite (star_greedy_to_close close k e t Hclose He Ht).
  simpl String.length. f_equal. lia.
Qed.


Lemma segment_no_start open r k pos s caps :
  match s with
  | String c1 (String c2 _) => Ascii.eqb c1 " " && Ascii.eqb c2 open
  | _ => false
  end = false ->
  matcher input (lit (String " " (String open "")) r) k pos s caps = None.
Proof.
  intros H. cbn [lit matcher].
  destruct s as [|c1 [|c2 s]]; [reflexivity| |].
  - unfold atom_ok at 1. destruct (Ascii.eqb c1 " "); reflexivity.
  - unfold atom_ok at 1. destruct (Ascii.eqb c1 " "); [|reflexivity].
    unfold atom_ok at 1. simpl in H. now rewrite H.
Qed.

Lemma angle_quiet k pos s caps :
  opens_segment s = false \/ (exists s', s = String " " (String "(" s')) ->
  matcher input angle k pos s caps = None.
Proof.
  intros H. apply segment_no_start.
  destruct H as [H | (s' & ->)]; [|reflexivity].
  destruct s as [|c1 [|c2 s]]; try reflexivity. simpl in H.
  destruct (Ascii.eqb c1 " "); [|reflexivity]. simpl in *.
  apply orb_false_iff in H. tauto.
Qed.

Lemma paren_quiet k pos s caps :
  opens_segment s = false \/ (exists s', s = String " " (String "<" s')) ->
  matcher input paren k pos s caps = None.
Proof.
  intros H. apply segment_no_start.
  destruct H as [H | (s' & ->)]; [|reflexivity].
  destruct s as [|c1 [|c2 s]]; try reflexivity. simpl in H.
  destruct (Ascii.eqb c1 " "); [|reflexivity]. simpl in *.
  apply orb_false_iff in H. tauto.
Qed.

Lemma angle_matches k e t pos caps :
  plain e = true -> e <> "" -> count_char ">" t = 0 ->
  matcher input angle k pos (" <" ++ e ++ ">" ++ t) caps
  = k (pos + 3 + String.length e) t caps.
Proof. intros. now apply (segment_matches "<" ">"); auto. Qed.

Lemma paren_matches k u t pos caps :
  plain u = true -> u <> "" -> count_char ")" t = 0 ->
  matcher input paren k pos (" (" ++ u ++ ")" ++ t) caps
  = k (pos + 3 + String.length u) t caps.
Proof. intros. now apply (segment_matches "(" ")"); auto. Qed.

Lemma upto_1 r k pos s caps :
  matcher input (Upto 1 r) k pos s caps
  = orelse
      (matcher input r
         (fun pos' s' caps' =>
            if Nat.eqb pos' pos then None else k pos' s' caps')
         pos s caps)
      (fun _ => k pos s caps).
Proof. reflexivity. Qed.

(** The lazy [.*?] passes over text on which its continuation fails. *)
Lemma star_lazy_step k c s pos caps :
  k pos (String c s) caps = None ->
  atom_ok Dot c = true ->
  star_lazy Dot k pos (String c s) caps = star_lazy Dot k (S pos) s caps.
Proof. intros Hk Hc. cbn [star_lazy]. now rewrite Hk, Hc. Qed.

Lemma star_lazy_quiet k p r :
  idle k -> quiet p r = true ->
  forall pos caps,
    star_lazy Dot k pos (p ++ r) caps
    = star_lazy Dot k (pos + String.length p) r caps.
Proof.
  intros Hk. induction p as [|c p IH]; intros Hq pos caps.
  - simpl. now rewrite Nat.add_0_r.
  - cbn [quiet] in Hq. apply andb_true_iff in Hq. destruct Hq as [Hq Hp].
    apply andb_true_iff in Hq. destruct Hq as [Hopen Hc].
    apply negb_true_iff in Hopen.
    cbn [append]. rewrite star_lazy_step.
    + rewrite (IH Hp). simpl String.length. f_equal. lia.
    + apply Hk; [discriminate | exact Hopen].
    + exact Hc.
Qed.

End Segments.

Lemma plain_no_close e close :
  close = ">"%char \/ close = ")"%char -> plain e = true ->
  count_char close e = 0.
Proof.
  intros Hclose. induction e as [|c e IH]; simpl; [reflexivity|].
  intros H. apply andb_true_iff in H. destruct H as [Hc He].
  rewrite (plain_char_not c close Hc Hclose). auto.
Qed.

Lemma calm_start_append p r :
  plain p = true -> calm_start r = true -> calm_start (p ++ r) = true.
Proof.
  destruct p as [|c p]; simpl; [auto|]. intros H _.
  apply andb_true_iff in H. destruct H as [Hc _].
  unfold plain_char in Hc. apply negb_true_iff in Hc.
  repeat (apply orb_false_iff in Hc; destruct Hc as [Hc ?]).
  apply negb_true_iff. apply orb_false_iff. now split.
Qed.

Lemma quiet_plain p r :
  plain p = true -> calm_start r = true -> quiet p r = true.
Proof.
  induction p as [|c p IH]; simpl; [reflexivity|].
  intros H Hr. apply andb_true_iff in H. destruct H as [Hc Hp].
  rewrite (IH Hp Hr), andb_true_r.
  pose proof (calm_start_append p r Hp Hr) as Hcalm.
  assert (Hdot := plain_char_dot c Hc). unfold atom_ok in Hdot.
  rewrite Hdot, andb_true_r.
  destruct (p ++ r) as [|c2 s]; [reflexivity|].
  simpl in Hcalm. apply negb_true_iff in Hcalm. rewrite Hcalm.
  now rewrite andb_false_r.
Qed.

Lemma quiet_append a b r : quiet (a ++ b) r = quiet a (b ++ r) && quiet b r.
Proof.
  induction a as [|c a IH]; simpl; [reflexivity|].
  rewrite IH, append_assoc, !andb_assoc. reflexivity.
Qed.

Lemma substring_none n s : substring n 0 s = "".
Proof. revert n. induction s as [|c s IH]; intros [|n]; simpl; auto. Qed.

Lemma url_segment_no_gt url :
  plain_segment url -> count_char ">" (url_segment url) = 0.
Proof.
  destruct url as [u|]; simpl; [|reflexivity]. intros [Hu _].
  assert (H := plain_no_close u ">" (or_introl eq_refl) Hu).
  induction u as [|c u IH]; simpl in *; [reflexivity|].
  apply andb_true_iff in Hu. destruct Hu as [Hc Hu].
  destruct (Ascii.eqb c ">") eqn:E; [discriminate|]. simpl in *. auto.
Qed.

Lemma length_email_segment e :
  String.length (email_segment (Some e)) = 3 + String.length e.
Proof. simpl. rewrite length_append. simpl. lia. Qed.

Lemma length_url_segment u :
  String.length (url_segment (Some u)) = 3 + String.length u.
Proof. simpl. rewrite length_append. simpl. lia. Qed.

Lemma guard_passes (k : cont) pos n s caps :
  (if Nat.eqb (pos + 3 + n) pos then None else k (pos + 3 + n) s caps)
  = k (pos + 3 + n) s caps.
Proof.
  destruct (Nat.eqb_spec (pos + 3 + n) pos); [lia | reflexivity].
Qed.

Section Tails.

Variable input : string.

(** An optional segment that ends the text. *)
Lemma paren_tail k url pos caps :
  plain_segment url ->
  matcher input (Upto 1 paren) (matcher input Eol k) pos (url_segment url) caps
  = k (pos + String.length (url_segment url)) "" caps.
Proof.
  intros Hurl. rewrite upto_1. destruct url as [u|].
  - destruct Hurl as [Hu Hne]. rewrite length_url_segment.
    change (url_segment (Some u)) with (" (" ++ u ++ ")" ++ "").
    rewrite paren_matches by auto. rewrite guard_passes.
    cbn [matcher orelse]. rewrite Nat.add_assoc.
    destruct (k (pos + 3 + String.length u) "" caps); reflexivity.
  - rewrite paren_quiet by (left; reflexivity).
    cbn [orelse matcher url_segment String.length]. now rewrite Nat.add_0_r.
Qed.

Lemma angle_tail k email pos caps :
  plain_segment email ->
  matcher input (Upto 1 angle) (matcher input Eol k) pos (email_segment email) caps
  = k (pos + String.length (email_segment email)) "" caps.
Proof.
  intros Hemail. rewrite upto_1. destruct email as [e|].
  - destruct Hemail as [He Hne]. rewrite length_email_segment.
    change (email_segment (Some e)) with (" <" ++ e ++ ">" ++ "").
    rewrite angle_matches by auto. rewrite guard_passes.
    cbn [matcher orelse]. rewrite Nat.add_assoc.
    destruct (k (pos + 3 + String.length e) "" caps); reflexivity.
  - rewrite angle_quiet by (left; reflexivity).
    cbn [orelse matcher email_segment String.length]. now rewrite Nat.add_0_r.
Qed.

Lemma re_email_unfold s :
  matcher input re_email (whole_match input) 0 s []
  = star_lazy Dot (email_rest input) 0 s [].
Proof. reflexivity. Qed.

Lemma re_url_unfold s :
  matcher input re_url (whole_match input) 0 s []
  = star_lazy Dot (url_rest input) 0 s [].
Proof. reflexivity. Qed.

Lemma re_name_unfold s :
  matcher input re_name (whole_match input) 0 s []
  = star_lazy Dot (name_rest input) 0 s [].
Proof. reflexivity. Qed.

Lemma exec_at_start re c :
  matcher input re (whole_match input) 0 input [] = Some c ->
  exec re input = Some c.
Proof.
  unfold exec, whole_match. intros H.
  destruct input; cbn [exec_from]; rewrite H; reflexivity.
Qed.

Lemma eol_fails k pos s caps :
  s <> "" -> matcher input Eol k pos s caps = None.
Proof. destruct s; [contradiction | reflexivity]. Qed.

Lemma email_rest_idle : idle (email_rest input).
Proof.
  intros pos s caps Hs Hopen. unfold email_rest, after_email.
  rewrite upto_1, angle_quiet by (left; assumption). cbn [orelse].
  rewrite upto_1, paren_quiet by (left; assumption). cbn [orelse].
  now apply eol_fails.
Qed.

Lemma url_rest_idle : idle (url_rest input).
Proof.
  intros pos s caps Hs Hopen. unfold url_rest, after_url.
  rewrite upto_1, paren_quiet by (left; assumption). cbn [orelse].
  rewrite upto_1, angle_quiet by (left; assumption). cbn [orelse].
  now apply eol_fails.
Qed.

End Tails.

Section Patterns.

Variable input : string.

Lemma upto_2 r k pos s caps :
  matcher input (Upto 2 r) k pos s caps
  = orelse
      (matcher input r
         (fun pos' s' caps' =>
            if Nat.eqb pos' pos then None
            else matcher input (Upto 1 r) k pos' s' caps')
         pos s caps)
      (fun _ => k pos s caps).
Proof. reflexivity. Qed.

Lemma alt_segments k pos s caps :
  matcher input (Alt paren angle) k pos s caps
  = orelse (matcher input paren k pos s caps)
      (fun _ => matcher input angle k pos s caps).
Proof. reflexivity. Qed.

Lemma name_rest_idle : idle (name_rest input).
Proof.
  intros pos s caps Hs Hopen. unfold name_rest.
  rewrite upto_2, alt_segments.
  rewrite paren_quiet, angle_quiet by (left; assumption). cbn [orelse].
  now apply eol_fails.
Qed.

Lemma star_lazy_now k pos s caps c :
  k pos s caps = Some c -> star_lazy Dot k pos s caps = Some c.
Proof. intros H. destruct s; cbn [star_lazy]; rewrite H; reflexivity. Qed.

End Patterns.

Lemma calm_segments email url :
  calm_start (email_segment email ++ url_segment url) = true.
Proof. destruct email, url; reflexivity. Qed.

Lemma email_segment_no_close email :
  plain_segment email -> count_char ")" (email_segment email) = 0.
Proof.
  destruct email as [e|]; simpl; [|reflexivity]. intros [He _].
  assert (H := plain_no_close e ")" (or_intror eq_refl) He).
  clear He. induction e as [|c e IH]; simpl in *; [reflexivity|].
  destruct (Ascii.eqb c ")"); [discriminate | auto].
Qed.

Section Captures.

Variables (name : string) (email url : option string).
Hypothesis Hname : plain name = true.
Hypothesis Hemail : plain_segment email.
Hypothesis Hurl : plain_segment url.

Lemma email_capture :
  exists whole,
    exec re_email (author_string name email url)
    = Some [(0, whole); (1, email_segment email)].
Proof.
  assert (Hskip :
    forall c,
      email_rest (author_string name email url) (String.length name)
        (email_segment email ++ url_segment url) [] = Some c ->
      exec re_email (author_string name email url) = Some c).
  { intros c Hc. apply exec_at_start. rewrite re_email_unfold.
    unfold author_string at 2.
    rewrite star_lazy_quiet;
      [| apply email_rest_idle
       | apply quiet_plain; [assumption | apply calm_segments]].
    apply star_lazy_now. exact Hc. }
  destruct email as [e|]; eexists; apply Hskip;
    unfold email_rest; rewrite upto_1.
  - destruct Hemail as [He Hne].
    replace (email_segment (Some e) ++ url_segment url)
      with (" <" ++ e ++ ">" ++ url_segment url)
      by (unfold email_segment; now rewrite !append_assoc).
    rewrite angle_matches by (auto using url_segment_no_gt).
    rewrite guard_passes. unfold after_email. rewrite paren_tail by assumption.
    unfold whole_match at 1. cbn [orelse].
    replace (String.length name + 3 + String.length e - String.length name)
      with (String.length (email_segment (Some e)))
      by (rewrite length_email_segment; lia).
    unfold author_string. rewrite substring_skip, substring_0_length.
    reflexivity.
  - cbn [email_segment append].
    rewrite angle_quiet
      by (destruct url; [right; eexists; reflexivity | left; reflexivity]).
    cbn [orelse]. unfold after_email. rewrite paren_tail by assumption.
    unfold whole_match at 1. rewrite Nat.sub_diag, substring_none.
    reflexivity.
Qed.

Lemma url_rest_blocked input e u pos caps :
  plain e = true -> e <> "" -> plain u = true -> u <> "" ->
  url_rest input pos (" <" ++ e ++ ">" ++ url_segment (Some u)) caps = None.
Proof.
  intros He Hne Hu Hnu. unfold url_rest. rewrite upto_1.
  rewrite paren_quiet by (right; eexists; reflexivity). cbn [orelse].
  unfold after_url. rewrite upto_1.
  rewrite angle_matches;
    [| assumption | assumption
     | apply (url_segment_no_gt (Some u)); split; assumption].
  rewrite guard_passes. rewrite eol_fails by discriminate. cbn [orelse].
  apply eol_fails. discriminate.
Qed.

Lemma url_capture :
  exists whole,
    exec re_url (author_string name email url)
    = Some [(0, whole); (1, url_segment url)].
Proof.
  assert (Hskip :
    forall c,
      star_lazy Dot (url_rest (author_string name email url))
        (String.length name) (email_segment email ++ url_segment url) []
      = Some c ->
      exec re_url (author_string name email url) = Some c).
  { intros c Hc. apply exec_at_start. rewrite re_url_unfold.
    unfold author_string at 2.
    rewrite star_lazy_quiet;
      [| apply url_rest_idle
       | apply quiet_plain; [assumption | apply calm_segments]].
    exact Hc. }
  assert (Hhere :
    forall pos before,
      author_string name email url = before ++ url_segment url ->
      pos = String.length before ->
      url_rest (author_string name email url) pos (url_segment url) []
      = Some [(0, substring 0 (pos + String.length (url_segment url) - 0)
                    (author_string name email url));
              (1, url_segment url)]).
  { intros pos before Hin ->. unfold url_rest. rewrite upto_1.
    destruct url as [u|].
    - destruct Hurl as [Hu Hnu].
      change (url_segment (Some u)) with (" (" ++ u ++ ")" ++ "") at 1.
      rewrite paren_matches by auto. rewrite guard_passes.
      unfold after_url. rewrite (angle_tail _ _ None) by exact I.
      unfold whole_match at 1. cbn [orelse email_segment String.length].
      rewrite Nat.add_0_r, length_url_segment, Nat.add_assoc.
      replace (String.length before + 3 + String.length u - String.length before)
        with (String.length (url_segment (Some u)))
        by (rewrite length_url_segment; lia).
      rewrite Hin, substring_skip, substring_all. reflexivity.
    - cbn [url_segment]. rewrite paren_quiet by (left; reflexivity).
      cbn [orelse]. unfold after_url. rewrite (angle_tail _ _ None) by exact I.
      unfold whole_match at 1. cbn [email_segment String.length].
      rewrite Nat.sub_diag, substring_none, !Nat.add_0_r. reflexivity. }
  destruct email as [e|] eqn:Eemail.
  - destruct Hemail as [He Hne]. destruct url as [u|] eqn:Eurl.
    + destruct Hurl as [Hu Hnu]. eexists. apply Hskip.
      replace (email_segment (Some e) ++ url_segment (Some u))
        with (String " " (("<" ++ e ++ ">") ++ url_segment (Some u)))
        by (unfold email_segment; cbn [append]; now rewrite !append_assoc).
      rewrite star_lazy_step; [| | reflexivity].
      2:{ replace (String " " (("<" ++ e ++ ">") ++ url_segment (Some u)))
            with (" <" ++ e ++ ">" ++ url_segment (Some u))
            by (cbn [append]; now rewrite !append_assoc).
          now apply url_rest_blocked. }
      rewrite star_lazy_quiet; [| apply url_rest_idle |].
      2:{ cbn [append quiet]. rewrite quiet_append.
          rewrite (quiet_plain e) by (assumption || reflexivity).
          destruct ((e ++ ">") ++ url_segment (Some u)); reflexivity. }
      apply star_lazy_now.
      apply (Hhere _ (name ++ email_segment (Some e))).
      * unfold author_string. now rewrite append_assoc.
      * cbn [email_segment append String.length].
        rewrite !length_append. cbn [String.length]. rewrite !length_append.
        cbn [String.length]. lia.
    + eexists. apply Hskip. cbn [url_segment]. rewrite append_nil_r.
      apply star_lazy_now. unfold url_rest. rewrite upto_1.
      rewrite paren_quiet by (right; eexists; reflexivity). cbn [orelse].
      unfold after_url.
      rewrite (angle_tail _ _ (Some e)) by (split; assumption).
      unfold whole_match at 1. rewrite Nat.sub_diag, substring_none.
      reflexivity.
  - eexists. apply Hskip. cbn [email_segment append]. apply star_lazy_now.
    apply (Hhere _ name); [reflexivity | reflexivity].
Qed.

Lemma alt_tail input k (email' url' : option string) pos caps :
  plain_segment email' -> plain_segment url' ->
  email' = None \/ url' = None ->
  matcher input (Upto 1 (Alt paren angle)) (matcher input Eol k) pos
    (email_segment email' ++ url_segment url') caps
  = k (pos + String.length (email_segment email' ++ url_segment url')) "" caps.
Proof.
  intros He Hu Hone. rewrite upto_1, alt_segments.
  destruct email' as [e|], url' as [u|];
    try (destruct Hone; discriminate).
  - destruct He as [He Hne]. cbn [url_segment]. rewrite append_nil_r.
    rewrite paren_quiet by (right; eexists; reflexivity). cbn [orelse].
    change (email_segment (Some e)) with (" <" ++ e ++ ">" ++ "") at 1.
    rewrite angle_matches by auto. rewrite guard_passes.
    rewrite length_email_segment, Nat.add_assoc. cbn [matcher].
    apply orelse_None.
  - destruct Hu as [Hu Hnu]. cbn [email_segment append].
    change (url_segment (Some u)) with (" (" ++ u ++ ")" ++ "") at 1.
    rewrite paren_matches by auto. rewrite guard_passes.
    rewrite length_url_segment, Nat.add_assoc. cbn [matcher orelse].
    destruct (k (pos + 3 + String.length u) "" caps); reflexivity.
  - cbn [email_segment url_segment append].
    rewrite paren_quiet, angle_quiet by (left; reflexivity).
    cbn [orelse matcher String.length]. now rewrite Nat.add_0_r.
Qed.

Lemma name_capture :
  exists whole,
    exec re_name (author_string name email url) = Some [(0, whole); (1, name)].
Proof.
  assert (Hskip :
    forall c,
      name_rest (author_string name email url) (String.length name)
        (email_segment email ++ url_segment url) [] = Some c ->
      exec re_name (author_string name email url) = Some c).
  { intros c Hc. apply exec_at_start. rewrite re_name_unfold.
    unfold author_string at 2.
    rewrite star_lazy_quiet;
      [| apply name_rest_idle
       | apply quiet_plain; [assumption | apply calm_segments]].
    apply star_lazy_now. exact Hc. }
  assert (Hcap :
    substring 0 (String.length name - 0) (author_string name email url) = name).
  { rewrite Nat.sub_0_r. apply substring_0_length. }
  destruct email as [e|] eqn:Eemail, url as [u|] eqn:Eurl;
    eexists; apply Hskip; unfold name_rest; rewrite Hcap.
  - destruct Hemail as [He Hne]. rewrite upto_2, alt_segments.
    replace (email_segment (Some e) ++ url_segment (Some u))
      with (" <" ++ e ++ ">" ++ url_segment (Some u))
      by (unfold email_segment; now rewrite !append_assoc).
    rewrite paren_quiet by (right; eexists; reflexivity). cbn [orelse].
    rewrite angle_matches by (auto using url_segment_no_gt).
    rewrite guard_passes.
    rewrite (alt_tail _ _ None (Some u)) by (auto; exact I).
    unfold whole_match at 1. cbn [orelse]. reflexivity.
  - destruct Hemail as [He Hne]. rewrite upto_2, alt_segments.
    cbn [url_segment]. rewrite append_nil_r.
    rewrite paren_quiet by (right; eexists; reflexivity). cbn [orelse].
    change (email_segment (Some e)) with (" <" ++ e ++ ">" ++ "") at 1.
    rewrite angle_matches by auto. rewrite guard_passes.
    rewrite (alt_tail _ _ None None) by (auto; exact I).
    unfold whole_match at 1. cbn [orelse]. reflexivity.
  - destruct Hurl as [Hu Hnu]. rewrite upto_2, alt_segments.
    cbn [email_segment append].
    change (url_segment (Some u)) with (" (" ++ u ++ ")" ++ "") at 1.
    rewrite paren_matches by auto. rewrite guard_passes.
    rewrite (alt_tail _ _ None None) by (auto; exact I).
    unfold whole_match at 1. cbn [orelse]. reflexivity.
  - rewrite upto_2, alt_segments. cbn [email_segment url_segment append].
    rewrite paren_quiet, angle_quiet by (left; reflexivity).
    cbn [orelse matcher]. unfold whole_match. reflexivity.
Qed.

End Captures.

(** *** The other order of the segments *)

Section Reversed.

Variables (name e u : string).
Hypothesis Hname : plain name = true.
Hypothesis He : plain e = true.
Hypothesis Hne : e <> "".
Hypothesis Hu : plain u = true.
Hypothesis Hnu : u <> "".

Lemma calm_reversed :
  calm_start (url_segment (Some u) ++ email_segment (Some e)) = true.
Proof. reflexivity. Qed.

Lemma input_split :
  (reversed_author_string name e u) = (name ++ url_segment (Some u)) ++ email_segment (Some e).
Proof. unfold reversed_author_string. now rewrite append_assoc. Qed.

Lemma length_before :
  S (String.length name) + String.length ("(" ++ u ++ ")")
  = String.length (name ++ url_segment (Some u)).
Proof.
  cbn [url_segment append String.length].
  rewrite !length_append. cbn [String.length]. rewrite !length_append.
  cbn [String.length]. lia.
Qed.

Lemma email_rest_blocked pos caps :
  email_rest (reversed_author_string name e u) pos (" (" ++ u ++ ")" ++ email_segment (Some e)) caps = None.
Proof.
  unfold email_rest. rewrite upto_1.
  rewrite angle_quiet by (right; eexists; reflexivity). cbn [orelse].
  unfold after_email. rewrite upto_1.
  rewrite paren_matches;
    [| assumption | assumption
     | apply (email_segment_no_close (Some e)); split; assumption].
  rewrite guard_passes. rewrite eol_fails by discriminate. cbn [orelse].
  apply eol_fails. discriminate.
Qed.

Lemma email_capture_reversed :
  exists whole,
    exec re_email (reversed_author_string name e u) = Some [(0, whole); (1, email_segment (Some e))].
Proof.
  eexists. apply exec_at_start. rewrite re_email_unfold. unfold reversed_author_string at 2.
  rewrite star_lazy_quiet;
    [| apply email_rest_idle
     | apply quiet_plain; [assumption | apply calm_reversed]].
  replace (url_segment (Some u) ++ email_segment (Some e))
    with (String " " (("(" ++ u ++ ")") ++ email_segment (Some e)))
    by (unfold url_segment; cbn [append]; now rewrite !append_assoc).
  rewrite star_lazy_step; [| | reflexivity].
  2:{ replace (String " " (("(" ++ u ++ ")") ++ email_segment (Some e)))
        with (" (" ++ u ++ ")" ++ email_segment (Some e))
        by (cbn [append]; now rewrite !append_assoc).
      apply email_rest_blocked. }
  rewrite star_lazy_quiet; [| apply email_rest_idle |].
  2:{ cbn [append quiet]. rewrite quiet_append.
      rewrite (quiet_plain u) by (assumption || reflexivity).
      destruct ((u ++ ")") ++ email_segment (Some e)); reflexivity. }
  apply star_lazy_now.
  change (0 + String.length name) with (String.length name).
  rewrite length_before. unfold email_rest. rewrite upto_1.
  change (email_segment (Some e)) with (" <" ++ e ++ ">" ++ "") at 1.
  rewrite angle_matches by auto. rewrite guard_passes.
  unfold after_email. rewrite (paren_tail _ _ None) by exact I.
  unfold whole_match at 1. cbn [orelse].
  replace (String.length (name ++ url_segment (Some u)) + 3 + String.length e
           - String.length (name ++ url_segment (Some u)))
    with (String.length (email_segment (Some e)))
    by (rewrite length_email_segment; lia).
  rewrite input_split, substring_skip, substring_all. reflexivity.
Qed.

Lemma url_capture_reversed :
  exists whole,
    exec re_url (reversed_author_string name e u) = Some [(0, whole); (1, url_segment (Some u))].
Proof.
  eexists. apply exec_at_start. rewrite re_url_unfold. unfold reversed_author_string at 2.
  rewrite star_lazy_quiet;
    [| apply url_rest_idle
     | apply quiet_plain; [assumption | apply calm_reversed]].
  apply star_lazy_now.
  change (0 + String.length name) with (String.length name).
  unfold url_rest. rewrite upto_1.
  replace (url_segment (Some u) ++ email_segment (Some e))
    with (" (" ++ u ++ ")" ++ email_segment (Some e))
    by (unfold url_segment; now rewrite !append_assoc).
  rewrite paren_matches;
    [| assumption | assumption
     | apply (email_segment_no_close (Some e)); split; assumption].
  rewrite guard_passes. unfold after_url.
  rewrite (angle_tail _ _ (Some e)) by (split; assumption).
  unfold whole_match at 1. cbn [orelse].
  replace (String.length name + 3 + String.length u - String.length name)
    with (String.length (url_segment (Some u)))
    by (rewrite length_url_segment; lia).
  unfold reversed_author_string. rewrite substring_skip, substring_0_length. reflexivity.
Qed.

Lemma name_capture_reversed :
  exists whole, exec re_name (reversed_author_string name e u) = Some [(0, whole); (1, name)].
Proof.
  eexists. apply exec_at_start. rewrite re_name_unfold. unfold reversed_author_string at 2.
  rewrite star_lazy_quiet;
    [| apply name_rest_idle
     | apply quiet_plain; [assumption | apply calm_reversed]].
  apply star_lazy_now.
  change (0 + String.length name) with (String.length name).
  unfold name_rest.
  replace (substring 0 (String.length name - 0) (reversed_author_string name e u)) with name
    by (rewrite Nat.sub_0_r; unfold reversed_author_string; now rewrite substring_0_length).
  rewrite upto_2, alt_segments.
  replace (url_segment (Some u) ++ email_segment (Some e))
    with (" (" ++ u ++ ")" ++ email_segment (Some e))
    by (unfold url_segment; now rewrite !append_assoc).
  rewrite paren_matches;
    [| assumption | assumption
     | apply (email_segment_no_close (Some e)); split; assumption].
  rewrite guard_passes.
  rewrite <- (append_nil_r (email_segment (Some e))) at 1.
  change "" with (url_segment None) at 1.
  rewrite (alt_tail _ _ (Some e) None) by (auto; split; assumption).
  unfold whole_match at 1. cbn [orelse]. reflexivity.
Qed.

End Reversed.

(** *** From the captures to the author object *)

Lemma string_of_nat_digit n : starts_with_digit (string_of_nat n) = true.
Proof. unfold string_of_nat. destruct (Nat.to_uint n); reflexivity. Qed.

Lemma indexed_member i l k :
  starts_with_digit k = false -> obj_get (indexed_from i l) k = JUndef.
Proof.
  intros Hk. revert i. induction l as [|x l IH]; intros i; simpl; [reflexivity|].
  destruct (String.eqb_spec (string_of_nat i) k) as [E|_]; [|apply IH].
  rewrite <- E, string_of_nat_digit in Hk. discriminate.
Qed.

Lemma string_member s k :
  starts_with_digit k = false -> k <> "length" ->
  prop (JStr s) k = Ok JUndef.
Proof.
  intros Hk Hl. unfold prop. apply String.eqb_neq in Hl. rewrite Hl.
  now rewrite indexed_member.
Qed.

Lemma slice_from_2 c1 c2 s : slice (String c1 (String c2 s)) 2 None = s.
Proof.
  unfold slice. cbn [String.length].
  change (2 <? 0)%Z with false. cbv beta iota.
  rewrite Z.min_l by lia.
  replace (Z.to_nat (Z.of_nat (S (S (String.length s))) - 2))
    with (String.length s) by lia.
  change (Z.to_nat 2) with 2. cbn [substring]. apply substring_all.
Qed.

Lemma slice_drop_last s c : slice (s ++ String c "") 0 (Some (-1)%Z) = s.
Proof.
  unfold slice. rewrite length_append. cbn [String.length].
  change (0 <? 0)%Z with false. change (-1 <? 0)%Z with true. cbv beta iota.
  rewrite Z.min_l, Z.max_l by lia.
  replace (Z.to_nat (Z.of_nat (String.length s + 1) + -1 - 0))
    with (String.length s) by lia.
  change (Z.to_nat 0) with 0. apply substring_0_length.
Qed.

Lemma strip_email email :
  strip_brackets (JStr (email_segment email)) = Ok (JStr (segment_text email)).
Proof.
  destruct email as [e|]; [|reflexivity]. unfold strip_brackets, email_segment.
  cbn [append]. now rewrite slice_from_2, slice_drop_last.
Qed.

Lemma strip_url url :
  strip_brackets (JStr (url_segment url)) = Ok (JStr (segment_text url)).
Proof.
  destruct url as [u|]; [|reflexivity]. unfold strip_brackets, url_segment.
  cbn [append]. now rewrite slice_from_2, slice_drop_last.
Qed.

Lemma clean_author_fields name email url :
  name <> "" -> plain_segment email -> plain_segment url ->
  clean [("name", JStr name); ("email", JStr (segment_text email));
         ("url", JStr (segment_text url))]
  = ("name", JStr name)
    :: (optional_member "email" email ++ optional_member "url" url)%list.
Proof.
  intros Hn He Hu. apply String.eqb_neq in Hn.
  assert (He' : forall e, email = Some e -> (e =? "") = false)
    by (intros e ->; apply String.eqb_neq, He).
  assert (Hu' : forall u, url = Some u -> (u =? "") = false)
    by (intros u ->; apply String.eqb_neq, Hu).
  unfold clean. simpl. rewrite Hn. simpl.
  destruct email as [e|], url as [u|]; simpl;
    rewrite ?(He' _ eq_refl), ?(Hu' _ eq_refl); simpl;
    rewrite ?(He' _ eq_refl), ?(Hu' _ eq_refl); reflexivity.
Qed.

Lemma transformAuthor_of_captures input name email url w1 w2 w3 :
  exec re_email input = Some [(0, w1); (1, email_segment email)] ->
  exec re_url input = Some [(0, w2); (1, url_segment url)] ->
  exec re_name input = Some [(0, w3); (1, name)] ->
  name <> "" -> plain_segment email -> plain_segment url ->
  transformAuthor (JStr input)
  = Ok (JObj (("name", JStr name)
              :: (optional_member "email" email
                  ++ optional_member "url" url)%list)).
Proof.
  intros Hemail Hurl Hname Hn He Hu. unfold transformAuthor.
  rewrite !string_member by (reflexivity || discriminate).
  cbn [rbind truthy match_group1]. rewrite Hemail, Hurl, Hname.
  cbn [rbind get_cap Nat.eqb]. rewrite strip_email, strip_url.
  cbn [rbind]. now rewrite clean_author_fields.
Qed.

Lemma transformAuthors_of_captures input name email url w1 w2 w3 :
  exec re_email input = Some [(0, w1); (1, email_segment email)] ->
  exec re_url input = Some [(0, w2); (1, url_segment url)] ->
  exec re_name input = Some [(0, w3); (1, name)] ->
  input <> "" -> name <> "" -> plain_segment email -> plain_segment url ->
  transformAuthors [JStr input]
  = Ok [JObj (("name", JStr name)
              :: (optional_member "email" email
                  ++ optional_member "url" url)%list)].
Proof.
  intros H1 H2 H3 Hi Hn He Hu. unfold transformAuthors.
  assert (Htruthy : truthy (JStr input) = true)
    by (destruct input; [contradiction | reflexivity]).
  cbn [filter]. rewrite Htruthy. cbn [map_result].
  rewrite (transformAuthor_of_captures _ _ _ _ _ _ _ H1 H2 H3 Hn He Hu).
  reflexivity.
Qed.

Lemma author_string_not_empty name email url :
  name <> "" -> author_string name email url <> "".
Proof. destruct name; [contradiction | discriminate]. Qed.

Lemma reversed_author_string_not_empty name e u :
  reversed_author_string name e u <> "".
Proof. destruct name; discriminate. Qed.

(** X23.  [transformAuthors] takes an author string of the form
    [name <email> (url)] apart: for a name, an e-mail address and a URL
    without brackets and line breaks, either of the two segments being
    optional, the author is the object with that name, that address and
    that URL, a missing segment giving no member. *)
Theorem author_string_parsed name email url :
  plain name = true -> name <> "" ->
  plain_segment email -> plain_segment url ->
  transformAuthors [JStr (author_string name email url)]
  = Ok [JObj (("name", JStr name)
              :: (optional_member "email" email
                  ++ optional_member "url" url)%list)].
Proof.
  intros Hplain Hn He Hu.
  destruct (email_capture name email url Hplain He Hu) as [w1 H1].
  destruct (url_capture name email url Hplain He Hu) as [w2 H2].
  destruct (name_capture name email url Hplain He Hu) as [w3 H3].
  apply (transformAuthors_of_captures _ _ _ _ _ _ _ H1 H2 H3);
    auto using author_string_not_empty.
Qed.

(** X24.  The two segments may come in either order: [name (url)
    <email>] gives the same author as [name <email> (url)]. *)
Theorem author_string_either_order name e u :
  plain name = true -> name <> "" ->
  plain e = true -> e <> "" -> plain u = true -> u <> "" ->
  transformAuthors [JStr (name ++ " (" ++ u ++ ") <" ++ e ++ ">")]
  = Ok [JObj [("name", JStr name); ("email", JStr e); ("url", JStr u)]]
  /\ transformAuthors [JStr (name ++ " <" ++ e ++ "> (" ++ u ++ ")")]
     = Ok [JObj [("name", JStr name); ("email", JStr e); ("url", JStr u)]].
Proof.
  intros Hplain Hn He Hne Hu Hnu.
  assert (Hfwd : name ++ " <" ++ e ++ "> (" ++ u ++ ")"
                 = author_string name (Some e) (Some u)).
  { unfold author_string, email_segment, url_segment.
    now rewrite !append_assoc. }
  assert (Hrev : name ++ " (" ++ u ++ ") <" ++ e ++ ">"
                 = reversed_author_string name e u).
  { unfold reversed_author_string, email_segment, url_segment.
    now rewrite !append_assoc. }
  rewrite Hfwd, Hrev. split.
  - destruct (email_capture_reversed name e u Hplain He Hne Hu Hnu) as [w1 H1].
    destruct (url_capture_reversed name e u Hplain He Hne Hu Hnu) as [w2 H2].
    destruct (name_capture_reversed name e u Hplain He Hne Hu Hnu) as [w3 H3].
    apply (transformAuthors_of_captures _ name (Some e) (Some u) _ _ _ H1 H2 H3);
      auto using reversed_author_string_not_empty; split; assumption.
  - assert (Pe : plain_segment (Some e)) by (split; assumption).
    assert (Pu : plain_segment (Some u)) by (split; assumption).
    destruct (email_capture name (Some e) (Some u) Hplain Pe Pu) as [w1 H1].
    destruct (url_capture name (Some e) (Some u) Hplain Pe Pu) as [w2 H2].
    destruct (name_capture name (Some e) (Some u) Hplain Pe Pu) as [w3 H3].
    apply (transformAuthors_of_captures _ name (Some e) (Some u) _ _ _ H1 H2 H3);
      auto using author_string_not_empty.
Qed.

(** X25.  For an author given as an object, the members [email] and
    [url] go before what the name holds in brackets, and [homepage]
    stands in for a missing [url]; the name is still stripped of its
    segments. *)
Theorem object_author_members o name email url :
  obj_get o "name" = JStr (author_string name email url) ->
  plain name = true -> plain_segment email -> plain_segment url ->
  transformAuthors [JObj o]
  = Ok [JObj (clean
          [("name", JStr name);
           ("email", js_or (obj_get o "email") (JStr (segment_text email)));
           ("url", js_or (js_or (obj_get o "url") (obj_get o "homepage"))
                     (JStr (segment_text url)))])].
Proof.
  intros Ho Hplain He Hu.
  destruct (email_capture name email url Hplain He Hu) as [w1 H1].
  destruct (url_capture name email url Hplain He Hu) as [w2 H2].
  destruct (name_capture name email url Hplain He Hu) as [w3 H3].
  unfold transformAuthors. cbn [filter truthy map_result].
  unfold transformAuthor. cbn [prop rbind]. rewrite Ho.
  cbn [match_group1]. rewrite H1, H2, H3. cbn [rbind get_cap Nat.eqb].
  rewrite strip_email, strip_url. unfold js_or.
  destruct (truthy (obj_get o "email")) eqn:Te,
    (truthy (obj_get o "url")) eqn:Tu,
    (truthy (obj_get o "homepage")) eqn:Th;
    cbn [rbind]; rewrite ?Te, ?Tu, ?Th; cbn [rbind];
    rewrite ?strip_email, ?strip_url, ?Tu, ?Th; reflexivity.
Qed.

Lemma author_string_parsed_witness :
  transformAuthors
    [JStr (author_string "Jane Doe" (Some "jane@x.com") (Some "https://x.com"))]
  = Ok [JObj (("name", JStr "Jane Doe")
              :: (optional_member "email" (Some "jane@x.com")
                  ++ optional_member "url" (Some "https://x.com"))%list)].
Proof.
  apply (author_string_parsed "Jane Doe" (Some "jane@x.com")
           (Some "https://x.com")).
  - reflexivity.
  - discriminate.
  - split; [reflexivity | discriminate].
  - split; [reflexivity | discriminate].
Defined.

Lemma author_string_either_order_witness :
  transformAuthors [JStr ("Jane Doe" ++ " (" ++ "https://x.com" ++ ") <"
                          ++ "jane@x.com" ++ ">")]
  = Ok [JObj [("name", JStr "Jane Doe"); ("email", JStr "jane@x.com");
              ("url", JStr "https://x.com")]]
  /\ transformAuthors [JStr ("Jane Doe" ++ " <" ++ "jane@x.com" ++ "> ("
                             ++ "https://x.com" ++ ")")]
     = Ok [JObj [("name", JStr "Jane Doe"); ("email", JStr "jane@x.com");
                 ("url", JStr "https://x.com")]].
Proof.
  apply (author_string_either_order "Jane Doe" "jane@x.com" "https://x.com");
    first [reflexivity | discriminate].
Defined.

(** ** The properties above on the sample hosts *)

Lemma explore_until_blank_witness :
  explore (Sample.host true) Sample.package_dir
    (["dist"; "README.md"; "missing"] ++ "" :: ["x"])%list []
  = Done tt ["x"]
      ([] ++ turns explore_question
               (explore_event (Sample.host true) Sample.package_dir)
               ["dist"; "README.md"; "missing"]
          ++ [Question explore_question])%list
  /\ explore (Sample.host true) Sample.package_dir
       ["dist"; "README.md"; "missing"] []
     = Waiting
         ([] ++ turns explore_question
                  (explore_event (Sample.host true) Sample.package_dir)
                  ["dist"; "README.md"; "missing"]
             ++ [Question explore_question])%list.
Proof.
  apply (explore_until_blank (Sample.host true) Sample.package_dir
           ["dist"; "README.md"; "missing"]).
  repeat constructor; discriminate.
Defined.

Lemma globExplore_until_blank_witness :
  globExplore (Sample.host true) Sample.package_dir
    (["dist *.js"; "dist"] ++ "" :: ["x"])%list []
  = Done tt ["x"]
      ([] ++ turns globExplore_question
               (globExplore_event (Sample.host true) Sample.package_dir)
               ["dist *.js"; "dist"]
          ++ [Question globExplore_question])%list
  /\ globExplore (Sample.host true) Sample.package_dir ["dist *.js"; "dist"] []
     = Waiting
         ([] ++ turns globExplore_question
                  (globExplore_event (Sample.host true) Sample.package_dir)
                  ["dist *.js"; "dist"]
             ++ [Question globExplore_question])%list.
Proof.
  apply (globExplore_until_blank (Sample.host true) Sample.package_dir
           ["dist *.js"; "dist"]).
  repeat constructor; discriminate.
Defined.

Lemma globExplore_one_token_witness :
  globExplore_test (Sample.host true) Sample.package_dir "dist" []
  = (Ok tt,
     ([] ++ [match glob (Sample.host true) None
                     (join (Sample.host true) [Sample.package_dir; "dist"]) with
             | Ok found => Log (join_with tab found)
             | Throw e => ErrorCaught e ["message"]
             end])%list).
Proof.
  apply (globExplore_one_token (Sample.host true) Sample.package_dir "dist" []).
  reflexivity.
Defined.

Lemma builder_returns_what_was_entered_witness :
  exploreAndGlob (Sample.host true) Sample.package_dir
    (["dist"] ++ "" :: ["dist *.js"] ++ ""
       :: flat_map group_answers [("dist", ["*.js"; "*.css"]); (".", ["README.md"])]
       ++ "" :: ["x"])%list
    []
  = Done (map (fun g => stored_item (Sample.host true) (fst g) (snd g))
            [("dist", ["*.js"; "*.css"]); (".", ["README.md"])])
      ["x"]
      ([] ++ turns explore_question
               (explore_event (Sample.host true) Sample.package_dir) ["dist"]
          ++ [Question explore_question]
          ++ turns globExplore_question
               (globExplore_event (Sample.host true) Sample.package_dir)
               ["dist *.js"]
          ++ [Question globExplore_question]
          ++ [Log (nl ++ "File map(s) to use for auto-updating library...")]
          ++ flat_map group_questions
               [("dist", ["*.js"; "*.css"]); (".", ["README.md"])]
          ++ [Question basePath_question])%list.
Proof.
  apply (builder_returns_what_was_entered (Sample.host true) Sample.package_dir
           ["dist"] ["dist *.js"]
           [("dist", ["*.js"; "*.css"]); (".", ["README.md"])] ["x"] []).
  - repeat constructor; discriminate.
  - repeat constructor; discriminate.
  - repeat constructor; discriminate.
  - discriminate.
Defined.

Lemma createPR_request_shape_witness :
  exists name source target,
    obj_get [("name", JStr "left-pad");
             ("autoupdate", JObj [("source", JStr "npm");
                                  ("target", JStr "left-pad")])] "name"
    = JStr name
    /\ prop (obj_get [("name", JStr "left-pad");
                      ("autoupdate", JObj [("source", JStr "npm");
                                           ("target", JStr "left-pad")])]
               "autoupdate") "source" = Ok source
    /\ prop (obj_get [("name", JStr "left-pad");
                      ("autoupdate", JObj [("source", JStr "npm");
                                           ("target", JStr "left-pad")])]
               "autoupdate") "target" = Ok target
    /\ "Add left-pad w/ npm auto-update"
       = "Add " ++ name ++ " w/ " ++ ToString source ++ " auto-update"
    /\ [("packages/l/left-pad.json",
         Sample.stringify
           (JObj [("name", JStr "left-pad");
                  ("autoupdate", JObj [("source", JStr "npm");
                                       ("target", JStr "left-pad")])])
         ++ nl)]
       = [(package_file name,
           JSON_stringify (Sample.host true)
             (JObj [("name", JStr "left-pad");
                    ("autoupdate", JObj [("source", JStr "npm");
                                         ("target", JStr "left-pad")])])
           ++ nl)]
    /\ "Add left-pad w/ npm auto-update" = "Add left-pad w/ npm auto-update"
    /\ "add-left-pad" = branchBase (Sample.host true) ++ name
    /\ "cdnjs" = targetRepoOwner (Sample.host true)
    /\ "packages" = targetRepoName (Sample.host true)
    /\ "Adding left-pad using npm auto-update from left-pad." ++ nl ++ nl
         ++ "Resolves #12."
       = "Adding " ++ name ++ " using " ++ ToString source
         ++ " auto-update from " ++ ToString target ++ "."
         ++ (if "Resolves #12." =? "" then "" else nl ++ nl ++ "Resolves #12.").
Proof.
  apply (createPR_request_shape (Sample.host true)
           [("name", JStr "left-pad");
            ("autoupdate", JObj [("source", JStr "npm");
                                 ("target", JStr "left-pad")])]
           "Resolves #12." []
           (Ok (JObj [("data", JObj [("html_url",
                  JStr "https://github.com/cdnjs/packages/pull/1")])]))
           {| pr_owner := "cdnjs";
              pr_repo := "packages";
              pr_title := "Add left-pad w/ npm auto-update";
              pr_body := "Adding left-pad using npm auto-update from left-pad."
                         ++ nl ++ nl ++ "Resolves #12.";
              pr_head := "add-left-pad";
              pr_files :=
                [("packages/l/left-pad.json",
                  Sample.stringify
                    (JObj [("name", JStr "left-pad");
                           ("autoupdate", JObj [("source", JStr "npm");
                                                ("target", JStr "left-pad")])])
                  ++ nl)];
              pr_commit := "Add left-pad w/ npm auto-update" |}).
  vm_compute. reflexivity.
Defined.

Lemma createPR_refuses_incomplete_record_witness :
  createPR (Sample.host true) [("name", JStr "left-pad")] "" []
  = (Throw TypeError, []).
Proof.
  apply (createPR_refuses_incomplete_record (Sample.host true)
           [("name", JStr "left-pad")] "" []).
  left. reflexivity.
Defined.

Lemma output_after_success_witness :
  output (Sample.host true) Sample.record "#12" []
  = (Ok tt,
     ([] ++ [Log attempt_message;
             PullRequest
               {| pr_owner := "cdnjs";
                  pr_repo := "packages";
                  pr_title := "Add left-pad w/ npm auto-update";
                  pr_body := ("Adding left-pad using npm auto-update from left-pad."
                              ++ nl ++ nl ++ "Resolves #12.")%string;
                  pr_head := "add-left-pad";
                  pr_files :=
                    [("packages/l/left-pad.json",
                      (Sample.stringify (JObj Sample.record) ++ nl)%string)];
                  pr_commit := "Add left-pad w/ npm auto-update" |};
             Log (created_message
                    (JStr "https://github.com/cdnjs/packages/pull/1"))])%list).
Proof.
  apply (output_after_success (Sample.host true) Sample.record "#12" [] _
           (JObj [("data", JObj [("html_url",
              JStr "https://github.com/cdnjs/packages/pull/1")])])
           (JObj [("html_url", JStr "https://github.com/cdnjs/packages/pull/1")])
           (JStr "https://github.com/cdnjs/packages/pull/1")).
  - vm_compute. reflexivity.
  - reflexivity.
  - reflexivity.
Defined.

Lemma output_after_malformed_response_witness :
  exists path document,
    [("packages/l/left-pad.json",
      Sample.stringify (JObj SampleGit.record) ++ nl)]
    = [(path, document ++ nl)]
    /\ output SampleGit.host SampleGit.record "" []
       = (Ok tt,
          ([] ++ [Log attempt_message;
                  PullRequest
                    {| pr_owner := "cdnjs";
                       pr_repo := "packages";
                       pr_title := "Add left-pad w/ git auto-update";
                       pr_body :=
                         "Adding left-pad using git auto-update from git://github.com/azer/left-pad.git.";
                       pr_head := "add-left-pad";
                       pr_files :=
                         [("packages/l/left-pad.json",
                           (Sample.stringify (JObj SampleGit.record) ++ nl)%string)];
                       pr_commit := "Add left-pad w/ git auto-update" |};
                  Error failure_message;
                  ErrorCaught TypeError []; ErrorCaught TypeError ["message"];
                  ErrorCaught TypeError ["status"];
                  Log (fallback_heading ++ path)%string;
                  Log document])%list).
Proof.
  apply (output_after_malformed_response SampleGit.host SampleGit.record "" []
           {| pr_owner := "cdnjs";
              pr_repo := "packages";
              pr_title := "Add left-pad w/ git auto-update";
              pr_body :=
                "Adding left-pad using git auto-update from git://github.com/azer/left-pad.git.";
              pr_head := "add-left-pad";
              pr_files :=
                [("packages/l/left-pad.json",
                  (Sample.stringify (JObj SampleGit.record) ++ nl)%string)];
              pr_commit := "Add left-pad w/ git auto-update" |}
           (JObj [("status", JNum 201)]) TypeError).
  - vm_compute. reflexivity.
  - reflexivity.
Defined.

Lemma main_without_record_witness :
  main (Sample.host true) ["node"; "index.js"; "left-pad"]
    ["3"; " 1 "; "no-such-package"; "x"] []
  = Done tt ["x"]
      [Question updateChoice_question;
       Error "Please select either '1' or '2' for auto-update.";
       Question updateChoice_question;
       Question (npm_question [("name", JStr "left-pad")]);
       Error "Not found"].
Proof.
  apply (main_without_record (Sample.host true)
           ["node"; "index.js"; "left-pad"] "left-pad"
           ["3"; " 1 "; "no-such-package"; "x"] [] (JNum 1)
           ["no-such-package"; "x"]
           [Question updateChoice_question;
            Error "Please select either '1' or '2' for auto-update.";
            Question updateChoice_question]).
  - reflexivity.
  - discriminate.
  - vm_compute. reflexivity.
  - left. split; [reflexivity | vm_compute; reflexivity].
Defined.

Lemma npm_record_witness :
  exists jsonData name authors fileMap defaultFile,
    (exists answer consumed fullPath tr0 tr1,
       [""; ""; ""; "dist"; "*.js"; ""; ""; "a.js"; "#12"]
       = (answer :: consumed ++ defaultFile :: ["#12"])%list
       /\ fetch_json (Sample.host true)
            (registry_url [("name", JStr "left-pad")] answer)
          = Ok jsonData
       /\ exploreAndGlob (Sample.host true) fullPath
            (consumed ++ defaultFile :: ["#12"])%list tr0
          = Done fileMap (defaultFile :: ["#12"]) tr1)
    /\ prop jsonData "name" = Ok name
    /\ map fst (Sample.record ++ [("filename", JStr "a.js")])%list
       = (record_keys ++ if defaultFile =? "" then [] else ["filename"])%list
    /\ obj_get (Sample.record ++ [("filename", JStr "a.js")])%list "name"
       = JStr "left-pad"
    /\ obj_get (Sample.record ++ [("filename", JStr "a.js")])%list "authors"
       = JArr authors
    /\ Forall clean_author authors
    /\ obj_get (Sample.record ++ [("filename", JStr "a.js")])%list "autoupdate"
       = npm_autoupdate name fileMap
    /\ fileMap <> []
    /\ every_item_has_patterns fileMap
    /\ obj_get (Sample.record ++ [("filename", JStr "a.js")])%list "filename"
       = (if defaultFile =? "" then JUndef else JStr defaultFile).
Proof.
  apply (npm_record (Sample.host true) "left-pad"
           [""; ""; ""; "dist"; "*.js"; ""; ""; "a.js"; "#12"] []
           (Sample.record ++ [("filename", JStr "a.js")])%list ["#12"]
           Sample.session).
  vm_compute. reflexivity.
Defined.

Lemma npm_downloads_once_and_cleans_up_witness :
  exists name latest tarball tarPath before after,
    path_join SampleAway.host
      [JStr (dirname SampleAway.host); JStr "temp"; name; latest]
    = Ok tarPath
    /\ SampleAway.session
       = ([] ++ before ++ download_events SampleAway.host tarball tarPath
             ++ after ++ [Rmdir tarPath])%list
    /\ forallb is_console before = true
    /\ forallb is_console after = true
    /\ rmdir SampleAway.host tarPath = Ok tt
    /\ forall d e,
         d tarball tarPath = Throw e ->
         npm (with_download SampleAway.host d) [("name", JStr "left-pad")]
           Sample.answers []
         = Done (Some Sample.record) []
             ([] ++ before
                 ++ [Download tarball tarPath;
                     ErrorCaught e ["message"; "stack"]]
                 ++ after ++ [Rmdir tarPath])%list.
Proof.
  apply (npm_downloads_once_and_cleans_up SampleAway.host
           [("name", JStr "left-pad")] Sample.answers [] Sample.record []
           SampleAway.session).
  vm_compute. reflexivity.
Defined.

Lemma github_record_witness :
  exists repoOwner repoName authors fileMap defaultFile,
    (exists asked consumed fullPath tr0 tr1 tr2,
       (SampleGit.answers ++ ["#12"])%list
       = (asked ++ consumed ++ defaultFile :: ["#12"])%list
       /\ githubRepo SampleGit.host (SampleGit.answers ++ ["#12"])%list []
          = Done (repoOwner, repoName) (consumed ++ defaultFile :: ["#12"])%list
              tr0
       /\ exploreAndGlob SampleGit.host fullPath
            (consumed ++ defaultFile :: ["#12"])%list tr1
          = Done fileMap (defaultFile :: ["#12"]) tr2)
    /\ map fst SampleGit.record
       = (record_keys ++ if defaultFile =? "" then [] else ["filename"])%list
    /\ obj_get SampleGit.record "name" = JStr "left-pad"
    /\ obj_get SampleGit.record "repository" = git_repository repoOwner repoName
    /\ obj_get SampleGit.record "authors" = JArr authors
    /\ Forall clean_author authors
    /\ obj_get SampleGit.record "autoupdate"
       = git_autoupdate repoOwner repoName fileMap
    /\ fileMap <> []
    /\ every_item_has_patterns fileMap
    /\ obj_get SampleGit.record "filename"
       = (if defaultFile =? "" then JUndef else JStr defaultFile).
Proof.
  apply (github_record SampleGit.host "left-pad"
           (SampleGit.answers ++ ["#12"])%list []
           SampleGit.record ["#12"] SampleGit.session).
  vm_compute. reflexivity.
Defined.


Lemma github_downloads_once_and_cleans_up_witness :
  exists repoOwner repoName tagName tarball tarPath before after,
    path_join SampleGit.host
      [JStr (dirname SampleGit.host); JStr "temp"; repoOwner; repoName; tagName]
    = Ok tarPath
    /\ SampleGit.session
       = ([] ++ before ++ [Download tarball tarPath]
             ++ after ++ [Rmdir tarPath])%list
    /\ forallb is_console before = true
    /\ forallb is_console after = true
    /\ download SampleGit.host tarball tarPath = Ok tt
    /\ rmdir SampleGit.host tarPath = Ok tt.
Proof.
  apply (github_downloads_once_and_cleans_up SampleGit.host "left-pad"
           SampleGit.answers [] SampleGit.record [] SampleGit.session).
  vm_compute. reflexivity.
Defined.

Lemma getFirstDirectory_first_witness :
  getFirstDirectory SampleGit.host SampleGit.release_dir
  = Ok (JStr "azer-left-pad-0a1b2c3").
Proof.
  apply (getFirstDirectory_first SampleGit.host SampleGit.release_dir
           [("README.md", false)] "azer-left-pad-0a1b2c3" []).
  - reflexivity.
  - repeat constructor.
Defined.

Lemma getFirstDirectory_none_witness :
  getFirstDirectory SampleGit.host
    (Sample.join_posix [SampleGit.source_dir; "dist"])
  = Ok JUndef
  /\ rbind (getFirstDirectory SampleGit.host
              (Sample.join_posix [SampleGit.source_dir; "dist"]))
       (fun first =>
          path_join SampleGit.host
            [JStr (Sample.join_posix [SampleGit.source_dir; "dist"]); first])
     = Throw TypeError.
Proof.
  apply (getFirstDirectory_none SampleGit.host
           (Sample.join_posix [SampleGit.source_dir; "dist"])
           [("index.js", false)]).
  - reflexivity.
  - repeat constructor.
Defined.

Lemma npm_incomplete_document_witness :
  npm SampleGit.host [("name", JStr "left-pad")] [""; "x"] []
  = Failed TypeError
      ([] ++ [Question (npm_question [("name", JStr "left-pad")])])%list.
Proof.
  apply (npm_incomplete_document SampleGit.host [("name", JStr "left-pad")]
           "" ["x"] [] SampleGit.unpublished_doc JUndef TypeError);
    reflexivity.
Defined.

Lemma object_author_members_witness :
  transformAuthors
    [JObj [("name", JStr (author_string "Jane Doe" (Some "jane@x.com") None));
           ("email", JStr "jd@y.org"); ("homepage", JStr "https://y.org")]]
  = Ok [JObj (clean
          [("name", JStr "Jane Doe");
           ("email",
            js_or (obj_get
                     [("name",
                       JStr (author_string "Jane Doe" (Some "jane@x.com") None));
                      ("email", JStr "jd@y.org");
                      ("homepage", JStr "https://y.org")] "email")
              (JStr (segment_text (Some "jane@x.com"))));
           ("url",
            js_or (js_or
                     (obj_get
                        [("name",
                          JStr (author_string "Jane Doe" (Some "jane@x.com") None));
                         ("email", JStr "jd@y.org");
                         ("homepage", JStr "https://y.org")] "url")
                     (obj_get
                        [("name",
                          JStr (author_string "Jane Doe" (Some "jane@x.com") None));
                         ("email", JStr "jd@y.org");
                         ("homepage", JStr "https://y.org")] "homepage"))
              (JStr (segment_text None)))])].
Proof.
  apply (object_author_members
           [("name", JStr (author_string "Jane Doe" (Some "jane@x.com") None));
            ("email", JStr "jd@y.org"); ("homepage", JStr "https://y.org")]
           "Jane Doe" (Some "jane@x.com") None).
  - reflexivity.
  - reflexivity.
  - split; [reflexivity | discriminate].
  - exact I.
Defined.


